(** * Financial-Coach: the duplex audio session and its PCM codec

    A shallow embedding of [src/utils/audio.ts] (with its second copy in
    [src/unnamed/part_000], which writes through an [Int16Array]), of
    [src/services/liveService.ts] (the ScriptProcessor variant of
    [LiveService]) and of the AudioWorklet variant of [LiveService] that
    follows [App] in [src/App.tsx]; further on, of the state and the
    button handler of [App] itself and of the geometry of [Visualizer]
    ([src/unnamed/part_001]).

    Numbers.  A JavaScript number is modelled by [number]: a rational, the
    two infinities, or NaN.  Every arithmetic step on samples that the
    embedded code performs is exact in binary64 on the values it can meet
    (a binary32 sample clamped to [-1, 1] has a 24-bit significand, so its
    product with 0x7FFF or 0x8000 fits in 39 bits, and a 16-bit integer divided
    by 32768 is a binary32 value), so the rational is the value the code
    computes.  Captured samples are finite.  Sums of squares and square
    roots for the loudness are taken in exact arithmetic; times are
    rationals. *)

From Stdlib Require Import ZArith QArith Qround Qabs Qminmax.
From Stdlib Require Import List String Ascii Bool Arith.
From Stdlib Require Import Reals Qreals.
From Stdlib Require Import Lia Psatz Permutation.
Import ListNotations.

Local Open Scope string_scope.
Local Open Scope list_scope.
Local Open Scope Z_scope.

(* ------------------------------------------------------------------ *)
(** ** JavaScript numbers *)

Inductive number : Type :=
| Fin (q : Q)
| PosInf
| NegInf
| NaN.

(** [binary32 m e] is the binary32 value m * 2^e, for a 24-bit [m]. *)
Definition binary32 (m : Z) (e : Z) : Q := inject_Z m * (2 ^ e)%Q.

(** [Math.min(a, b)] and [Math.max(a, b)]: NaN if either argument is. *)
Definition Math_min (a b : number) : number :=
  match a, b with
  | NaN, _ | _, NaN => NaN
  | NegInf, _ | _, NegInf => NegInf
  | PosInf, x | x, PosInf => x
  | Fin x, Fin y => if Qle_bool x y then Fin x else Fin y
  end.

Definition Math_max (a b : number) : number :=
  match a, b with
  | NaN, _ | _, NaN => NaN
  | PosInf, _ | _, PosInf => PosInf
  | NegInf, x | x, NegInf => x
  | Fin x, Fin y => if Qle_bool x y then Fin y else Fin x
  end.

(** [s < 0]: false on NaN. *)
Definition lt_zero (s : number) : bool :=
  match s with
  | Fin q => negb (Qle_bool 0 q)
  | NegInf => true
  | PosInf | NaN => false
  end.

(** [s * k] for a positive integer constant [k]. *)
Definition mul_const (s : number) (k : Z) : number :=
  match s with
  | Fin q => Fin (q * inject_Z k)
  | other => other
  end.

(** Truncation toward zero, the first step of every ToIntN conversion. *)
Definition truncate (q : Q) : Z := Z.quot (Qnum q) (Zpos (Qden q)).

(** ECMAScript [ToInt16]: non-finite values give 0, finite ones are
    truncated and wrapped modulo 2^16 into the signed range. *)
Definition ToInt16 (v : number) : Z :=
  match v with
  | Fin q =>
      let int16bit := (truncate q) mod 65536 in
      if 32768 <=? int16bit then int16bit - 65536 else int16bit
  | _ => 0
  end.

(* ------------------------------------------------------------------ *)
(** ** src/utils/audio.ts *)

Module Audio.

(** An [ArrayBuffer] is its list of bytes, each in 0..255. *)
Definition ArrayBuffer := list Z.

(** [view.setInt16(_, val, true)]: the two bytes of [ToInt16 val], low
    byte first. *)
Definition setInt16_le (val : number) : list Z :=
  let w := ToInt16 val in
  [Z.land w 255; Z.land (Z.shiftr w 8) 255].

(** The value written for one sample: clamp, then scale by 0x8000 below
    zero and by 0x7FFF otherwise. *)
Definition scaled (x : number) : number :=
  let s := Math_max (Fin (-1)) (Math_min (Fin 1) x) in
  if lt_zero s then mul_const s 32768 (* 0x8000 *)
  else mul_const s 32767 (* 0x7FFF *).

Fixpoint float32ToInt16PCM (float32Data : list number) : ArrayBuffer :=
  match float32Data with
  | [] => []
  | x :: rest => setInt16_le (scaled x) ++ float32ToInt16PCM rest
  end.

(** The second copy of the function stores into an [Int16Array] and
    returns its buffer; the element store performs [ToInt16], and the
    buffer lays the elements out low byte first. *)
Definition int16_bytes (w : Z) : list Z :=
  [Z.land w 255; Z.land (Z.shiftr w 8) 255].

Definition float32ToInt16PCM_typed (float32Data : list number) : ArrayBuffer :=
  flat_map int16_bytes (map (fun x => ToInt16 (scaled x)) float32Data).

(** [new Int16Array(pcmData)]: a [RangeError] when the byte length is odd,
    otherwise the little-endian signed 16-bit elements. *)
Definition int16_of_bytes (lo hi : Z) : Z :=
  let u := lo + 256 * hi in
  if 32768 <=? u then u - 65536 else u.

Fixpoint Int16Array (pcmData : ArrayBuffer) : option (list Z) :=
  match pcmData with
  | [] => Some []
  | lo :: hi :: rest =>
      match Int16Array rest with
      | Some l => Some (int16_of_bytes lo hi :: l)
      | None => None
      end
  | [_] => None
  end.

Record AudioBuffer : Type := {
  channelData : list Q;       (* channel 0 *)
  frameCount : nat;
  bufferRate : Z
}.

(** [audioBuffer.duration]: frames over sample rate, in seconds. *)
Definition duration (b : AudioBuffer) : Q :=
  (inject_Z (Z.of_nat (frameCount b)) / inject_Z (bufferRate b))%Q.

(** [pcmToAudioBuffer(pcmData, ctx, sampleRate)] with [numChannels] at its
    default 1, as at both call sites, and at a sample rate that the
    context supports, as the 24000 of both call sites is: every
    implementation supports the rates from 8000 to 96000.  [None] is a
    thrown exception: the [RangeError] of [Int16Array], or the
    [NotSupportedError] of [createBuffer] for a length of zero frames.
    For a rate the context may refuse see [pcmToAudioBufferOn] below. *)
Definition pcmToAudioBuffer (pcmData : ArrayBuffer) (sampleRate : Z)
  : option AudioBuffer :=
  match Int16Array pcmData with
  | None => None
  | Some dataInt16 =>
      match dataInt16 with
      | [] => None
      | _ =>
          Some {| channelData :=
                    map (fun v => (inject_Z v / 32768)%Q) dataInt16;
                  frameCount := List.length dataInt16;
                  bufferRate := sampleRate |}
      end
  end.

(** The claim's reading of one encoded sample: clamp into [-1, 1], scale
    negative values by 0x8000 and the others by 0x7FFF, drop the
    fraction; no wrap-around is involved.  NaN is stored as 0. *)
Definition clamped_sample (x : number) : Z :=
  match x with
  | NaN => 0
  | PosInf => 32767
  | NegInf => -32768
  | Fin q =>
      if Qlt_le_dec q (-1) then -32768
      else if Qlt_le_dec 1 q then 32767
      else if Qlt_le_dec q 0 then truncate (q * 32768)
      else truncate (q * 32767)
  end.

(** Encode one sample and decode it again. *)
Definition roundtrip (s : Q) : option (list Q) :=
  option_map channelData (pcmToAudioBuffer (float32ToInt16PCM [Fin s]) 24000).

(** An [AudioContext], as far as [createBuffer] depends on it: the sample
    rates it supports.  Which these are is left to the implementation,
    within bounds: the rates from 8000 to 96000 are supported, a rate
    that is not positive never is. *)
Record AudioContext : Type := {
  acceptsRate : Z -> bool
}.

Definition standardContext (audioContext : AudioContext) : Prop :=
  (forall rate, 8000 <= rate <= 96000 -> acceptsRate audioContext rate = true)
  /\ (forall rate, rate <= 0 -> acceptsRate audioContext rate = false).

(** [pcmToAudioBuffer(pcmData, audioContext, sampleRate)] at any sample
    rate: [createBuffer] throws [NotSupportedError] also for a rate that
    the context does not support. *)
Definition pcmToAudioBufferOn (audioContext : AudioContext)
  (pcmData : ArrayBuffer) (sampleRate : Z) : option AudioBuffer :=
  match Int16Array pcmData with
  | None => None
  | Some dataInt16 =>
      if acceptsRate audioContext sampleRate
      then pcmToAudioBuffer pcmData sampleRate
      else None
  end.

End Audio.

(* ------------------------------------------------------------------ *)
(** ** src/types.ts and the values exchanged with the outside *)

Inductive ConnectionState : Type :=
| DISCONNECTED
| CONNECTING
| CONNECTED
| ERROR.

Inductive LogType : Type := user | agent | tool | system.

(** A [LogEntry] without its [timestamp] ([new Date()], the wall clock). *)
Record LogEntry : Type := { type : LogType; message : string }.

(** A thrown value, with its [message]; the empty string stands for a
    missing message as well (both are falsy). *)
Inductive JsError : Type := Error (text : string).

Definition error_message (e : JsError) : string :=
  match e with Error text => text end.

(** [s.includes(sub)] and [s.toLowerCase()], on strings of ASCII
    characters. *)
Fixpoint includes (s sub : string) : bool :=
  String.prefix sub s
  || match s with
     | EmptyString => false
     | String _ rest => includes rest sub
     end.

Definition lower (c : ascii) : ascii :=
  let n := nat_of_ascii c in
  if (65 <=? n)%nat && (n <=? 90)%nat then ascii_of_nat (n + 32) else c.

Fixpoint toLowerCase (s : string) : string :=
  match s with
  | EmptyString => EmptyString
  | String c rest => String (lower c) (toLowerCase rest)
  end.

(** A value between double quotes, as in a template literal. *)
Definition dquote : string := String (ascii_of_nat 34) EmptyString.

Definition quoted (s : string) : string :=
  String.append dquote (String.append s dquote).

(** A function call of the agent.  [fc_args] is [None] when the call
    carries no [args] object; [query] is [None] when the object has no
    string [query]. *)
Record Args : Type := { query : option string }.

Record FunctionCall : Type := {
  fc_id : string;
  fc_name : string;
  fc_args : option Args
}.

(** The three results a call can get: the literal [{}], the mock
    profile, or the text of the search stub. *)
Inductive ToolValue : Type :=
| EmptyObject
| MOCK_FINANCIAL_PROFILE
| StringValue (s : string).

(** [MOCK_FINANCIAL_PROFILE.user] *)
Definition profile_user : string := "Alex Chen".

Record FunctionResponse : Type := {
  fr_id : string;
  fr_name : string;
  fr_result : ToolValue
}.

(** What is handed to the session object: [sendRealtimeInput] with the PCM
    bytes (before their base64 text encoding), or [sendToolResponse]. *)
Inductive Outbound : Type :=
| RealtimeInput (mimeType : string) (data : Audio.ArrayBuffer)
| ToolResponse (functionResponses : FunctionResponse).

(** An inbound [LiveServerMessage]: its [toolCall.functionCalls], and the
    bytes that [base64ToUint8Array] gets out of
    [serverContent.modelTurn.parts[0].inlineData.data], taken to be valid
    base64 ([Some []] is the empty string). *)
Record LiveServerMessage : Type := {
  toolCall : option (list FunctionCall);
  audioData : option Audio.ArrayBuffer
}.

(** The session object of the SDK.  Whether a send call throws is up to
    the transport: [sendOutcomes] lists what its next calls will do, and
    a call beyond the list succeeds. *)
Inductive SendOutcome : Type := SendOk | SendThrows (e : JsError).

Record LiveSession : Type := {
  sessionId : nat;
  sendOutcomes : list SendOutcome
}.

Definition next_outcome (s : LiveSession) : SendOutcome * LiveSession :=
  match sendOutcomes s with
  | [] => (SendOk, s)
  | o :: rest => (o, {| sessionId := sessionId s; sendOutcomes := rest |})
  end.

Inductive AudioContextState : Type := running | suspended | closed.

Inductive Resource : Type :=
| InputContext
| OutputContext
| Microphone
| CaptureNode      (* the ScriptProcessorNode or the AudioWorkletNode *)
| SourceNode
| Transport.

(** The value passed to [onVolume]: [Math.sqrt(meanSquare) * 100], kept
    as the radicand. *)
Inductive Loudness : Type := RmsTimes100 (meanSquare : Q).

Inductive ConsoleLevel : Type := console_log | console_warn | console_error.

(** Everything the service does to its collaborators, in order. *)
Inductive Effect : Type :=
| Log (entry : LogEntry)                       (* onLog *)
| StatusChange (isConnected : bool)            (* onStatusChange *)
| Volume (v : Loudness)                        (* onVolume *)
| Send (session : nat) (m : Outbound)          (* a send call on the session *)
| Start (when : Q) (buffer : Audio.AudioBuffer)  (* source.start(when) *)
| Acquire (r : Resource)
| Release (r : Resource)
| Console (level : ConsoleLevel) (text : string).

Definition logOf (trace : list Effect) : list LogEntry :=
  flat_map (fun e => match e with Log entry => [entry] | _ => [] end) trace.

Definition sentOf (trace : list Effect) : list (nat * Outbound) :=
  flat_map (fun e => match e with Send i m => [(i, m)] | _ => [] end) trace.

Definition toolResponsesOf (trace : list Effect) : list FunctionResponse :=
  flat_map (fun e => match e with
                     | Send _ (ToolResponse r) => [r]
                     | _ => []
                     end) trace.

Definition audioBlocksOf (trace : list Effect) : list Audio.ArrayBuffer :=
  flat_map (fun e => match e with
                     | Send _ (RealtimeInput _ data) => [data]
                     | _ => []
                     end) trace.

Definition startsOf (trace : list Effect) : list Q :=
  flat_map (fun e => match e with Start t _ => [t] | _ => [] end) trace.

Definition volumesOf (trace : list Effect) : list Loudness :=
  flat_map (fun e => match e with Volume v => [v] | _ => [] end) trace.

Definition releasesOf (trace : list Effect) : list Resource :=
  flat_map (fun e => match e with Release r => [r] | _ => [] end) trace.

Definition acquiresOf (trace : list Effect) : list Resource :=
  flat_map (fun e => match e with Acquire r => [r] | _ => [] end) trace.

Definition consoleOf (trace : list Effect) : list (ConsoleLevel * string) :=
  flat_map (fun e => match e with Console l t => [(l, t)] | _ => [] end) trace.

Definition Disconnected_entry : LogEntry :=
  {| type := system; message := "Disconnected." |}.

Definition is_Disconnected (e : LogEntry) : bool :=
  String.eqb (message e) "Disconnected.".

(** The list without its element at index [k]. *)
Definition remove_nth {A : Type} (k : nat) (l : list A) : list A :=
  firstn k l ++ skipn (S k) l.

(** ** Completions: a call returns, or throws with the state it reached *)

Inductive Completion (S : Type) : Type :=
| Normal (st : S)
| Throw (e : JsError) (st : S).
Arguments Normal {S} st.
Arguments Throw {S} e st.

Definition bind {S : Type} (c : Completion S) (k : S -> Completion S)
  : Completion S :=
  match c with
  | Normal st => k st
  | Throw e st => Throw e st
  end.

Notation "st <- c ;; k" := (bind c (fun st => k))
  (at level 61, c at next level, right associativity).

(** [try { c } catch (e) { h }] *)
Definition try_catch {S : Type} (c : Completion S)
  (h : JsError -> S -> Completion S) : Completion S :=
  match c with
  | Normal st => Normal st
  | Throw e st => h e st
  end.

(** The state left by an [async] call whose promise nobody awaits: a
    rejection stays in the promise. *)
Definition unawaited {S : Type} (c : Completion S) : S :=
  match c with
  | Normal st => st
  | Throw _ st => st
  end.

(** ** Loudness *)

(** The samples at indices 0, 4, 8, ... *)
Fixpoint stride4 (data : list Q) : list Q :=
  match data with
  | [] => []
  | x :: rest =>
      x :: match rest with
           | _ :: _ :: _ :: rest' => stride4 rest'
           | _ => []
           end
  end.

(** [let sum = 0; for (...) sum += data[i] * data[i]] *)
Definition sumSquares (data : list Q) : Q :=
  fold_left (fun sum x => (sum + x * x)%Q) data 0%Q.

Definition INPUT_SAMPLE_RATE : Z := 16000.
Definition OUTPUT_SAMPLE_RATE : Z := 24000.


(* ------------------------------------------------------------------ *)
(** ** src/services/liveService.ts: [LiveService] on a ScriptProcessorNode

    An [async] method is cut at its [await]s into segments that run
    without interruption; the segments of one call are composed where
    nothing else is delivered in between. *)

Module Script.

(** A [handleMessage] invocation suspended at
    [await this.mockGoogleSearch(query)]: the call being served, the rest
    of the batch, and the audio of the message, still to be handled. *)
Record Task : Type := {
  call : FunctionCall;
  searchQuery : option string;
  remaining : list FunctionCall;
  audio : option Audio.ArrayBuffer
}.

(** The promise returned by [client.live.connect].  While pending it
    holds the callbacks registered with [then]; [eventual] is how the
    transport will settle it. *)
Inductive Promise : Type :=
| Pending (eventual : LiveSession + JsError) (thens : list Outbound)
| Fulfilled (s : LiveSession)
| Rejected (e : JsError).

Record Session : Type := {
  inputAudioContext : option AudioContextState;
  outputAudioContext : option AudioContextState;
  mediaStream : bool;          (* non-null *)
  processor : bool;            (* non-null *)
  source : bool;               (* non-null *)
  nextStartTime : Q;
  isConnected : bool;
  sessionPromise : option Promise;
  pending : list Task;
  trace : list Effect
}.

Definition initial : Session := {|
  inputAudioContext := None;
  outputAudioContext := None;
  mediaStream := false;
  processor := false;
  source := false;
  nextStartTime := 0;
  isConnected := false;
  sessionPromise := None;
  pending := [];
  trace := []
|}.

Definition set_inputAudioContext v (st : Session) : Session :=
  let '(Build_Session _ b c d e f g h i j) := st in Build_Session v b c d e f g h i j.
Definition set_outputAudioContext v (st : Session) : Session :=
  let '(Build_Session a _ c d e f g h i j) := st in Build_Session a v c d e f g h i j.
Definition set_mediaStream v (st : Session) : Session :=
  let '(Build_Session a b _ d e f g h i j) := st in Build_Session a b v d e f g h i j.
Definition set_processor v (st : Session) : Session :=
  let '(Build_Session a b c _ e f g h i j) := st in Build_Session a b c v e f g h i j.
Definition set_source v (st : Session) : Session :=
  let '(Build_Session a b c d _ f g h i j) := st in Build_Session a b c d v f g h i j.
Definition set_nextStartTime v (st : Session) : Session :=
  let '(Build_Session a b c d e _ g h i j) := st in Build_Session a b c d e v g h i j.
Definition set_isConnected v (st : Session) : Session :=
  let '(Build_Session a b c d e f _ h i j) := st in Build_Session a b c d e f v h i j.
Definition set_sessionPromise v (st : Session) : Session :=
  let '(Build_Session a b c d e f g _ i j) := st in Build_Session a b c d e f g v i j.
Definition set_pending v (st : Session) : Session :=
  let '(Build_Session a b c d e f g h _ j) := st in Build_Session a b c d e f g h v j.
Definition set_trace v (st : Session) : Session :=
  let '(Build_Session a b c d e f g h i _) := st in Build_Session a b c d e f g h i v.

(** Naming the fields of a session in a proof. *)
Ltac unpack st := destruct st as [ic oc ms pr so nst conn sp pend tr].

Definition emit (e : Effect) (st : Session) : Session :=
  set_trace (trace st ++ [e]) st.

Definition onLog (t : LogType) (m : string) (st : Session) : Session :=
  emit (Log {| type := t; message := m |}) st.

(** The callback given to [then] in both places:
    [(session) => { if (this.isConnected) session.send...(m) }].  What the
    send call throws stays in the derived promise. *)
Definition then_callback (m : Outbound) (s : LiveSession) (st : Session)
  : Session :=
  if isConnected st then
    let (_, s') := next_outcome s in
    set_sessionPromise (Some (Fulfilled s')) (emit (Send (sessionId s) m) st)
  else st.

(** [this.sessionPromise?.then(callback)].  On a fulfilled promise the
    callback runs once the current segment ends; no segment changes a
    field it reads after registering it, so it is run here. *)
Definition then_send (m : Outbound) (st : Session) : Session :=
  match sessionPromise st with
  | None => st
  | Some (Pending r q) => set_sessionPromise (Some (Pending r (q ++ [m]))) st
  | Some (Fulfilled s) => then_callback m s st
  | Some (Rejected _) => st
  end.

(** The callbacks of a promise that fulfils run in registration order,
    each on the session as the one before left it. *)
Fixpoint run_thens (q : list Outbound) (st : Session) : Session :=
  match q with
  | [] => st
  | m :: rest =>
      match sessionPromise st with
      | Some (Fulfilled s) => run_thens rest (then_callback m s st)
      | _ => st
      end
  end.

(** The pending promise settles. *)
Definition settle (st : Session) : Session :=
  match sessionPromise st with
  | Some (Pending (inl s) q) =>
      run_thens q (set_sessionPromise (Some (Fulfilled s)) st)
  | Some (Pending (inr e) _) => set_sessionPromise (Some (Rejected e)) st
  | _ => st
  end.

(** [disconnect()], up to its first [await]: the guard and the audio
    nodes.  The flag tells whether the teardown goes on. *)
Definition disconnect_begin (st : Session) : Session * bool :=
  if negb (isConnected st)
     && match sessionPromise st with None => true | Some _ => false end
  then (st, false)
  else
    let st := if processor st
              then set_processor false (emit (Release CaptureNode) st)
              else st in
    let st := if source st
              then set_source false (emit (Release SourceNode) st)
              else st in
    let st := if mediaStream st
              then set_mediaStream false (emit (Release Microphone) st)
              else st in
    (st, true).

Definition close_context (r : Resource) (ctx : option AudioContextState)
  (set : option AudioContextState -> Session -> Session) (st : Session)
  : Session :=
  match ctx with
  | Some closed => st
  | Some _ => set None (emit (Release r) st)
  | None => st
  end.

(** The rest of [disconnect()]: the contexts are closed, the session
    promise is awaited (its value and its rejection are ignored), and the
    flag is cleared last. *)
Definition disconnect_end (st : Session) : Session :=
  let st := close_context InputContext (inputAudioContext st)
              set_inputAudioContext st in
  let st := close_context OutputContext (outputAudioContext st)
              set_outputAudioContext st in
  let st := settle st in
  let st := set_isConnected false st in
  let st := emit (StatusChange false) st in
  let st := onLog system "Disconnected." st in
  set_sessionPromise None st.

(** A call of [disconnect()] that runs to its end with nothing delivered
    while it waits at its [await]s.  What is delivered to the service
    while a call waits, with the flag still set, is in [ScriptSteps]
    below, where the call is cut at each [await]. *)
Definition disconnect (st : Session) : Session :=
  let (st1, teardown) := disconnect_begin st in
  if teardown then disconnect_end st1 else st1.

(** The [catch] block of [connect()]. *)
Definition connect_catch (error : JsError) (st : Session) : Session :=
  let st := emit (Console console_error "Connection failed:") st in
  let msg := if String.eqb (error_message error) EmptyString
             then "Unknown connection error"
             else error_message error in
  let msg := if includes msg "Network"
             then "Network Error: Check API Key and Internet Connection."
             else msg in
  let st := onLog system (String.append "Connection failed: " msg) st in
  disconnect st.

(** [connect()] up to [await navigator.mediaDevices.getUserMedia(...)].
    The flag tells whether the call is now waiting there. *)
Definition connect_begin (st : Session) : Session * bool :=
  if isConnected st then (st, false)
  else
    let st := onLog system "Initializing audio context..." st in
    let st := set_inputAudioContext (Some running)
                (emit (Acquire InputContext) st) in
    (st, true).

(** [getUserMedia] has settled with [media]; on success [connect()] goes
    on to [await this.sessionPromise], where [live] is how the transport
    will settle that promise. *)
Definition connect_gotMedia (media : unit + JsError)
  (live : LiveSession + JsError) (st : Session) : Session :=
  match media with
  | inl _ =>
      let st := set_mediaStream true (emit (Acquire Microphone) st) in
      let st := set_outputAudioContext (Some running)
                  (emit (Acquire OutputContext) st) in
      let st := onLog system "Connecting to Gemini Live API..." st in
      set_sessionPromise (Some (Pending live [])) (emit (Acquire Transport) st)
  | inr error => connect_catch error st
  end.

(** The session promise has settled and [connect()] resumes. *)
Definition connect_settled (st : Session) : Session :=
  let st := settle st in
  match sessionPromise st with
  | Some (Rejected error) => connect_catch error st
  | _ => st
  end.

Definition startAudioStreaming (st : Session) : Session :=
  match inputAudioContext st, mediaStream st, sessionPromise st with
  | Some _, true, Some _ =>
      let st := set_source true (emit (Acquire SourceNode) st) in
      set_processor true (emit (Acquire CaptureNode) st)
  | _, _, _ => st
  end.

Definition handleOpen (st : Session) : Session :=
  let st := set_isConnected true st in
  let st := emit (StatusChange true) st in
  let st := onLog system "Coach is ready. Listening..." st in
  startAudioStreaming st.

(** [processor.onaudioprocess]: one block of the ScriptProcessorNode
    (4096 samples; the mean is only formed for a block that is not
    empty). *)
Definition onaudioprocess (inputData : list Q) (st : Session)
  : Completion Session :=
  if negb (isConnected st) then Normal st
  else
    let sum := sumSquares inputData in
    let meanSquare := (sum / inject_Z (Z.of_nat (List.length inputData)))%Q in
    let st := emit (Volume (RmsTimes100 meanSquare)) st in
    let pcm16 := Audio.float32ToInt16PCM (map Fin inputData) in
    (* .then(...).catch(err => {}) *)
    Normal (then_send (RealtimeInput "audio/pcm;rate=16000" pcm16) st).

Definition mockGoogleSearch (q : option string) : string + JsError :=
  match q with
  | None =>
      inr (Error "Cannot read properties of undefined (reading 'toLowerCase')")
  | Some query =>
      let queryLower := toLowerCase query in
      if includes queryLower "mortgage" || includes queryLower "rate" then
        inl "Current 30-year fixed mortgage rates are around 7.2%. Fed interest rates are held steady at 5.25-5.50%."%string
      else if includes queryLower "stock" || includes queryLower "market" then
        inl "The S&P 500 is up 0.5% today. Tech stocks are leading the rally."%string
      else
        inl (String.append "Search results for "
               (String.append (quoted query)
                  ": Recent financial news indicates stability in this sector. Consult specific trusted financial news outlets for real-time trading data."))
  end.

(** [fc.args.query] inside a template literal. *)
Definition show_query (q : option string) : string :=
  match q with
  | Some s => s
  | None => "undefined"
  end.

Definition respond (fc : FunctionCall) (result : ToolValue) : Outbound :=
  ToolResponse {| fr_id := fc_id fc; fr_name := fc_name fc;
                  fr_result := result |}.

(** Part 2 of [handleMessage]: the audio of the message.  [now] is
    [outputAudioContext.currentTime]. *)
Definition handleAudio (now : Q) (audioData : option Audio.ArrayBuffer)
  (st : Session) : Completion Session :=
  match audioData, outputAudioContext st with
  | Some ((_ :: _) as pcmBytes), Some _ =>
      match Audio.pcmToAudioBuffer pcmBytes OUTPUT_SAMPLE_RATE with
      | None => Throw (Error "RangeError") st
      | Some audioBuffer =>
          let st := set_nextStartTime (Qmax now (nextStartTime st)) st in
          let st := emit (Start (nextStartTime st) audioBuffer) st in
          Normal (set_nextStartTime
                    (nextStartTime st + Audio.duration audioBuffer)%Q st)
      end
  | _, _ => Normal st
  end.

(** The [for] loop over [message.toolCall.functionCalls], followed by
    part 2.  At [await this.mockGoogleSearch(query)] the invocation is
    parked in [pending] and the segment ends. *)
Fixpoint runCalls (now : Q) (calls : list FunctionCall)
  (audioData : option Audio.ArrayBuffer) (st : Session) : Completion Session :=
  match calls with
  | [] => handleAudio now audioData st
  | fc :: rest =>
      if String.eqb (fc_name fc) "get_financial_profile" then
        let st := onLog tool "Accessing secure financial profile..." st in
        let result := MOCK_FINANCIAL_PROFILE in
        let st := onLog tool
                    (String.append "Retrieved data for: " profile_user) st in
        let st := then_send (respond fc result) st in
        runCalls now rest audioData st
      else if String.eqb (fc_name fc) "google_search" then
        match fc_args fc with
        | None =>
            Throw (Error "Cannot read properties of undefined (reading 'query')") st
        | Some args =>
            let st := onLog tool
                        (String.append "Searching market info: "
                           (quoted (show_query (query args)))) st in
            Normal (set_pending
                      (pending st ++
                         [{| call := fc; searchQuery := query args;
                             remaining := rest; audio := audioData |}]) st)
        end
      else
        let st := then_send (respond fc EmptyObject) st in
        runCalls now rest audioData st
  end.

(** [catch (e) { console.error("Error processing message:", e) }] *)
Definition message_catch (c : Completion Session) : Session :=
  match c with
  | Normal st => st
  | Throw _ st => emit (Console console_error "Error processing message:") st
  end.

Definition handleMessage (now : Q) (message : LiveServerMessage)
  (st : Session) : Session :=
  if negb (isConnected st) then st
  else
    message_catch
      match toolCall message with
      | Some functionCalls =>
          let st := onLog system "Coach requesting data..." st in
          runCalls now functionCalls (audioData message) st
      | None => handleAudio now (audioData message) st
      end.

(** The search stub of a parked invocation has returned: the invocation
    resumes inside the same [try]. *)
Definition resume (now : Q) (t : Task) (st : Session) : Session :=
  message_catch
    match mockGoogleSearch (searchQuery t) with
    | inr e => Throw e st
    | inl text =>
        let st := onLog tool "Found search results." st in
        let st := then_send (respond (call t) (StringValue text)) st in
        runCalls now (remaining t) (audio t) st
    end.

(** The timer of the [k]-th parked invocation fires. *)
Definition timer (k : nat) (now : Q) (st : Session) : Session :=
  match nth_error (pending st) k with
  | Some t => resume now t (set_pending (remove_nth k (pending st)) st)
  | None => st
  end.

Definition handleClose (st : Session) : Session :=
  let st := onLog system "Session ended." st in
  disconnect st.

Definition handleError (e : JsError) (st : Session) : Session :=
  let errorMessage := if String.eqb (error_message e) EmptyString
                      then "[object ErrorEvent]"
                      else error_message e in
  let st := onLog system (String.append "API Error: " errorMessage) st in
  let st := emit (Console console_error errorMessage) st in
  disconnect st.

(** What can be delivered to a session. *)
Inductive Event : Type :=
| Message (now : Q) (message : LiveServerMessage)
| Timer (k : nat) (now : Q)
| AudioProcess (inputData : list Q)
| Open
| Disconnect.

Definition deliver (st : Session) (ev : Event) : Session :=
  match ev with
  | Message now message => handleMessage now message st
  | Timer k now => timer k now st
  | AudioProcess inputData => unawaited (onaudioprocess inputData st)
  | Open => handleOpen st
  | Disconnect => disconnect st
  end.

Definition run (evs : list Event) (st : Session) : Session :=
  fold_left deliver evs st.

(** *** What the dispatcher owes

    The result each call is to get, by name; the answer that carries it
    under the id and name of the call; and the calls of a parked
    invocation that still wait for theirs. *)
Definition dispatch (fc : FunctionCall) : ToolValue :=
  if String.eqb (fc_name fc) "get_financial_profile" then
    MOCK_FINANCIAL_PROFILE
  else if String.eqb (fc_name fc) "google_search" then
    match fc_args fc with
    | Some args =>
        match mockGoogleSearch (query args) with
        | inl text => StringValue text
        | inr _ => EmptyObject
        end
    | None => EmptyObject
    end
  else EmptyObject.

Definition answer (fc : FunctionCall) : FunctionResponse :=
  {| fr_id := fc_id fc; fr_name := fc_name fc; fr_result := dispatch fc |}.

Definition owed (t : Task) : list FunctionCall := call t :: remaining t.

(** A search call is well formed when it carries a string [query], as the
    declaration of the tool requires. *)
Definition wellFormed (fc : FunctionCall) : Prop :=
  fc_name fc = "google_search" ->
  exists q, fc_args fc = Some {| query := Some q |}.

Definition parked_ok (t : Task) : Prop :=
  fc_name (call t) = "google_search"
  /\ (exists q, fc_args (call t) = Some {| query := Some q |}
                /\ searchQuery t = Some q)
  /\ Forall wellFormed (remaining t).

(** The session is connected and its promise is fulfilled. *)
Definition live (st : Session) : Prop :=
  isConnected st = true /\ exists s, sessionPromise st = Some (Fulfilled s).

(** ... and every parked invocation waits on a well-formed search. *)
Definition serving (st : Session) : Prop :=
  live st /\ Forall parked_ok (pending st).

Definition arriving (ev : Event) : list FunctionCall :=
  match ev with
  | Message _ message =>
      match toolCall message with
      | Some functionCalls => functionCalls
      | None => []
      end
  | _ => []
  end.

(** Inbound messages with well-formed calls, and timers of the stub. *)
Definition toolTraffic (ev : Event) : Prop :=
  match ev with
  | Message _ message => Forall wellFormed (arriving ev)
  | Timer _ _ => True
  | _ => False
  end.

End Script.


(* ------------------------------------------------------------------ *)
(** ** The AudioWorklet variant of [LiveService] (second part of
    [src/App.tsx]) *)

(** [chunk.subarray(b, e)] and [target.set(src, offset)].  The latter
    is only called with [offset + src.length <= target.length]. *)
Definition subarray (chunk : list Q) (b e : nat) : list Q :=
  firstn (e - b) (skipn b chunk).

Definition typed_set (target src : list Q) (offset : nat) : list Q :=
  firstn offset target ++ src ++ skipn (offset + List.length src) target.

Module Worklet.

Definition BUFFER_SIZE : nat := 4096.

Record Task : Type := {
  call : FunctionCall;
  searchQuery : option string;
  remaining : list FunctionCall;
  audio : option Audio.ArrayBuffer
}.

Record Session : Type := {
  inputAudioContext : option AudioContextState;
  outputAudioContext : option AudioContextState;
  mediaStream : bool;          (* non-null *)
  workletNode : bool;          (* non-null *)
  source : bool;               (* non-null *)
  nextStartTime : Q;
  isConnected : bool;
  audioBuffer : list Q;
  audioBufferIdx : nat;
  currentSession : option LiveSession;
  pending : list Task;
  trace : list Effect
}.

Definition initial : Session := {|
  inputAudioContext := None;
  outputAudioContext := None;
  mediaStream := false;
  workletNode := false;
  source := false;
  nextStartTime := 0;
  isConnected := false;
  audioBuffer := repeat 0%Q BUFFER_SIZE;
  audioBufferIdx := 0;
  currentSession := None;
  pending := [];
  trace := []
|}.

Definition set_inputAudioContext v (st : Session) : Session :=
  let '(Build_Session _ b c d e f g h i j k l) := st in Build_Session v b c d e f g h i j k l.
Definition set_outputAudioContext v (st : Session) : Session :=
  let '(Build_Session a _ c d e f g h i j k l) := st in Build_Session a v c d e f g h i j k l.
Definition set_mediaStream v (st : Session) : Session :=
  let '(Build_Session a b _ d e f g h i j k l) := st in Build_Session a b v d e f g h i j k l.
Definition set_workletNode v (st : Session) : Session :=
  let '(Build_Session a b c _ e f g h i j k l) := st in Build_Session a b c v e f g h i j k l.
Definition set_source v (st : Session) : Session :=
  let '(Build_Session a b c d _ f g h i j k l) := st in Build_Session a b c d v f g h i j k l.
Definition set_nextStartTime v (st : Session) : Session :=
  let '(Build_Session a b c d e _ g h i j k l) := st in Build_Session a b c d e v g h i j k l.
Definition set_isConnected v (st : Session) : Session :=
  let '(Build_Session a b c d e f _ h i j k l) := st in Build_Session a b c d e f v h i j k l.
Definition set_audioBuffer v (st : Session) : Session :=
  let '(Build_Session a b c d e f g _ i j k l) := st in Build_Session a b c d e f g v i j k l.
Definition set_audioBufferIdx v (st : Session) : Session :=
  let '(Build_Session a b c d e f g h _ j k l) := st in Build_Session a b c d e f g h v j k l.
Definition set_currentSession v (st : Session) : Session :=
  let '(Build_Session a b c d e f g h i _ k l) := st in Build_Session a b c d e f g h i v k l.
Definition set_pending v (st : Session) : Session :=
  let '(Build_Session a b c d e f g h i j _ l) := st in Build_Session a b c d e f g h i j v l.
Definition set_trace v (st : Session) : Session :=
  let '(Build_Session a b c d e f g h i j k _) := st in Build_Session a b c d e f g h i j k v.

(** Naming the fields of a session in a proof. *)
Ltac unpack st :=
  destruct st as [ic oc ms wn so nst conn buf idx cs pend tr].

Definition emit (e : Effect) (st : Session) : Session :=
  set_trace (trace st ++ [e]) st.

Definition onLog (t : LogType) (m : string) (st : Session) : Session :=
  emit (Log {| type := t; message := m |}) st.

(** [await ctx.close()]: closing a closed context rejects. *)
Definition close_context (r : Resource) (ctx : option AudioContextState)
  (set : option AudioContextState -> Session -> Session) (st : Session)
  : Completion Session :=
  match ctx with
  | Some closed => Throw (Error "InvalidStateError") st
  | Some _ => Normal (set (Some closed) (emit (Release r) st))
  | None => Normal st
  end.

(** [disconnect()]: there is no guard; the flag is cleared first.  The
    call runs to its end with nothing delivered while it waits at its
    [await]s; [WorkletSteps] below cuts it at each [await]. *)
Definition disconnect (st : Session) : Completion Session :=
  let st := set_isConnected false st in
  let st := set_currentSession None st in
  let st := emit (StatusChange false) st in
  let st := if workletNode st
            then set_workletNode false (emit (Release CaptureNode) st)
            else st in
  let st := if source st
            then set_source false (emit (Release SourceNode) st)
            else st in
  let st := if mediaStream st
            then set_mediaStream false (emit (Release Microphone) st)
            else st in
  st <- close_context InputContext (inputAudioContext st)
          set_inputAudioContext st ;;
  st <- close_context OutputContext (outputAudioContext st)
          set_outputAudioContext st ;;
  let st := set_inputAudioContext None st in
  let st := set_outputAudioContext None st in
  Normal (onLog system "Disconnected." st).

Definition handleConnectionError (error : JsError) (st : Session) : Session :=
  let st := emit (Console console_error "Connection failed:") st in
  let msg := if String.eqb (error_message error) EmptyString
             then "Unknown error"
             else error_message error in
  let msg := if includes msg "403" || includes msg "API key"
             then "Invalid API Key or unauthorized." else msg in
  let msg := if includes msg "404"
             then "Model not found. Check model name." else msg in
  let msg := if includes msg "Network Error" || includes msg "Failed to fetch"
             then "Network Error: Check internet connection or firewall."
             else msg in
  let st := onLog system (String.append "Connection failed: " msg) st in
  unawaited (disconnect st).

(** What the browser answers during one [connect()]. *)
Record ConnectEnv : Type := {
  newContextState : AudioContextState;   (* [running] or [suspended] *)
  addModule : option JsError;            (* [None]: the module loads *)
  getUserMedia : option JsError          (* [None]: a stream is granted *)
}.

Definition resumed (s : AudioContextState) : AudioContextState :=
  match s with
  | suspended => running
  | other => other
  end.

(** [connect()] up to [await this.client.live.connect(...)].  The flag
    tells whether the call is now waiting there. *)
Definition connect_begin (env : ConnectEnv) (st : Session) : Session * bool :=
  if isConnected st then (st, false)
  else
    let st := set_isConnected true st in
    let st := emit (StatusChange true) st in
    let st := onLog system "Initializing audio context..." st in
    let st := set_inputAudioContext (Some (resumed (newContextState env)))
                (emit (Acquire InputContext) st) in
    let st := set_outputAudioContext (Some (resumed (newContextState env)))
                (emit (Acquire OutputContext) st) in
    match addModule env with
    | Some _ =>
        let st := emit (Console console_error "AudioWorklet failed:") st in
        (handleConnectionError (Error "Could not initialize AudioWorklet.") st,
         false)
    | None =>
        match getUserMedia env with
        | Some error => (handleConnectionError error st, false)
        | None =>
            let st := set_mediaStream true (emit (Acquire Microphone) st) in
            let st := onLog system "Connecting to Gemini Live API..." st in
            (emit (Acquire Transport) st, true)
        end
    end.

Definition startAudioStreaming (st : Session) : Session :=
  match inputAudioContext st, mediaStream st with
  | Some _, true =>
      let st := set_source true (emit (Acquire SourceNode) st) in
      set_workletNode true (emit (Acquire CaptureNode) st)
  | _, _ => st
  end.

(** [live.connect] has settled and [connect()] resumes. *)
Definition connect_finish (live : LiveSession + JsError) (st : Session)
  : Session :=
  match live with
  | inr error => handleConnectionError error st
  | inl session =>
      if negb (isConnected st) then
        emit (Console console_log
                "Disconnected while connecting. Closing session immediately.")
          st
      else
        startAudioStreaming (set_currentSession (Some session) st)
  end.

Definition connect (env : ConnectEnv) (live : LiveSession + JsError)
  (st : Session) : Session :=
  let (st1, waiting) := connect_begin env st in
  if waiting then connect_finish live st1 else st1.

Definition handleOpen (st : Session) : Session :=
  onLog system "Coach is ready. Listening..." st.

(** A send call on [this.currentSession], which the caller has checked to
    be non-null. *)
Definition session_send (m : Outbound) (st : Session) : Completion Session :=
  match currentSession st with
  | None => Throw (Error "Cannot read properties of null") st
  | Some s =>
      let (outcome, s') := next_outcome s in
      let st := set_currentSession (Some s') (emit (Send (sessionId s) m) st) in
      match outcome with
      | SendOk => Normal st
      | SendThrows e => Throw e st
      end
  end.

(** [e.message && (e.message.includes("closed") ||
    e.message.includes("CLOSING"))] *)
Definition isClosing (e : JsError) : bool :=
  negb (String.eqb (error_message e) EmptyString)
  && (includes (error_message e) "closed"
      || includes (error_message e) "CLOSING").

Definition sendAudioChunk (float32Data : list Q) (st : Session)
  : Completion Session :=
  if negb (isConnected st)
     || match currentSession st with None => true | Some _ => false end
  then Normal st
  else
    try_catch
      (let sum := sumSquares (stride4 float32Data) in
       let meanSquare :=
         (sum / (inject_Z (Z.of_nat (List.length float32Data)) / 4))%Q in
       let st := emit (Volume (RmsTimes100 meanSquare)) st in
       let pcm16 := Audio.float32ToInt16PCM (map Fin float32Data) in
       session_send (RealtimeInput "audio/pcm;rate=16000" pcm16) st)
      (fun e st =>
         if isClosing e
         then Normal (unawaited (disconnect st))
         else Normal (emit (Console console_warn "Send error:") st)).

(** The PCM bytes sent for a block of samples. *)
Definition encoded (block : list Q) : Audio.ArrayBuffer :=
  Audio.float32ToInt16PCM (map Fin block).

(** The transport outcomes after which capture goes on. *)
Definition benign (o : SendOutcome) : bool :=
  match o with
  | SendOk => true
  | SendThrows e => negb (isClosing e)
  end.

(** The service accepts work, holds a session whose transport never
    reports that it is closing, and listens to the worklet. *)
Definition accepting (st : Session) : Prop :=
  isConnected st = true
  /\ workletNode st = true
  /\ exists s, currentSession st = Some s
               /\ Forall (fun o => benign o = true) (sendOutcomes s).

(** ... and its accumulation buffer has its capacity and is not full. *)
Definition capturing (st : Session) : Prop :=
  accepting st
  /\ List.length (audioBuffer st) = BUFFER_SIZE
  /\ (audioBufferIdx st < BUFFER_SIZE)%nat.

(** The [while] loop of [processInputAudio]; every turn but possibly the
    first copies at least one sample, so [fuel] above the chunk length
    is never used up. *)
Fixpoint processLoop (fuel : nat) (chunk : list Q) (chunkIdx : nat)
  (st : Session) : Completion Session :=
  match fuel with
  | O => Normal st
  | S fuel' =>
      if (chunkIdx <? List.length chunk)%nat then
        let space := (List.length (audioBuffer st) - audioBufferIdx st)%nat in
        let copyLen := Nat.min space (List.length chunk - chunkIdx) in
        let st := set_audioBuffer
                    (typed_set (audioBuffer st)
                       (subarray chunk chunkIdx (chunkIdx + copyLen))
                       (audioBufferIdx st)) st in
        let st := set_audioBufferIdx (audioBufferIdx st + copyLen) st in
        let chunkIdx := (chunkIdx + copyLen)%nat in
        st <- (if (List.length (audioBuffer st) <=? audioBufferIdx st)%nat
               then st <- sendAudioChunk (audioBuffer st) st ;;
                    Normal (set_audioBufferIdx 0 st)
               else Normal st) ;;
        processLoop fuel' chunk chunkIdx st
      else Normal st
  end.

Definition processInputAudio (chunk : list Q) (st : Session)
  : Completion Session :=
  if negb (isConnected st) then Normal st
  else processLoop (S (List.length chunk)) chunk 0 st.

(** [workletNode.port.onmessage], which [disconnect()] unregisters. *)
Definition port_onmessage (chunk : list Q) (st : Session)
  : Completion Session :=
  if negb (workletNode st) then Normal st
  else if negb (isConnected st) then Normal st
  else processInputAudio chunk st.

Definition mockGoogleSearch (q : option string) : string :=
  String.append "Search results for "
    (String.append
       (quoted (match q with Some s => s | None => "undefined" end))
       ": Recent financial data indicates stability.").

Definition respond (fc : FunctionCall) (result : ToolValue) : Outbound :=
  ToolResponse {| fr_id := fc_id fc; fr_name := fc_name fc;
                  fr_result := result |}.

(** [if (this.isConnected && this.currentSession) { try { send } catch
    { console.log } }] *)
Definition sendToolResponse (fc : FunctionCall) (result : ToolValue)
  (st : Session) : Session :=
  if isConnected st
     && match currentSession st with None => false | Some _ => true end
  then
    match session_send (respond fc result) st with
    | Normal st => st
    | Throw _ st => emit (Console console_log "Failed to send tool response") st
    end
  else st.

Definition handleAudio (now : Q) (audioData : option Audio.ArrayBuffer)
  (st : Session) : Completion Session :=
  match audioData, outputAudioContext st with
  | Some ((_ :: _) as pcmBytes), Some _ =>
      match Audio.pcmToAudioBuffer pcmBytes OUTPUT_SAMPLE_RATE with
      | None => Throw (Error "RangeError") st
      | Some audioBuffer =>
          let st := set_nextStartTime (Qmax now (nextStartTime st)) st in
          let st := emit (Start (nextStartTime st) audioBuffer) st in
          Normal (set_nextStartTime
                    (nextStartTime st + Audio.duration audioBuffer)%Q st)
      end
  | _, _ => Normal st
  end.

Fixpoint runCalls (now : Q) (calls : list FunctionCall)
  (audioData : option Audio.ArrayBuffer) (st : Session) : Completion Session :=
  match calls with
  | [] => handleAudio now audioData st
  | fc :: rest =>
      if String.eqb (fc_name fc) "get_financial_profile" then
        let result := MOCK_FINANCIAL_PROFILE in
        let st := onLog tool (String.append "Read data: " profile_user) st in
        let st := sendToolResponse fc result st in
        runCalls now rest audioData st
      else if String.eqb (fc_name fc) "google_search" then
        match fc_args fc with
        | None =>
            Throw (Error "Cannot read properties of undefined (reading 'query')") st
        | Some args =>
            let st := onLog tool
                        (String.append "Search: "
                           (quoted (match query args with
                                    | Some s => s
                                    | None => "undefined"
                                    end))) st in
            Normal (set_pending
                      (pending st ++
                         [{| call := fc; searchQuery := query args;
                             remaining := rest; audio := audioData |}]) st)
        end
      else
        let st := sendToolResponse fc EmptyObject st in
        runCalls now rest audioData st
  end.

Definition message_catch (c : Completion Session) : Session :=
  match c with
  | Normal st => st
  | Throw _ st => emit (Console console_error "Error processing message:") st
  end.

Definition handleMessage (now : Q) (message : LiveServerMessage)
  (st : Session) : Session :=
  if negb (isConnected st) then st
  else
    message_catch
      match toolCall message with
      | Some functionCalls =>
          runCalls now functionCalls (audioData message) st
      | None => handleAudio now (audioData message) st
      end.

Definition resume (now : Q) (t : Task) (st : Session) : Session :=
  message_catch
    (let result := StringValue (mockGoogleSearch (searchQuery t)) in
     let st := sendToolResponse (call t) result st in
     runCalls now (remaining t) (audio t) st).

Definition timer (k : nat) (now : Q) (st : Session) : Session :=
  match nth_error (pending st) k with
  | Some t => resume now t (set_pending (remove_nth k (pending st)) st)
  | None => st
  end.

(** [code] is the decimal text of [e.code]. *)
Definition handleClose (code : string) (st : Session) : Session :=
  let st := onLog system (String.append "Session ended. Code: " code) st in
  unawaited (disconnect st).

Definition handleError (st : Session) : Session :=
  let st := onLog system "API Error encountered." st in
  let st := emit (Console console_error "ErrorEvent") st in
  unawaited (disconnect st).

Inductive Event : Type :=
| Message (now : Q) (message : LiveServerMessage)
| Timer (k : nat) (now : Q)
| WorkletMessage (chunk : list Q)
| Disconnect.

Definition deliver (st : Session) (ev : Event) : Session :=
  match ev with
  | Message now message => handleMessage now message st
  | Timer k now => timer k now st
  | WorkletMessage chunk => unawaited (port_onmessage chunk st)
  | Disconnect => unawaited (disconnect st)
  end.

Definition run (evs : list Event) (st : Session) : Session :=
  fold_left deliver evs st.

(** *** What the dispatcher owes *)
Definition dispatch (fc : FunctionCall) : ToolValue :=
  if String.eqb (fc_name fc) "get_financial_profile" then
    MOCK_FINANCIAL_PROFILE
  else if String.eqb (fc_name fc) "google_search" then
    match fc_args fc with
    | Some args => StringValue (mockGoogleSearch (query args))
    | None => EmptyObject
    end
  else EmptyObject.

Definition answer (fc : FunctionCall) : FunctionResponse :=
  {| fr_id := fc_id fc; fr_name := fc_name fc; fr_result := dispatch fc |}.

Definition owed (t : Task) : list FunctionCall := call t :: remaining t.

(** A search call is well formed when it carries an [args] object. *)
Definition wellFormed (fc : FunctionCall) : Prop :=
  fc_name fc = "google_search" -> fc_args fc <> None.

Definition parked_ok (t : Task) : Prop :=
  fc_name (call t) = "google_search"
  /\ (exists args, fc_args (call t) = Some args
                   /\ searchQuery t = query args)
  /\ Forall wellFormed (remaining t).

(** The session is connected and holds its session object. *)
Definition live (st : Session) : Prop :=
  isConnected st = true /\ exists s, currentSession st = Some s.

Definition serving (st : Session) : Prop :=
  live st /\ Forall parked_ok (pending st).

Definition arriving (ev : Event) : list FunctionCall :=
  match ev with
  | Message _ message =>
      match toolCall message with
      | Some functionCalls => functionCalls
      | None => []
      end
  | _ => []
  end.

Definition toolTraffic (ev : Event) : Prop :=
  match ev with
  | Message _ message => Forall wellFormed (arriving ev)
  | Timer _ _ => True
  | _ => False
  end.

End Worklet.

(** ** The number behind a [Loudness] *)

Definition loudness_value (v : Loudness) : R :=
  match v with
  | RmsTimes100 meanSquare => (sqrt (Q2R meanSquare) * 100)%R
  end.


(* ------------------------------------------------------------------ *)
(** ** Example sessions and messages *)

Definition session1 : LiveSession := {| sessionId := 1; sendOutcomes := [] |}.

(** A message that carries audio only, and one that carries calls only. *)
Definition audioMessage (pcmBytes : Audio.ArrayBuffer) : LiveServerMessage :=
  {| toolCall := None; audioData := Some pcmBytes |}.


(** The ScriptProcessor service after a [connect()] that met no failure:
    microphone granted, [onopen] delivered, session promise fulfilled. *)
Definition script_connected : Script.Session :=
  Script.connect_settled
    (Script.handleOpen
       (Script.connect_gotMedia (inl tt) (inl session1)
          (fst (Script.connect_begin Script.initial)))).

Definition browser_ok : Worklet.ConnectEnv :=
  {| Worklet.newContextState := running;
     Worklet.addModule := None;
     Worklet.getUserMedia := None |}.

(** The AudioWorklet service after a [connect()] that met no failure. *)
Definition worklet_connected : Worklet.Session :=
  Worklet.connect browser_ok (inl session1) Worklet.initial.

Definition profileCall : FunctionCall :=
  {| fc_id := "call-1"; fc_name := "get_financial_profile";
     fc_args := Some {| query := None |} |}.


Definition unknownCall : FunctionCall :=
  {| fc_id := "call-3"; fc_name := "transfer_funds"; fc_args := None |}.


(** A session whose transport rejects the next send while closing, and
    one whose next send fails for another reason. *)
Definition session_closing : LiveSession :=
  {| sessionId := 2;
     sendOutcomes :=
       [SendThrows (Error "WebSocket is already in CLOSING or CLOSED state.")] |}.

Definition session_flaky : LiveSession :=
  {| sessionId := 3;
     sendOutcomes := [SendThrows (Error "Payload too large")] |}.

Definition worklet_closing : Worklet.Session :=
  Worklet.connect browser_ok (inl session_closing) Worklet.initial.

Definition worklet_flaky : Worklet.Session :=
  Worklet.connect browser_ok (inl session_flaky) Worklet.initial.

Definition script_flaky : Script.Session :=
  Script.connect_settled
    (Script.handleOpen
       (Script.connect_gotMedia (inl tt) (inl session_flaky)
          (fst (Script.connect_begin Script.initial)))).

(** [connect()] waiting: for the microphone in the ScriptProcessor
    service, for the transport in the AudioWorklet service. *)
Definition script_connecting : Script.Session :=
  fst (Script.connect_begin Script.initial).

Definition worklet_connecting : Worklet.Session :=
  fst (Worklet.connect_begin browser_ok Worklet.initial).



(** A capture block at full scale, and two frames of inbound PCM. *)
Definition full_scale_block : list Q := repeat 1%Q 4096.

Definition two_frames : Audio.ArrayBuffer := [0; 64; 0; 192].

(** A context that supports the rates the Web Audio API requires of every
    implementation, and no other. *)
Definition narrowContext : Audio.AudioContext :=
  {| Audio.acceptsRate := fun rate => (8000 <=? rate) && (rate <=? 96000) |}.

(* ------------------------------------------------------------------ *)
(** ** src/utils/audio.ts: the base64 text encoding

    [btoa] and [atob] are the browser's functions; they are written out
    here as the HTML Standard defines them (forgiving-base64 encode and
    decode).  A binary string is a [string], whose characters are the
    code units 0..255. *)

Module Base64.

Definition alphabet : list ascii :=
  list_ascii_of_string
    "ABCDEFGHIJKLMNOPQRSTUVWXYZabcdefghijklmnopqrstuvwxyz0123456789+/".

Definition encodeSextet (n : Z) : ascii :=
  nth (Z.to_nat n) alphabet "A"%char.

Fixpoint index_of (c : ascii) (l : list ascii) : option Z :=
  match l with
  | [] => None
  | x :: rest =>
      if Ascii.eqb c x then Some 0
      else option_map Z.succ (index_of c rest)
  end.

Definition decodeChar (c : ascii) : option Z := index_of c alphabet.

Definition equalsSign : ascii := "="%char.

(** ASCII whitespace: TAB, LF, FF, CR and SPACE. *)
Definition isWhitespace (c : ascii) : bool :=
  let n := nat_of_ascii c in
  (n =? 9)%nat || (n =? 10)%nat || (n =? 12)%nat || (n =? 13)%nat
  || (n =? 32)%nat.

(** [String.fromCharCode] over a byte array, and [charCodeAt] over a
    binary string. *)
Definition fromCharCodes (bytes : list Z) : string :=
  string_of_list_ascii (map (fun b => ascii_of_N (Z.to_N b)) bytes).

Definition charCodes (binary : string) : list Z :=
  map (fun c => Z.of_N (N_of_ascii c)) (list_ascii_of_string binary).

(** The 6-bit groups of a byte sequence, three bytes at a time; the last
    group of one or two bytes is filled with zero bits. *)
Fixpoint sextets (bytes : list Z) : list Z :=
  match bytes with
  | [] => []
  | [a] => [a / 4; (a mod 4) * 16]
  | [a; b] => [a / 4; (a mod 4) * 16 + b / 16; (b mod 16) * 4]
  | a :: b :: c :: rest =>
      [a / 4; (a mod 4) * 16 + b / 16; (b mod 16) * 4 + c / 64; c mod 64]
        ++ sextets rest
  end.

Fixpoint padding (bytes : list Z) : list ascii :=
  match bytes with
  | [] => []
  | [_] => [equalsSign; equalsSign]
  | [_; _] => [equalsSign]
  | _ :: _ :: _ :: rest => padding rest
  end.

Definition btoa (binary : string) : string :=
  let bytes := charCodes binary in
  string_of_list_ascii (map encodeSextet (sextets bytes) ++ padding bytes).

(** One or two [=] at the end are removed. *)
Definition strip_padding (data : list ascii) : list ascii :=
  match rev data with
  | x :: y :: rest =>
      if Ascii.eqb x equalsSign then
        if Ascii.eqb y equalsSign then rev rest else rev (y :: rest)
      else data
  | [x] => if Ascii.eqb x equalsSign then [] else data
  | [] => data
  end.

Fixpoint decodeChars (data : list ascii) : option (list Z) :=
  match data with
  | [] => Some []
  | c :: rest =>
      match decodeChar c, decodeChars rest with
      | Some n, Some l => Some (n :: l)
      | _, _ => None
      end
  end.

(** Bytes out of 6-bit groups, four groups at a time; of a last group of
    two or three, the bits that do not fill a byte are discarded. *)
Fixpoint bytesOfSextets (l : list Z) : list Z :=
  match l with
  | a :: b :: c :: d :: rest =>
      [a * 4 + b / 16; (b mod 16) * 16 + c / 4; (c mod 4) * 64 + d]
        ++ bytesOfSextets rest
  | [a; b; c] => [a * 4 + b / 16; (b mod 16) * 16 + c / 4]
  | [a; b] => [a * 4 + b / 16]
  | _ => []
  end.

(** [atob]: [None] is its [InvalidCharacterError]. *)
Definition atob (data : string) : option string :=
  let data := filter (fun c => negb (isWhitespace c))
                (list_ascii_of_string data) in
  let data := if (List.length data mod 4 =? 0)%nat
              then strip_padding data else data in
  if (List.length data mod 4 =? 1)%nat then None
  else
    match decodeChars data with
    | None => None
    | Some l => Some (fromCharCodes (bytesOfSextets l))
    end.

(** [base64ToUint8Array(base64)]: [None] when [atob] throws. *)
Definition base64ToUint8Array (base64 : string) : option Audio.ArrayBuffer :=
  match atob base64 with
  | None => None
  | Some binaryString => Some (charCodes binaryString)
  end.

(** [arrayBufferToBase64(buffer)] *)
Definition arrayBufferToBase64 (buffer : Audio.ArrayBuffer) : string :=
  let binary := fromCharCodes buffer in
  btoa binary.

End Base64.

(* ------------------------------------------------------------------ *)
(** ** A service that holds nothing

    No context, stream or node is held, the flag is down and no session
    is in progress: the state of a new service, and the state a complete
    teardown leaves. *)

Definition statusChangesOf (trace : list Effect) : list bool :=
  flat_map (fun e => match e with StatusChange b => [b] | _ => [] end) trace.

Definition script_released (st : Script.Session) : Prop :=
  Script.inputAudioContext st = None
  /\ Script.outputAudioContext st = None
  /\ Script.mediaStream st = false
  /\ Script.processor st = false
  /\ Script.source st = false
  /\ Script.isConnected st = false
  /\ Script.sessionPromise st = None.

Definition worklet_released (st : Worklet.Session) : Prop :=
  Worklet.inputAudioContext st = None
  /\ Worklet.outputAudioContext st = None
  /\ Worklet.mediaStream st = false
  /\ Worklet.workletNode st = false
  /\ Worklet.source st = false
  /\ Worklet.isConnected st = false
  /\ Worklet.currentSession st = None.

(** The resources of a list other than the transport. *)
Definition local_resources (l : list Resource) : list Resource :=
  filter (fun r => match r with Transport => false | _ => true end) l.

(* ------------------------------------------------------------------ *)
(** ** The playback schedule

    What [source.start(when)] has been asked to play: for each block its
    start and its end, [when + buffer.duration]. *)

Definition scheduleOf (trace : list Effect) : list (Q * Q) :=
  flat_map (fun e => match e with
                     | Start when buffer =>
                         [(when, (when + Audio.duration buffer)%Q)]
                     | _ => []
                     end) trace.

(** Blocks that play one after the other from [from] on: none starts
    before the one before it has ended.  [endOf] is the end of the last
    one. *)
Fixpoint sequential (from : Q) (blocks : list (Q * Q)) : Prop :=
  match blocks with
  | [] => True
  | (start, stop) :: rest =>
      (from <= start)%Q /\ (start <= stop)%Q /\ sequential stop rest
  end.

Fixpoint endOf (from : Q) (blocks : list (Q * Q)) : Q :=
  match blocks with
  | [] => from
  | (_, stop) :: rest => endOf stop rest
  end.

(** One delivery leaves cursor and schedule as they were, or appends one
    block that starts at the later of the clock and the cursor and moves
    the cursor to its end. *)
Definition playback_step (cursor : Q) (blocks : list (Q * Q))
  (cursor' : Q) (blocks' : list (Q * Q)) : Prop :=
  (cursor' = cursor /\ blocks' = blocks)
  \/ exists now d : Q,
       (0 <= d)%Q
       /\ blocks' = blocks ++ [(Qmax now cursor, (Qmax now cursor + d)%Q)]
       /\ cursor' = (Qmax now cursor + d)%Q.

(* ------------------------------------------------------------------ *)
(** ** src/unnamed/part_001: the [Visualizer] component

    One call of [render]: the rectangles passed to [ctx.roundRect], for
    given props and a given reading [time] of [Date.now() / 100].  The
    arithmetic is that of the real numbers; [volume] is a finite
    number. *)

Module Visualizer.

Local Open Scope R_scope.

Definition canvas_width : R := 300.
Definition canvas_height : R := 150.

Definition bars : nat := 5.
Definition spacing : R := 10.
Definition barWidth : R := 15.

Definition startX : R :=
  (canvas_width - (INR bars * barWidth + (INR bars - 1) * spacing)) / 2.
Definition centerY : R := canvas_height / 2.

Record Rect : Type := { x : R; y : R; w : R; h : R }.

(** The idle state: a flat bar. *)
Definition idleBar (i : nat) : Rect :=
  {| x := startX + INR i * (barWidth + spacing);
     y := centerY - 2;
     w := barWidth;
     h := 4 |}.

Definition barHeight (volume time : R) (i : nat) : R :=
  let offset := sin (time + INR i) in
  let heightMultiplier := Rmax 0.2 (volume / 50) * (1 + offset * 0.3) in
  Rmin 100 (20 * heightMultiplier).

Definition activeBar (volume time : R) (i : nat) : Rect :=
  let h := barHeight volume time i in
  {| x := startX + INR i * (barWidth + spacing);
     y := centerY - h / 2;
     w := barWidth;
     h := h |}.

Definition render (isActive : bool) (volume time : R) : list Rect :=
  map (fun i => if isActive then activeBar volume time i else idleBar i)
    (seq 0 bars).

(** A rectangle of positive size that lies on the canvas. *)
Definition onCanvas (r : Rect) : Prop :=
  0 <= x r /\ x r + w r <= canvas_width
  /\ 0 <= y r /\ y r + h r <= canvas_height
  /\ 0 < w r /\ 0 < h r.

(** Rectangles side by side from left to right, none touching the next. *)
Fixpoint apart (l : list Rect) : Prop :=
  match l with
  | a :: (b :: _) as rest => x a + w a < x b /\ apart rest
  | _ => True
  end.

End Visualizer.

(* ------------------------------------------------------------------ *)
(** ** src/App.tsx: the [App] component

    Its state, the three callbacks it hands to the service, and the
    handler of the connect button.  What the handler asks of the service
    is returned as a [Request]. *)

Module App.

Record State : Type := {
  connectionState : ConnectionState;
  logs : list LogEntry;
  volume : Loudness;
  hasApiKey : bool
}.

Definition addLog (log : LogEntry) (s : State) : State :=
  {| connectionState := connectionState s;
     logs := logs s ++ [log];
     volume := volume s;
     hasApiKey := hasApiKey s |}.

Definition setConnectionState (c : ConnectionState) (s : State) : State :=
  {| connectionState := c;
     logs := logs s;
     volume := volume s;
     hasApiKey := hasApiKey s |}.

Definition setVolume (v : Loudness) (s : State) : State :=
  {| connectionState := connectionState s;
     logs := logs s;
     volume := v;
     hasApiKey := hasApiKey s |}.

(** The state after the mount effect has run, for the value of
    [process.env.API_KEY || ''] . *)
Definition mounted (apiKey : string) : State :=
  let s := {| connectionState := DISCONNECTED;
              logs := [];
              volume := RmsTimes100 0;
              hasApiKey := false |} in
  if String.eqb apiKey EmptyString then
    addLog {| type := system;
              message := "API_KEY not found in environment. Please set process.env.API_KEY." |}
      s
  else
    {| connectionState := DISCONNECTED;
       logs := [];
       volume := RmsTimes100 0;
       hasApiKey := true |}.

(** The callbacks given to [new LiveService(...)]: [onStatusChange],
    [addLog] and [setVolume]; the other effects of the service do not
    reach the component. *)
Definition callback (s : State) (e : Effect) : State :=
  match e with
  | StatusChange isConnected =>
      setConnectionState (if isConnected then CONNECTED else DISCONNECTED) s
  | Log entry => addLog entry s
  | Volume v => setVolume v s
  | _ => s
  end.

Definition callbacks (effects : list Effect) (s : State) : State :=
  fold_left callback effects s.

Inductive Request : Type := CallConnect | CallDisconnect | NoCall.

Definition handleConnectToggle (s : State) : State * Request :=
  if negb (hasApiKey s) then
    (addLog {| type := system;
               message := "Cannot connect: API Key is missing." |} s,
     NoCall)
  else
    match connectionState s with
    | DISCONNECTED => (setConnectionState CONNECTING s, CallConnect)
    | _ => (s, CallDisconnect)
    end.

(** The [disabled] attribute of the button. *)
Definition buttonDisabled (s : State) : bool :=
  match connectionState s with
  | CONNECTING => true
  | _ => negb (hasApiKey s)
  end.

(** A click reaches the handler only while the button is enabled. *)
Definition click (s : State) : State * Request :=
  if buttonDisabled s then (s, NoCall) else handleConnectToggle s.

(** What happens to the component: a click, or the callbacks of the
    service for the effects it has produced. *)
Inductive Event : Type :=
| Click
| Service (effects : list Effect).

Definition step (s : State) (ev : Event) : State :=
  match ev with
  | Click => fst (click s)
  | Service effects => callbacks effects s
  end.

Definition run (evs : list Event) (s : State) : State := fold_left step evs s.

End App.

(* ------------------------------------------------------------------ *)
(** ** [disconnect()] cut at its awaits

    [Script.disconnect] and [Worklet.disconnect] run a call to its end as
    if nothing were delivered while it waits.  Below, a call of
    [disconnect()] runs to its first [await] and is parked there; what is
    delivered meanwhile runs on the service as the call has left it, and
    [Resume k] lets the [k]-th parked call go on, to its next [await] or
    to its end.  The segments of [connect()] are the functions of the
    services' modules, each delivered as a step of its own. *)

Module ScriptSteps.
Import Script.

(** Where a call of [disconnect()] waits: for [inputAudioContext.close()],
    for [outputAudioContext.close()], or for the session promise. *)
Inductive Await : Type := InputClosed | OutputClosed | SessionSettled.

Record Machine : Type := {
  service : Session;
  parked : list Await
}.

(** The last statements of [disconnect()]. *)
Definition finish (st : Session) : Session :=
  let st := set_isConnected false st in
  let st := emit (StatusChange false) st in
  let st := onLog system "Disconnected." st in
  set_sessionPromise None st.

(** [if (this.sessionPromise) { try { await this.sessionPromise } catch {} }]
    and what follows. *)
Definition from_session (st : Session) : Session * option Await :=
  match sessionPromise st with
  | Some _ => (st, Some SessionSettled)
  | None => (finish st, None)
  end.

(** [if (this.outputAudioContext && state !== 'closed') { await close() ... }]
    and what follows. *)
Definition from_output (st : Session) : Session * option Await :=
  match outputAudioContext st with
  | Some closed => from_session st
  | Some _ => (emit (Release OutputContext) st, Some OutputClosed)
  | None => from_session st
  end.

Definition from_input (st : Session) : Session * option Await :=
  match inputAudioContext st with
  | Some closed => from_output st
  | Some _ => (emit (Release InputContext) st, Some InputClosed)
  | None => from_output st
  end.

(** [disconnect()] is called: the guard, the audio nodes, and on to the
    first [await]. *)
Definition call (st : Session) : Session * option Await :=
  let (st1, teardown) := disconnect_begin st in
  if teardown then from_input st1 else (st1, None).

(** A parked call goes on.  At the session promise it goes on once the
    promise has settled, after the callbacks registered on it. *)
Definition resume (a : Await) (st : Session) : Session * option Await :=
  match a with
  | InputClosed => from_output (set_inputAudioContext None st)
  | OutputClosed => from_session (set_outputAudioContext None st)
  | SessionSettled => (finish (settle st), None)
  end.

(** What can happen to the service: a delivery ([Disconnect] being a call
    of [disconnect()] that nothing interrupts), a segment of [connect()],
    a call of [disconnect()], or a parked call going on. *)
Inductive Step : Type :=
| Deliver (ev : Event)
| ConnectBegin
| ConnectMedia (media : unit + JsError) (live : LiveSession + JsError)
| ConnectSettled
| DisconnectCall
| Resume (k : nat).

Definition park (r : Session * option Await) (rest : list Await) : Machine :=
  {| service := fst r;
     parked := match snd r with
               | Some a => rest ++ [a]
               | None => rest
               end |}.

Definition advance (m : Machine) (step : Step) : Machine :=
  match step with
  | Deliver ev =>
      {| service := deliver (service m) ev; parked := parked m |}
  | ConnectBegin =>
      {| service := fst (connect_begin (service m)); parked := parked m |}
  | ConnectMedia media live =>
      {| service := connect_gotMedia media live (service m);
         parked := parked m |}
  | ConnectSettled =>
      {| service := connect_settled (service m); parked := parked m |}
  | DisconnectCall => park (call (service m)) (parked m)
  | Resume k =>
      match nth_error (parked m) k with
      | Some a => park (resume a (service m)) (remove_nth k (parked m))
      | None => m
      end
  end.

Definition run (steps : list Step) (m : Machine) : Machine :=
  fold_left advance steps m.

(** A service on which no call is parked. *)
Definition idle (st : Session) : Machine := {| service := st; parked := [] |}.

End ScriptSteps.

Module WorkletSteps.
Import Worklet.

(** Where a call of [disconnect()] waits. *)
Inductive Await : Type := InputClosed | OutputClosed.

Record Machine : Type := {
  service : Session;
  parked : list Await
}.

(** The last statements of [disconnect()]. *)
Definition finish (st : Session) : Session :=
  let st := set_inputAudioContext None st in
  let st := set_outputAudioContext None st in
  onLog system "Disconnected." st.

(** [if (this.outputAudioContext) await this.outputAudioContext.close()]
    and what follows.  [close()] of a closed context rejects: the call
    ends there. *)
Definition from_output (st : Session) : Session * option Await :=
  match outputAudioContext st with
  | Some closed => (st, None)
  | Some _ => (emit (Release OutputContext) st, Some OutputClosed)
  | None => (finish st, None)
  end.

Definition from_input (st : Session) : Session * option Await :=
  match inputAudioContext st with
  | Some closed => (st, None)
  | Some _ => (emit (Release InputContext) st, Some InputClosed)
  | None => from_output st
  end.

(** [disconnect()] is called: the flag, the session, the status, the
    audio nodes, and on to the first [await]. *)
Definition call (st : Session) : Session * option Await :=
  let st := set_isConnected false st in
  let st := set_currentSession None st in
  let st := emit (StatusChange false) st in
  let st := if workletNode st
            then set_workletNode false (emit (Release CaptureNode) st)
            else st in
  let st := if source st
            then set_source false (emit (Release SourceNode) st)
            else st in
  let st := if mediaStream st
            then set_mediaStream false (emit (Release Microphone) st)
            else st in
  from_input st.

(** A parked call goes on: the context it waited for has closed. *)
Definition resume (a : Await) (st : Session) : Session * option Await :=
  match a with
  | InputClosed => from_output (set_inputAudioContext (Some closed) st)
  | OutputClosed => (finish (set_outputAudioContext (Some closed) st), None)
  end.

Inductive Step : Type :=
| Deliver (ev : Event)
| ConnectBegin (env : ConnectEnv)
| ConnectFinish (live : LiveSession + JsError)
| DisconnectCall
| Resume (k : nat).

Definition park (r : Session * option Await) (rest : list Await) : Machine :=
  {| service := fst r;
     parked := match snd r with
               | Some a => rest ++ [a]
               | None => rest
               end |}.

Definition advance (m : Machine) (step : Step) : Machine :=
  match step with
  | Deliver ev =>
      {| service := deliver (service m) ev; parked := parked m |}
  | ConnectBegin env =>
      {| service := fst (connect_begin env (service m));
         parked := parked m |}
  | ConnectFinish live =>
      {| service := connect_finish live (service m); parked := parked m |}
  | DisconnectCall => park (call (service m)) (parked m)
  | Resume k =>
      match nth_error (parked m) k with
      | Some a => park (resume a (service m)) (remove_nth k (parked m))
      | None => m
      end
  end.

Definition run (steps : list Step) (m : Machine) : Machine :=
  fold_left advance steps m.

Definition idle (st : Session) : Machine := {| service := st; parked := [] |}.

End WorkletSteps.



(* ================================================================== *)
(** * Properties *)

(** ** The PCM codec *)

Section Truncation.

Lemma truncate_nonneg (q : Q) :
  (0 <= q)%Q -> truncate q = Qfloor q.
Proof.
  destruct q as [n d]; unfold truncate, Qfloor, Qle; simpl.
  intros H. apply Z.quot_div_nonneg; lia.
Qed.

Lemma truncate_nonpos (q : Q) :
  (q <= 0)%Q -> truncate q = Qceiling q.
Proof.
  destruct q as [n d]; unfold truncate, Qceiling, Qfloor, Qle; simpl.
  intros H.
  replace n with (- (- n)) at 1 by lia.
  rewrite Z.quot_opp_l by lia.
  f_equal. apply Z.quot_div_nonneg; lia.
Qed.

Lemma truncate_floor_bounds (q : Q) :
  (0 <= q)%Q ->
  (inject_Z (truncate q) <= q /\ q < inject_Z (truncate q) + 1)%Q.
Proof.
  intros H. rewrite (truncate_nonneg q H). split.
  - apply Qfloor_le.
  - pose proof (Qlt_floor q) as L.
    rewrite inject_Z_plus in L. exact L.
Qed.

Lemma truncate_ceiling_bounds (q : Q) :
  (q <= 0)%Q ->
  (inject_Z (truncate q) - 1 < q /\ q <= inject_Z (truncate q))%Q.
Proof.
  intros H. rewrite (truncate_nonpos q H). split.
  - pose proof (Qceiling_lt q) as L.
    unfold Z.sub in L. rewrite inject_Z_plus in L.
    unfold Qminus. exact L.
  - apply Qle_ceiling.
Qed.

Lemma inject_Z_le_inv (a b : Z) : (inject_Z a <= inject_Z b)%Q -> a <= b.
Proof. intros H. now rewrite Zle_Qle. Qed.

Lemma inject_Z_lt_inv (a b : Z) : (inject_Z a < inject_Z b)%Q -> a < b.
Proof. intros H. now rewrite Zlt_Qlt. Qed.

(** Truncation keeps a value inside an interval with integer ends. *)
Lemma truncate_between (q : Q) (lo hi : Z) :
  lo <= 0 <= hi ->
  (inject_Z lo <= q <= inject_Z hi)%Q ->
  lo <= truncate q <= hi.
Proof.
  intros Hz [Hlo Hhi].
  destruct (Qlt_le_dec q 0) as [Hneg | Hpos].
  - destruct (truncate_ceiling_bounds q (Qlt_le_weak _ _ Hneg)) as [A B].
    split.
    + apply inject_Z_le_inv. lra.
    + assert (inject_Z (truncate q) < inject_Z 1)%Q as C
        by (change (inject_Z 1) with 1%Q; lra).
      apply inject_Z_lt_inv in C. lia.
  - destruct (truncate_floor_bounds q Hpos) as [A B].
    split.
    + assert (inject_Z (-1) < inject_Z (truncate q))%Q as C
        by (change (inject_Z (-1)) with (-1)%Q; lra).
      apply inject_Z_lt_inv in C. lia.
    + apply inject_Z_le_inv. lra.
Qed.

End Truncation.

Section Codec.
Import Audio.

Lemma truncate_proper (p q : Q) : (p == q)%Q -> truncate p = truncate q.
Proof.
  intros E. destruct (Qlt_le_dec p 0) as [Hn | Hp].
  - rewrite (truncate_nonpos p), (truncate_nonpos q) by lra.
    now rewrite E.
  - rewrite (truncate_nonneg p), (truncate_nonneg q) by lra.
    now rewrite E.
Qed.

Lemma ToInt16_range (v : number) : -32768 <= ToInt16 v <= 32767.
Proof.
  destruct v as [q | | |]; simpl; try lia.
  pose proof (Z.mod_pos_bound (truncate q) 65536 ltac:(lia)).
  destruct (32768 <=? truncate q mod 65536) eqn:E;
    [apply Z.leb_le in E | apply Z.leb_gt in E]; lia.
Qed.

Lemma ToInt16_no_wrap (q : Q) :
  -32768 <= truncate q <= 32767 -> ToInt16 (Fin q) = truncate q.
Proof.
  intros H. simpl.
  destruct (Z_lt_le_dec (truncate q) 0) as [Hn | Hp].
  - assert (truncate q mod 65536 = truncate q + 65536) as ->.
    { symmetry. apply (Z.mod_unique_pos _ _ (-1)); lia. }
    destruct (32768 <=? truncate q + 65536) eqn:E;
      [apply Z.leb_le in E | apply Z.leb_gt in E]; lia.
  - rewrite Z.mod_small by lia.
    destruct (32768 <=? truncate q) eqn:E;
      [apply Z.leb_le in E | apply Z.leb_gt in E]; lia.
Qed.

Lemma Qle_bool_false (x y : Q) : Qle_bool x y = false -> (y < x)%Q.
Proof.
  intros H. apply Qnot_le_lt. intros L.
  apply Qle_bool_iff in L. congruence.
Qed.

(** The stored 16-bit value is the clamped and scaled sample: the
    modular step of [ToInt16] never fires. *)
Lemma ToInt16_scaled (x : number) :
  ToInt16 (scaled x) = clamped_sample x.
Proof.
  destruct x as [q | | |]; try reflexivity.
  unfold scaled, clamped_sample. simpl Math_min.
  destruct (Qle_bool 1 q) eqn:E1.
  - apply Qle_bool_iff in E1.
    destruct (Qlt_le_dec q (-1)) as [A | A]; [lra |].
    destruct (Qlt_le_dec 1 q) as [B | B]; [reflexivity |].
    destruct (Qlt_le_dec q 0) as [C | C]; [lra |].
    transitivity (truncate (1 * inject_Z 32767)); [reflexivity |].
    apply truncate_proper.
    change (inject_Z 32767) with 32767%Q.
    assert (q == 1)%Q as -> by lra. reflexivity.
  - apply Qle_bool_false in E1. simpl Math_max.
    destruct (Qle_bool (-1) q) eqn:E2.
    + apply Qle_bool_iff in E2.
      destruct (Qlt_le_dec q (-1)) as [A | A]; [lra |].
      destruct (Qlt_le_dec 1 q) as [B | B]; [lra |].
      unfold lt_zero.
      destruct (Qle_bool 0 q) eqn:E3; simpl negb; cbv iota.
      * apply Qle_bool_iff in E3.
        assert (-32768 <= truncate (q * inject_Z 32767) <= 32767) as R.
        { apply truncate_between; [lia |].
          change (inject_Z 32767) with 32767%Q.
          change (inject_Z (-32768)) with (-32768)%Q. split; nra. }
        unfold mul_const. rewrite (ToInt16_no_wrap _ R).
        destruct (Qlt_le_dec q 0) as [C | C]; [lra | reflexivity].
      * apply Qle_bool_false in E3.
        assert (-32768 <= truncate (q * inject_Z 32768) <= 32767) as R.
        { assert (-32768 <= truncate (q * inject_Z 32768) <= 0) as R0.
          { apply truncate_between; [lia |].
            change (inject_Z 32768) with 32768%Q.
            change (inject_Z (-32768)) with (-32768)%Q.
            change (inject_Z 0) with 0%Q. split; nra. }
          lia. }
        unfold mul_const. rewrite (ToInt16_no_wrap _ R).
        destruct (Qlt_le_dec q 0) as [C | C]; [reflexivity | lra].
    + apply Qle_bool_false in E2.
      destruct (Qlt_le_dec q (-1)) as [A | A]; [reflexivity | lra].
Qed.

Lemma clamped_sample_range (x : number) :
  -32768 <= clamped_sample x <= 32767.
Proof. rewrite <- ToInt16_scaled. apply ToInt16_range. Qed.

Lemma land_255 (w : Z) : Z.land w 255 = w mod 256.
Proof. change 255 with (Z.ones 8). now rewrite Z.land_ones by lia. Qed.

Lemma int16_bytes_roundtrip (w : Z) :
  -32768 <= w <= 32767 ->
  int16_of_bytes (Z.land w 255) (Z.land (Z.shiftr w 8) 255) = w.
Proof.
  intros H. rewrite !land_255, Z.shiftr_div_pow2 by lia.
  change (2 ^ 8) with 256. unfold int16_of_bytes.
  pose proof (Z.div_mod w 256 ltac:(lia)) as D.
  pose proof (Z.mod_pos_bound w 256 ltac:(lia)) as M.
  destruct (Z_lt_le_dec w 0) as [Hn | Hp].
  - assert ((w / 256) mod 256 = w / 256 + 256) as ->.
    { symmetry. apply (Z.mod_unique_pos _ _ (-1)); lia. }
    destruct (32768 <=? w mod 256 + 256 * (w / 256 + 256)) eqn:E;
      [apply Z.leb_le in E | apply Z.leb_gt in E]; lia.
  - rewrite (Z.mod_small (w / 256)) by lia.
    destruct (32768 <=? w mod 256 + 256 * (w / 256)) eqn:E;
      [apply Z.leb_le in E | apply Z.leb_gt in E]; lia.
Qed.

Lemma setInt16_le_bytes (val : number) :
  Forall (fun b => 0 <= b <= 255) (setInt16_le val).
Proof.
  unfold setInt16_le. repeat constructor; rewrite land_255;
    match goal with |- context [?a mod 256] =>
      pose proof (Z.mod_pos_bound a 256 ltac:(lia)) end; lia.
Qed.

Lemma Int16Array_float32ToInt16PCM (data : list number) :
  Int16Array (float32ToInt16PCM data) = Some (map clamped_sample data).
Proof.
  induction data as [| x rest IH]; [reflexivity |].
  cbn [float32ToInt16PCM setInt16_le app Int16Array map].
  rewrite IH. f_equal. f_equal.
  rewrite int16_bytes_roundtrip by apply ToInt16_range.
  apply ToInt16_scaled.
Qed.

Lemma float32ToInt16PCM_length (data : list number) :
  List.length (float32ToInt16PCM data) = (2 * List.length data)%nat.
Proof.
  induction data as [| x rest IH]; [reflexivity |].
  cbn [float32ToInt16PCM setInt16_le app List.length]. rewrite IH. lia.
Qed.

Lemma float32ToInt16PCM_typed_eq (data : list number) :
  float32ToInt16PCM_typed data = float32ToInt16PCM data.
Proof.
  unfold float32ToInt16PCM_typed.
  induction data as [| x rest IH]; [reflexivity |].
  cbn [map flat_map float32ToInt16PCM]. now rewrite IH.
Qed.

End Codec.

(** C10.  [float32ToInt16PCM] returns, for every input array (samples
    beyond [-1, 1], infinities and NaN included), a buffer of exactly two
    bytes per sample; read back as 16-bit integers it holds the clamped and
    scaled samples, each within -32768..32767, so the 16-bit store never
    wraps.  The [Int16Array] copy of the function returns the same buffer. *)
Theorem float32ToInt16PCM_total_overflow_safe (float32Data : list number) :
  List.length (Audio.float32ToInt16PCM float32Data)
    = (2 * List.length float32Data)%nat
  /\ Forall (fun b => 0 <= b <= 255) (Audio.float32ToInt16PCM float32Data)
  /\ Audio.Int16Array (Audio.float32ToInt16PCM float32Data)
       = Some (map Audio.clamped_sample float32Data)
  /\ Forall (fun w => -32768 <= w <= 32767)
       (map Audio.clamped_sample float32Data)
  /\ Audio.float32ToInt16PCM_typed float32Data
       = Audio.float32ToInt16PCM float32Data.
Proof.
  repeat split.
  - apply float32ToInt16PCM_length.
  - induction float32Data as [| x rest IH]; [constructor |].
    cbn [Audio.float32ToInt16PCM]. apply Forall_app. split; [| exact IH].
    apply setInt16_le_bytes.
  - apply Int16Array_float32ToInt16PCM.
  - apply Forall_forall. intros w Hw. apply in_map_iff in Hw.
    destruct Hw as [x [<- _]]. apply clamped_sample_range.
  - apply float32ToInt16PCM_typed_eq.
Qed.

Section RoundTrip.
Import Audio.

Lemma roundtrip_value (s : Q) :
  roundtrip s = Some [(inject_Z (clamped_sample (Fin s)) / 32768)%Q].
Proof.
  unfold roundtrip, pcmToAudioBuffer.
  rewrite Int16Array_float32ToInt16PCM. reflexivity.
Qed.

Lemma clamped_sample_inside (s : Q) :
  (-1 <= s <= 1)%Q ->
  clamped_sample (Fin s)
    = if Qlt_le_dec s 0 then truncate (s * 32768) else truncate (s * 32767).
Proof.
  intros [A B]. unfold clamped_sample.
  destruct (Qlt_le_dec s (-1)); [lra |].
  destruct (Qlt_le_dec 1 s) as [C | C]; [lra |]. reflexivity.
Qed.

End RoundTrip.

(** C3 (as amended).  1.0 encodes to 32767 and -1.0 to -32768; and for
    every sample s in [-1, 1] the decoded value d of its encoding satisfies
    0 <= d - s < 1/32768 when s is negative and
    0 <= s - d < (1 + s)/32768 otherwise: always less than two quantization
    steps away. *)
Theorem pcm_roundtrip_two_steps :
  Audio.Int16Array (Audio.float32ToInt16PCM [Fin 1]) = Some [32767]
  /\ Audio.Int16Array (Audio.float32ToInt16PCM [Fin (-1)]) = Some [-32768]
  /\ forall s : Q, (-1 <= s <= 1)%Q ->
       exists d : Q,
         Audio.roundtrip s = Some [d]
         /\ (s < 0 -> 0 <= d - s /\ d - s < 1 # 32768)%Q
         /\ (0 <= s -> 0 <= s - d /\ s - d < (1 + s) / 32768)%Q
         /\ (Qabs (s - d) < 2 # 32768)%Q.
Proof.
  split; [reflexivity |]. split; [reflexivity |].
  intros s Hs. eexists. split; [apply roundtrip_value |].
  rewrite (clamped_sample_inside s Hs).
  destruct (Qlt_le_dec s 0) as [Hn | Hp].
  - destruct (truncate_ceiling_bounds (s * 32768)) as [A B]; [nra |].
    set (w := inject_Z (truncate (s * 32768))) in *.
    assert (0 <= w / 32768 - s /\ w / 32768 - s < 1 # 32768)%Q as [L U].
    { split.
      - apply Qle_minus_iff. setoid_replace (w / 32768 - s + - 0)%Q
          with ((w - s * 32768) / 32768)%Q by field.
        apply Qle_shift_div_l; lra.
      - apply Qlt_minus_iff. setoid_replace ((1 # 32768) + - (w / 32768 - s))%Q
          with ((1 + s * 32768 - w) / 32768)%Q by field.
        apply Qlt_shift_div_l; lra. }
    repeat split; try lra.
    apply Qabs_case; intros; lra.
  - destruct (truncate_floor_bounds (s * 32767)) as [A B]; [nra |].
    set (w := inject_Z (truncate (s * 32767))) in *.
    assert (0 <= s - w / 32768 /\ s - w / 32768 < (1 + s) / 32768)%Q
      as [L U].
    { split.
      - apply Qle_minus_iff. setoid_replace (s - w / 32768 + - 0)%Q
          with ((s * 32768 - w) / 32768)%Q by field.
        apply Qle_shift_div_l; lra.
      - apply Qlt_minus_iff.
        setoid_replace ((1 + s) / 32768 + - (s - w / 32768))%Q
          with ((1 + w - s * 32767) / 32768)%Q by field.
        apply Qlt_shift_div_l; lra. }
    assert ((1 + s) / 32768 <= 2 # 32768)%Q as T.
    { apply Qle_shift_div_r; lra. }
    repeat split; try lra.
    apply Qabs_case; intros; lra.
Qed.

(** Witness for C3: the sample 0.5. *)
Lemma pcm_roundtrip_two_steps_witness :
  exists d : Q,
    Audio.roundtrip (1 # 2) = Some [d] /\ (Qabs ((1 # 2) - d) < 2 # 32768)%Q.
Proof.
  destruct pcm_roundtrip_two_steps as [_ [_ H]].
  destruct (H (1 # 2)) as [d [E [_ [_ B]]]].
  - split; [discriminate | discriminate].
  - exists d. split; [exact E | exact B].
Defined.

(** C3, counterexample to the bound of one quantization step: the
    binary32 sample 65535/65536 encodes to 32766, which decodes to
    32766/32768, one and a half steps below the sample. *)
Lemma pcm_roundtrip_one_step_fails :
  ~ (forall s : Q, (-1 <= s <= 1)%Q ->
       exists d : Q,
         Audio.roundtrip s = Some [d] /\ (Qabs (s - d) <= 1 # 32768)%Q).
Proof.
  intros H.
  destruct (H (binary32 65535 (-16))) as [d [E B]].
  - split; discriminate.
  - vm_compute in E. injection E as <-.
    vm_compute in B. apply B. reflexivity.
Qed.

(** ** Projections of a trace *)

Lemma sentOf_app (a b : list Effect) : sentOf (a ++ b) = sentOf a ++ sentOf b.
Proof. unfold sentOf. now rewrite flat_map_app. Qed.

Lemma logOf_app (a b : list Effect) : logOf (a ++ b) = logOf a ++ logOf b.
Proof. unfold logOf. now rewrite flat_map_app. Qed.

Lemma consoleOf_app (a b : list Effect) :
  consoleOf (a ++ b) = consoleOf a ++ consoleOf b.
Proof. unfold consoleOf. now rewrite flat_map_app. Qed.

Lemma startsOf_app (a b : list Effect) :
  startsOf (a ++ b) = startsOf a ++ startsOf b.
Proof. unfold startsOf. now rewrite flat_map_app. Qed.

Lemma toolResponsesOf_app (a b : list Effect) :
  toolResponsesOf (a ++ b) = toolResponsesOf a ++ toolResponsesOf b.
Proof. unfold toolResponsesOf. now rewrite flat_map_app. Qed.

Lemma volumesOf_app (a b : list Effect) :
  volumesOf (a ++ b) = volumesOf a ++ volumesOf b.
Proof. unfold volumesOf. now rewrite flat_map_app. Qed.

Lemma audioBlocksOf_app (a b : list Effect) :
  audioBlocksOf (a ++ b) = audioBlocksOf a ++ audioBlocksOf b.
Proof. unfold audioBlocksOf. now rewrite flat_map_app. Qed.

Lemma releasesOf_app (a b : list Effect) :
  releasesOf (a ++ b) = releasesOf a ++ releasesOf b.
Proof. unfold releasesOf. now rewrite flat_map_app. Qed.

(** ** Correlation of calls and answers, for any service *)

Section Correlation.

Variables (State Ev : Type).
Variable step : State -> Ev -> State.
Variable responses : State -> list FunctionResponse.
Variable parked : State -> list FunctionCall.
Variable arrive : Ev -> list FunctionCall.
Variable reply : FunctionCall -> FunctionResponse.
Variable ok : State -> Prop.
Variable allowed : Ev -> Prop.

(** Each step keeps the books: what was answered plus what is still
    owed grows by the calls that arrive. *)
Hypothesis step_books :
  forall st ev, ok st -> allowed ev ->
    ok (step st ev)
    /\ Permutation
         (responses (step st ev) ++ map reply (parked (step st ev)))
         ((responses st ++ map reply (parked st)) ++ map reply (arrive ev)).


(** Draining: if firing [fire] always makes progress on a measure that
    is zero exactly when nothing is parked, then firing it often enough
    leaves nothing parked. *)
Variable fire : Ev.
Variable measure : State -> nat.

Hypothesis fire_progress :
  forall st, ok st -> (0 < measure st)%nat ->
    ok (step st fire) /\ (measure (step st fire) < measure st)%nat.


End Correlation.

(** ** Loudness *)

Section LoudnessFacts.

Lemma fold_squares_bound (data : list Q) :
  Forall (fun x => -1 <= x <= 1)%Q data ->
  forall acc : Q,
    (acc <= fold_left (fun sum x => sum + x * x) data acc
     /\ fold_left (fun sum x => sum + x * x) data acc
        <= acc + inject_Z (Z.of_nat (List.length data)))%Q.
Proof.
  induction 1 as [| x rest Hx Hrest IH]; intros acc.
  - cbn [fold_left List.length Z.of_nat]. change (inject_Z 0) with 0%Q.
    split; lra.
  - cbn [fold_left List.length]. destruct (IH (acc + x * x)%Q) as [A B].
    rewrite Nat2Z.inj_succ. unfold Z.succ. rewrite inject_Z_plus.
    change (inject_Z 1) with 1%Q.
    assert (0 <= x * x /\ x * x <= 1)%Q as [C D] by (split; nra).
    split; lra.
Qed.

Lemma sumSquares_bound (data : list Q) :
  Forall (fun x => -1 <= x <= 1)%Q data ->
  (0 <= sumSquares data
   /\ sumSquares data <= inject_Z (Z.of_nat (List.length data)))%Q.
Proof.
  intros H. destruct (fold_squares_bound data H 0) as [A B].
  unfold sumSquares. split; lra.
Qed.

Lemma stride4_Forall (P : Q -> Prop) (n : nat) :
  forall data : list Q,
    (List.length data <= n)%nat -> Forall P data -> Forall P (stride4 data).
Proof.
  induction n as [| n IH]; intros data Hn HP.
  - destruct data; [constructor | cbn in Hn; lia].
  - destruct data as [| a [| b [| c [| d rest]]]]; cbn [stride4];
      try (constructor; [now inversion HP | constructor]).
    + constructor.
    + constructor; [now inversion HP |]. apply IH.
      * cbn [List.length] in Hn. lia.
      * now do 4 (apply Forall_inv_tail in HP).
Qed.

Lemma stride4_length (n : nat) :
  forall data : list Q,
    List.length data = (4 * n)%nat -> List.length (stride4 data) = n.
Proof.
  induction n as [| n IH]; intros data Hn.
  - destruct data; [reflexivity | cbn in Hn; lia].
  - destruct data as [| a [| b [| c [| d rest]]]]; cbn [List.length] in Hn;
      try lia.
    cbn [stride4 List.length]. f_equal. apply IH. lia.
Qed.

(** The mean square of a block of samples in [-1, 1]. *)
Lemma mean_square_all (data : list Q) :
  Forall (fun x => -1 <= x <= 1)%Q data ->
  data <> [] ->
  (0 <= sumSquares data / inject_Z (Z.of_nat (List.length data)) <= 1)%Q.
Proof.
  intros H Hne. destruct (sumSquares_bound data H) as [A B].
  assert (0 < inject_Z (Z.of_nat (List.length data)))%Q as Hpos.
  { change 0%Q with (inject_Z 0). rewrite <- Zlt_Qlt.
    destruct data; [congruence | cbn [List.length]; lia]. }
  split.
  - apply Qle_shift_div_l; [exact Hpos | lra].
  - apply Qle_shift_div_r; [exact Hpos | lra].
Qed.

Lemma mean_square_stride (data : list Q) (n : nat) :
  Forall (fun x => -1 <= x <= 1)%Q data ->
  List.length data = (4 * n)%nat ->
  (0 < n)%nat ->
  (0 <= sumSquares (stride4 data)
        / (inject_Z (Z.of_nat (List.length data)) / 4) <= 1)%Q.
Proof.
  intros H Hlen Hn.
  pose proof (stride4_Forall _ _ data (Nat.le_refl _) H) as H4.
  destruct (sumSquares_bound _ H4) as [A B].
  rewrite (stride4_length n data Hlen) in B.
  assert (inject_Z (Z.of_nat (List.length data)) / 4
          == inject_Z (Z.of_nat n))%Q as ->.
  { rewrite Hlen, Nat2Z.inj_mul, inject_Z_mult.
    change (inject_Z (Z.of_nat 4)) with 4%Q. field. }
  assert (0 < inject_Z (Z.of_nat n))%Q as Hpos.
  { change 0%Q with (inject_Z 0). rewrite <- Zlt_Qlt. lia. }
  split.
  - apply Qle_shift_div_l; [exact Hpos | lra].
  - apply Qle_shift_div_r; [exact Hpos | lra].
Qed.

Lemma loudness_bound (meanSquare : Q) :
  (0 <= meanSquare <= 1)%Q ->
  (0 <= loudness_value (RmsTimes100 meanSquare) <= 100)%R.
Proof.
  intros [A B]. apply Qle_Rle in A, B.
  replace (Q2R 0) with 0%R in A by (unfold Q2R; cbn; lra).
  replace (Q2R 1) with 1%R in B by (unfold Q2R; cbn; lra).
  cbn [loudness_value].
  pose proof (sqrt_pos (Q2R meanSquare)) as P.
  pose proof (sqrt_le_1_alt _ _ B) as U. rewrite sqrt_1 in U.
  split; lra.
Qed.

Lemma loudness_of_one (meanSquare : Q) :
  (meanSquare == 1)%Q -> loudness_value (RmsTimes100 meanSquare) = 100%R.
Proof.
  intros E. apply Qeq_eqR in E.
  replace (Q2R 1) with 1%R in E by (unfold Q2R; cbn; lra).
  cbn [loudness_value]. rewrite E, sqrt_1. lra.
Qed.

End LoudnessFacts.

(** ** Facts about the ScriptProcessor service *)

Module ScriptFacts.
Import Script.

(** *** A disconnected session sends nothing *)







Lemma isConnected_disconnect_end (st : Session) :
  isConnected (disconnect_end st) = false
  /\ sessionPromise (disconnect_end st) = None.
Proof.
  unfold disconnect_end.
  match goal with |- context [settle ?s] => generalize (settle s) end.
  intros x. now unpack x.
Qed.





(** *** [disconnect()] a second time *)

Lemma disconnect_noop (st : Session) :
  isConnected st = false -> sessionPromise st = None -> disconnect st = st.
Proof.
  intros A B. unfold disconnect, disconnect_begin. now rewrite A, B.
Qed.

Lemma disconnect_settled_down (st : Session) :
  isConnected (disconnect st) = false
  /\ sessionPromise (disconnect st) = None.
Proof.
  unfold disconnect, disconnect_begin.
  destruct (negb (isConnected st)
            && match sessionPromise st with None => true | Some _ => false end)
    eqn:G.
  - apply andb_prop in G. destruct G as [A B].
    apply negb_true_iff in A.
    destruct (sessionPromise st); [discriminate | now split].
  - apply isConnected_disconnect_end.
Qed.

Lemma disconnect_idempotent (st : Session) :
  disconnect (disconnect st) = disconnect st.
Proof.
  destruct (disconnect_settled_down st) as [A B].
  now apply disconnect_noop.
Qed.

(** *** [connect()] and its guard *)

Lemma connect_begin_connected (st : Session) :
  isConnected st = true -> connect_begin st = (st, false).
Proof. intros H. unfold connect_begin. now rewrite H. Qed.

(** *** The playback cursor *)

Lemma duration_nonneg (pcmBytes : Audio.ArrayBuffer) (b : Audio.AudioBuffer) :
  Audio.pcmToAudioBuffer pcmBytes OUTPUT_SAMPLE_RATE = Some b ->
  (0 <= Audio.duration b)%Q.
Proof.
  unfold Audio.pcmToAudioBuffer.
  destruct (Audio.Int16Array pcmBytes) as [[| w ws] |]; try discriminate.
  intros [= <-]. unfold Audio.duration. cbn [Audio.frameCount Audio.bufferRate].
  apply Qle_shift_div_l; [reflexivity |].
  rewrite Qmult_0_l. change 0%Q with (inject_Z 0). rewrite <- Zle_Qle. lia.
Qed.

Lemma handleAudio_cursor (now : Q) (a : option Audio.ArrayBuffer)
  (st : Session) :
  (nextStartTime st <= nextStartTime (message_catch (handleAudio now a st)))%Q.
Proof.
  unfold handleAudio.
  destruct a as [[| b bs] |]; try (cbn; apply Qle_refl).
  destruct (outputAudioContext st); [| cbn; apply Qle_refl].
  destruct (Audio.pcmToAudioBuffer (b :: bs) OUTPUT_SAMPLE_RATE) as [buf |] eqn:E.
  - pose proof (duration_nonneg _ _ E) as D.
    pose proof (Q.le_max_r now (nextStartTime st)) as M.
    unpack st. cbn in *. lra.
  - unpack st. cbn. apply Qle_refl.
Qed.

Lemma then_send_cursor (m : Outbound) (st : Session) :
  nextStartTime (then_send m st) = nextStartTime st.
Proof.
  unpack st. unfold then_send, then_callback. cbn.
  destruct sp as [[r q | s | e] |]; cbn; auto.
  destruct conn; cbn; auto. now destruct (next_outcome s).
Qed.

Lemma runCalls_cursor (now : Q) (a : option Audio.ArrayBuffer)
  (calls : list FunctionCall) :
  forall st : Session,
    (nextStartTime st
       <= nextStartTime (message_catch (runCalls now calls a st)))%Q.
Proof.
  induction calls as [| fc rest IH]; intros st.
  - apply handleAudio_cursor.
  - cbn [runCalls].
    destruct (String.eqb (fc_name fc) "get_financial_profile").
    + eapply Qle_trans; [| apply IH].
      rewrite then_send_cursor. unpack st. apply Qle_refl.
    + destruct (String.eqb (fc_name fc) "google_search").
      * destruct (fc_args fc); unpack st; apply Qle_refl.
      * eapply Qle_trans; [| apply IH].
        rewrite then_send_cursor. apply Qle_refl.
Qed.

Lemma run_thens_cursor (q : list Outbound) :
  forall st : Session, nextStartTime (run_thens q st) = nextStartTime st.
Proof.
  induction q as [| m rest IH]; intros st; [reflexivity |].
  cbn [run_thens]. destruct (sessionPromise st) as [[r q' | s | e] |]; auto.
  rewrite IH. unpack st. unfold then_callback. cbn.
  destruct conn; cbn; auto. now destruct (next_outcome s).
Qed.

Lemma settle_cursor (st : Session) :
  nextStartTime (settle st) = nextStartTime st.
Proof.
  unfold settle. destruct (sessionPromise st) as [[[s | e] q | s | e] |]; auto.
  - rewrite run_thens_cursor. now unpack st.
  - now unpack st.
Qed.

Lemma disconnect_cursor (st : Session) :
  nextStartTime (disconnect st) = nextStartTime st.
Proof.
  unfold disconnect, disconnect_begin.
  destruct (negb (isConnected st)
            && match sessionPromise st with None => true | Some _ => false end);
    [reflexivity |].
  unfold disconnect_end.
  match goal with |- context [settle ?s] =>
    pose proof (settle_cursor s) as E; generalize dependent (settle s) end.
  intros x E. transitivity (nextStartTime x); [now unpack x |]. rewrite E.
  unfold close_context. unpack st. cbn.
  destruct pr, so, ms, ic as [[| |] |], oc as [[| |] |]; reflexivity.
Qed.

(** The cursor never moves back, whatever is delivered. *)
Lemma deliver_cursor (st : Session) (ev : Event) :
  (nextStartTime st <= nextStartTime (deliver st ev))%Q.
Proof.
  destruct ev as [now message | k now | data | |]; cbn [deliver].
  - unfold handleMessage. destruct (isConnected st); [| apply Qle_refl].
    destruct (toolCall message) as [calls |].
    + eapply Qle_trans; [| apply runCalls_cursor]. unpack st. apply Qle_refl.
    + apply handleAudio_cursor.
  - unfold timer. destruct (nth_error (pending st) k) as [t |];
      [| apply Qle_refl].
    unfold resume. destruct (mockGoogleSearch (searchQuery t)).
    + eapply Qle_trans; [| apply runCalls_cursor].
      rewrite then_send_cursor. unpack st. apply Qle_refl.
    + unpack st. apply Qle_refl.
  - unfold onaudioprocess. destruct (isConnected st); [| apply Qle_refl].
    cbn [negb unawaited]. rewrite then_send_cursor. unpack st. apply Qle_refl.
  - unfold handleOpen, startAudioStreaming. unpack st. cbn.
    destruct ic, ms, sp; apply Qle_refl.
  - rewrite disconnect_cursor. apply Qle_refl.
Qed.

(** One audio-only message on a session that plays. *)
Lemma handleMessage_audio (now : Q) (pcmBytes : Audio.ArrayBuffer)
  (b : Audio.AudioBuffer) (st : Session) :
  isConnected st = true ->
  outputAudioContext st <> None ->
  Audio.pcmToAudioBuffer pcmBytes OUTPUT_SAMPLE_RATE = Some b ->
  handleMessage now (audioMessage pcmBytes) st
  = set_nextStartTime (Qmax now (nextStartTime st) + Audio.duration b)%Q
      (emit (Start (Qmax now (nextStartTime st)) b) st).
Proof.
  intros Hc Ho Hb. unfold handleMessage, audioMessage. rewrite Hc.
  cbn [negb toolCall audioData]. unfold handleAudio.
  destruct pcmBytes as [| x xs]; [discriminate |].
  destruct (outputAudioContext st) eqn:E; [| congruence].
  rewrite Hb. now unpack st.
Qed.

(** Three audio-only messages in a row, each arriving with the output
    clock at or before the cursor. *)
Lemma three_blocks (st : Session) (b1 b2 b3 : Audio.ArrayBuffer)
  (buf1 buf2 buf3 : Audio.AudioBuffer) (c1 c2 c3 : Q) :
  isConnected st = true ->
  outputAudioContext st <> None ->
  nextStartTime st = 0%Q ->
  Audio.pcmToAudioBuffer b1 OUTPUT_SAMPLE_RATE = Some buf1 ->
  Audio.pcmToAudioBuffer b2 OUTPUT_SAMPLE_RATE = Some buf2 ->
  Audio.pcmToAudioBuffer b3 OUTPUT_SAMPLE_RATE = Some buf3 ->
  (c1 <= nextStartTime st)%Q ->
  (c2 <= nextStartTime (handleMessage c1 (audioMessage b1) st))%Q ->
  (c3 <= nextStartTime
           (handleMessage c2 (audioMessage b2)
              (handleMessage c1 (audioMessage b1) st)))%Q ->
  exists t1 t2 t3 : Q,
    startsOf (trace (run [Message c1 (audioMessage b1);
                          Message c2 (audioMessage b2);
                          Message c3 (audioMessage b3)] st))
    = startsOf (trace st) ++ [t1; t2; t3]
    /\ (t1 == 0 /\ t2 == Audio.duration buf1
        /\ t3 == Audio.duration buf1 + Audio.duration buf2)%Q
    /\ (t1 + Audio.duration buf1 <= t2
        /\ t2 + Audio.duration buf2 <= t3)%Q.
Proof.
  intros Hc Ho H0 E1 E2 E3.
  cbn [run fold_left deliver].
  rewrite (handleMessage_audio c1 b1 buf1 st Hc Ho E1).
  set (st1 := set_nextStartTime _ _).
  assert (isConnected st1 = true) as Hc1 by (subst st1; now unpack st).
  assert (outputAudioContext st1 <> None) as Ho1 by (subst st1; now unpack st).
  rewrite (handleMessage_audio c2 b2 buf2 st1 Hc1 Ho1 E2).
  set (st2 := set_nextStartTime _ (emit _ st1)).
  assert (isConnected st2 = true) as Hc2 by (subst st2; now destruct st1).
  assert (outputAudioContext st2 <> None) as Ho2
    by (subst st2; now destruct st1).
  rewrite (handleMessage_audio c3 b3 buf3 st2 Hc2 Ho2 E3).
  intros L1 L2 L3.
  assert (nextStartTime st1
          = (Qmax c1 (nextStartTime st) + Audio.duration buf1)%Q) as N1
    by (subst st1; now unpack st).
  assert (nextStartTime st2
          = (Qmax c2 (nextStartTime st1) + Audio.duration buf2)%Q) as N2
    by (subst st2; now destruct st1).
  exists (Qmax c1 (nextStartTime st)), (Qmax c2 (nextStartTime st1)),
    (Qmax c3 (nextStartTime st2)).
  pose proof (Q.max_r _ _ L1) as M1.
  pose proof (Q.max_r _ _ L2) as M2.
  pose proof (Q.max_r _ _ L3) as M3.
  assert (nextStartTime st == 0)%Q as Q0 by (rewrite H0; reflexivity).
  assert (nextStartTime st1
          == Qmax c1 (nextStartTime st) + Audio.duration buf1)%Q as Q1
    by (rewrite N1; reflexivity).
  assert (nextStartTime st2
          == Qmax c2 (nextStartTime st1) + Audio.duration buf2)%Q as Q2
    by (rewrite N2; reflexivity).
  split.
  - assert (trace st2
            = trace st ++ [Start (Qmax c1 (nextStartTime st)) buf1]
                ++ [Start (Qmax c2 (nextStartTime st1)) buf2]) as T2.
    { subst st2. transitivity
        (trace st1 ++ [Start (Qmax c2 (nextStartTime st1)) buf2]);
        [now destruct st1 |].
      rewrite app_assoc. f_equal. subst st1. now unpack st. }
    match goal with |- startsOf (trace ?s) = _ =>
      assert (trace s = trace st2 ++ [Start (Qmax c3 (nextStartTime st2)) buf3])
        as -> by now destruct st2 end.
    rewrite T2, !startsOf_app. cbn. now rewrite <- app_assoc.
  - clear - M1 M2 M3 Q0 Q1 Q2.
    set (t1 := Qmax c1 (nextStartTime st)) in *.
    set (t2 := Qmax c2 (nextStartTime st1)) in *.
    set (t3 := Qmax c3 (nextStartTime st2)) in *.
    clearbody t1 t2 t3.
    set (n0 := nextStartTime st) in *.
    set (n1 := nextStartTime st1) in *.
    set (n2 := nextStartTime st2) in *.
    clearbody n0 n1 n2.
    repeat split; lra.
Qed.

(** *** The capture path *)

(** [onaudioprocess] returns, writes no log entry and no console line,
    and leaves the capture nodes in place, whatever the send does. *)
Lemma onaudioprocess_silent (inputData : list Q) (st : Session) :
  exists st',
    onaudioprocess inputData st = Normal st'
    /\ isConnected st' = isConnected st
    /\ processor st' = processor st
    /\ logOf (trace st') = logOf (trace st)
    /\ consoleOf (trace st') = consoleOf (trace st).
Proof.
  unfold onaudioprocess. destruct (isConnected st) eqn:Hc; cbn [negb].
  - eexists. split; [reflexivity |].
    unpack st. cbn in *. subst. unfold then_send, then_callback. cbn.
    destruct sp as [[r q | s | e] |]; cbn;
      rewrite ?logOf_app, ?consoleOf_app; cbn; rewrite ?app_nil_r; auto.
    destruct (next_outcome s); cbn.
    rewrite ?logOf_app, ?consoleOf_app; cbn; rewrite ?app_nil_r; auto.
  - eexists. split; [reflexivity |]. auto.
Qed.

(** On a connected session with its promise fulfilled the block is
    handed to the transport. *)
Lemma onaudioprocess_live (inputData : list Q) (st : Session)
  (s : LiveSession) :
  isConnected st = true ->
  sessionPromise st = Some (Fulfilled s) ->
  onaudioprocess inputData st
  = Normal
      (set_sessionPromise (Some (Fulfilled (snd (next_outcome s))))
         (emit (Send (sessionId s)
                  (RealtimeInput "audio/pcm;rate=16000"
                     (Audio.float32ToInt16PCM (map Fin inputData))))
            (emit (Volume
                     (RmsTimes100
                        (sumSquares inputData
                         / inject_Z (Z.of_nat (List.length inputData)))%Q))
               st))).
Proof.
  intros Hc Hs. unfold onaudioprocess. rewrite Hc. cbn [negb]. cbv zeta.
  f_equal. unfold then_send, then_callback.
  unpack st. cbn in *. subst. now destruct (next_outcome s).
Qed.

(** *** The dispatcher *)

Lemma toolResponsesOf_snoc (tr : list Effect) (i : nat) (fc : FunctionCall)
  (r : ToolValue) :
  toolResponsesOf (tr ++ [Send i (respond fc r)])
  = toolResponsesOf tr
      ++ [{| fr_id := fc_id fc; fr_name := fc_name fc; fr_result := r |}].
Proof. now rewrite toolResponsesOf_app. Qed.

Lemma then_send_live (m : Outbound) (st : Session) :
  live st ->
  live (then_send m st)
  /\ pending (then_send m st) = pending st
  /\ exists i, trace (then_send m st) = trace st ++ [Send i m].
Proof.
  intros [Hc [s Hs]]. unfold live, then_send, then_callback.
  rewrite Hs, Hc. destruct (next_outcome s) as [o s'].
  unpack st. cbn in *. repeat split; eauto.
Qed.

Lemma onLog_live (t : LogType) (m : string) (st : Session) :
  live st ->
  live (onLog t m st)
  /\ pending (onLog t m st) = pending st
  /\ toolResponsesOf (trace (onLog t m st)) = toolResponsesOf (trace st).
Proof.
  intros [Hc [s Hs]]. unfold live. unpack st. cbn in *.
  rewrite toolResponsesOf_app. cbn. rewrite app_nil_r. eauto.
Qed.


Lemma dispatch_profile (fc : FunctionCall) :
  String.eqb (fc_name fc) "get_financial_profile" = true ->
  answer fc = {| fr_id := fc_id fc; fr_name := fc_name fc;
                 fr_result := MOCK_FINANCIAL_PROFILE |}.
Proof. intros H. unfold answer, dispatch. now rewrite H. Qed.

Lemma dispatch_unknown (fc : FunctionCall) :
  String.eqb (fc_name fc) "get_financial_profile" = false ->
  String.eqb (fc_name fc) "google_search" = false ->
  answer fc = {| fr_id := fc_id fc; fr_name := fc_name fc;
                 fr_result := EmptyObject |}.
Proof. intros H1 H2. unfold answer, dispatch. now rewrite H1, H2. Qed.






End ScriptFacts.

(** ** Facts about the AudioWorklet service *)

Module WorkletFacts.
Import Worklet.

(** *** A disconnected session sends nothing *)







(** *** [connect()] and its guard *)

Lemma connect_connected (env : ConnectEnv) (live : LiveSession + JsError)
  (st : Session) :
  isConnected st = true ->
  connect_begin env st = (st, false) /\ connect env live st = st.
Proof.
  intros H. unfold connect, connect_begin. now rewrite H.
Qed.

(** *** The playback cursor *)

Lemma handleAudio_cursor_w (now : Q) (a : option Audio.ArrayBuffer)
  (st : Session) :
  (nextStartTime st <= nextStartTime (message_catch (handleAudio now a st)))%Q.
Proof.
  unfold handleAudio.
  destruct a as [[| b bs] |]; try (cbn; apply Qle_refl).
  destruct (outputAudioContext st); [| cbn; apply Qle_refl].
  destruct (Audio.pcmToAudioBuffer (b :: bs) OUTPUT_SAMPLE_RATE) as [ab |] eqn:E.
  - pose proof (ScriptFacts.duration_nonneg _ _ E) as D.
    pose proof (Q.le_max_r now (nextStartTime st)) as M.
    unpack st. cbn in *. lra.
  - unpack st. cbn. apply Qle_refl.
Qed.

Lemma sendToolResponse_cursor (fc : FunctionCall) (r : ToolValue)
  (st : Session) :
  nextStartTime (sendToolResponse fc r st) = nextStartTime st.
Proof.
  unpack st. unfold sendToolResponse, session_send. cbn.
  destruct conn, cs as [s |]; cbn; auto.
  destruct (next_outcome s) as [[| e] s']; reflexivity.
Qed.

Lemma runCalls_cursor_w (now : Q) (a : option Audio.ArrayBuffer)
  (calls : list FunctionCall) :
  forall st : Session,
    (nextStartTime st
       <= nextStartTime (message_catch (runCalls now calls a st)))%Q.
Proof.
  induction calls as [| fc rest IH]; intros st.
  - apply handleAudio_cursor_w.
  - cbn [runCalls].
    destruct (String.eqb (fc_name fc) "get_financial_profile").
    + eapply Qle_trans; [| apply IH].
      rewrite sendToolResponse_cursor. unpack st. apply Qle_refl.
    + destruct (String.eqb (fc_name fc) "google_search").
      * destruct (fc_args fc); unpack st; apply Qle_refl.
      * eapply Qle_trans; [| apply IH].
        rewrite sendToolResponse_cursor. apply Qle_refl.
Qed.

Lemma disconnect_cursor_w (st : Session) :
  nextStartTime (unawaited (disconnect st)) = nextStartTime st.
Proof.
  unpack st. unfold disconnect, close_context. cbn.
  destruct wn, so, ms, ic as [[| |] |], oc as [[| |] |]; reflexivity.
Qed.

Lemma sendAudioChunk_cursor (data : list Q) (st : Session) :
  nextStartTime (unawaited (sendAudioChunk data st)) = nextStartTime st.
Proof.
  unfold sendAudioChunk.
  destruct (negb (isConnected st)
            || match currentSession st with None => true | Some _ => false end);
    [reflexivity |].
  unfold session_send.
  destruct (currentSession
              (emit (Volume (RmsTimes100
                 (sumSquares (stride4 data)
                  / (inject_Z (Z.of_nat (List.length data)) / 4)))) st))
    as [s |] eqn:E.
  - destruct (next_outcome s) as [[| e] s']; cbn [try_catch unawaited].
    + now unpack st.
    + match goal with |- context [if ?c then _ else _] => destruct c end;
        cbn [unawaited].
      * rewrite disconnect_cursor_w. now unpack st.
      * now unpack st.
  - cbn [try_catch].
    match goal with |- context [if ?c then _ else _] => destruct c end;
      cbn [unawaited].
    + rewrite disconnect_cursor_w. now unpack st.
    + now unpack st.
Qed.

Lemma processLoop_cursor (fuel : nat) (chunk : list Q) :
  forall (chunkIdx : nat) (st : Session),
    nextStartTime (unawaited (processLoop fuel chunk chunkIdx st))
    = nextStartTime st.
Proof.
  induction fuel as [| fuel IH]; intros chunkIdx st; [reflexivity |].
  cbn [processLoop].
  destruct (chunkIdx <? List.length chunk)%nat; [| reflexivity].
  cbv zeta.
  match goal with |- context [if ?c then _ else _] => destruct c end.
  - match goal with |- context [sendAudioChunk ?d ?s] =>
      pose proof (sendAudioChunk_cursor d s) as E;
      destruct (sendAudioChunk d s) as [s1 | e s1] end; cbn [bind unawaited] in *.
    + rewrite IH. transitivity (nextStartTime s1); [now destruct s1 |].
      rewrite E. now unpack st.
    + rewrite E. now unpack st.
  - cbn [bind]. rewrite IH. now unpack st.
Qed.

Lemma deliver_cursor_w (st : Session) (ev : Event) :
  (nextStartTime st <= nextStartTime (deliver st ev))%Q.
Proof.
  destruct ev as [now message | k now | chunk |]; cbn [deliver].
  - unfold handleMessage. destruct (isConnected st); [| apply Qle_refl].
    destruct (toolCall message) as [calls |].
    + apply runCalls_cursor_w.
    + apply handleAudio_cursor_w.
  - unfold timer. destruct (nth_error (pending st) k) as [t |];
      [| apply Qle_refl].
    unfold resume. cbv zeta.
    eapply Qle_trans; [| apply runCalls_cursor_w].
    rewrite sendToolResponse_cursor. unpack st. apply Qle_refl.
  - unfold port_onmessage, processInputAudio.
    destruct (workletNode st); [| apply Qle_refl].
    destruct (isConnected st); [| apply Qle_refl].
    cbn [negb]. rewrite processLoop_cursor. apply Qle_refl.
  - rewrite disconnect_cursor_w. apply Qle_refl.
Qed.

Lemma handleMessage_audio_w (now : Q) (pcmBytes : Audio.ArrayBuffer)
  (b : Audio.AudioBuffer) (st : Session) :
  isConnected st = true ->
  outputAudioContext st <> None ->
  Audio.pcmToAudioBuffer pcmBytes OUTPUT_SAMPLE_RATE = Some b ->
  handleMessage now (audioMessage pcmBytes) st
  = set_nextStartTime (Qmax now (nextStartTime st) + Audio.duration b)%Q
      (emit (Start (Qmax now (nextStartTime st)) b) st).
Proof.
  intros Hc Ho Hb. unfold handleMessage, audioMessage. rewrite Hc.
  cbn [negb toolCall audioData]. unfold handleAudio.
  destruct pcmBytes as [| x xs]; [discriminate |].
  destruct (outputAudioContext st) eqn:E; [| congruence].
  rewrite Hb. now unpack st.
Qed.

(** Likewise here: three audio-only messages in a row, each arriving with the output
    clock at or before the cursor. *)
Lemma three_blocks_worklet (st : Session) (b1 b2 b3 : Audio.ArrayBuffer)
  (buf1 buf2 buf3 : Audio.AudioBuffer) (c1 c2 c3 : Q) :
  isConnected st = true ->
  outputAudioContext st <> None ->
  nextStartTime st = 0%Q ->
  Audio.pcmToAudioBuffer b1 OUTPUT_SAMPLE_RATE = Some buf1 ->
  Audio.pcmToAudioBuffer b2 OUTPUT_SAMPLE_RATE = Some buf2 ->
  Audio.pcmToAudioBuffer b3 OUTPUT_SAMPLE_RATE = Some buf3 ->
  (c1 <= nextStartTime st)%Q ->
  (c2 <= nextStartTime (handleMessage c1 (audioMessage b1) st))%Q ->
  (c3 <= nextStartTime
           (handleMessage c2 (audioMessage b2)
              (handleMessage c1 (audioMessage b1) st)))%Q ->
  exists t1 t2 t3 : Q,
    startsOf (trace (run [Message c1 (audioMessage b1);
                          Message c2 (audioMessage b2);
                          Message c3 (audioMessage b3)] st))
    = startsOf (trace st) ++ [t1; t2; t3]
    /\ (t1 == 0 /\ t2 == Audio.duration buf1
        /\ t3 == Audio.duration buf1 + Audio.duration buf2)%Q
    /\ (t1 + Audio.duration buf1 <= t2
        /\ t2 + Audio.duration buf2 <= t3)%Q.
Proof.
  intros Hc Ho H0 E1 E2 E3.
  cbn [run fold_left deliver].
  rewrite (handleMessage_audio_w c1 b1 buf1 st Hc Ho E1).
  set (st1 := set_nextStartTime _ _).
  assert (isConnected st1 = true) as Hc1 by (subst st1; now unpack st).
  assert (outputAudioContext st1 <> None) as Ho1 by (subst st1; now unpack st).
  rewrite (handleMessage_audio_w c2 b2 buf2 st1 Hc1 Ho1 E2).
  set (st2 := set_nextStartTime _ (emit _ st1)).
  assert (isConnected st2 = true) as Hc2 by (subst st2; now destruct st1).
  assert (outputAudioContext st2 <> None) as Ho2
    by (subst st2; now destruct st1).
  rewrite (handleMessage_audio_w c3 b3 buf3 st2 Hc2 Ho2 E3).
  intros L1 L2 L3.
  assert (nextStartTime st1
          = (Qmax c1 (nextStartTime st) + Audio.duration buf1)%Q) as N1
    by (subst st1; now unpack st).
  assert (nextStartTime st2
          = (Qmax c2 (nextStartTime st1) + Audio.duration buf2)%Q) as N2
    by (subst st2; now destruct st1).
  exists (Qmax c1 (nextStartTime st)), (Qmax c2 (nextStartTime st1)),
    (Qmax c3 (nextStartTime st2)).
  pose proof (Q.max_r _ _ L1) as M1.
  pose proof (Q.max_r _ _ L2) as M2.
  pose proof (Q.max_r _ _ L3) as M3.
  assert (nextStartTime st == 0)%Q as Q0 by (rewrite H0; reflexivity).
  assert (nextStartTime st1
          == Qmax c1 (nextStartTime st) + Audio.duration buf1)%Q as Q1
    by (rewrite N1; reflexivity).
  assert (nextStartTime st2
          == Qmax c2 (nextStartTime st1) + Audio.duration buf2)%Q as Q2
    by (rewrite N2; reflexivity).
  split.
  - assert (trace st2
            = trace st ++ [Start (Qmax c1 (nextStartTime st)) buf1]
                ++ [Start (Qmax c2 (nextStartTime st1)) buf2]) as T2.
    { subst st2. transitivity
        (trace st1 ++ [Start (Qmax c2 (nextStartTime st1)) buf2]);
        [now destruct st1 |].
      rewrite app_assoc. f_equal. subst st1. now unpack st. }
    match goal with |- startsOf (trace ?s) = _ =>
      assert (trace s = trace st2 ++ [Start (Qmax c3 (nextStartTime st2)) buf3])
        as -> by now destruct st2 end.
    rewrite T2, !startsOf_app. cbn. now rewrite <- app_assoc.
  - clear - M1 M2 M3 Q0 Q1 Q2.
    set (t1 := Qmax c1 (nextStartTime st)) in *.
    set (t2 := Qmax c2 (nextStartTime st1)) in *.
    set (t3 := Qmax c3 (nextStartTime st2)) in *.
    clearbody t1 t2 t3.
    set (n0 := nextStartTime st) in *.
    set (n1 := nextStartTime st1) in *.
    set (n2 := nextStartTime st2) in *.
    clearbody n0 n1 n2.
    repeat split; lra.
Qed.

(** *** The capture path *)

(** What [sendAudioChunk] does on a session that accepts work. *)
Lemma sendAudioChunk_live (data : list Q) (st : Session) (s : LiveSession) :
  isConnected st = true ->
  currentSession st = Some s ->
  sendAudioChunk data st
  = let meanSquare :=
      (sumSquares (stride4 data)
       / (inject_Z (Z.of_nat (List.length data)) / 4))%Q in
    let st1 :=
      set_currentSession (Some (snd (next_outcome s)))
        (emit (Send (sessionId s)
                 (RealtimeInput "audio/pcm;rate=16000"
                    (Audio.float32ToInt16PCM (map Fin data))))
           (emit (Volume (RmsTimes100 meanSquare)) st)) in
    match fst (next_outcome s) with
    | SendOk => Normal st1
    | SendThrows e =>
        if isClosing e then Normal (unawaited (disconnect st1))
        else Normal (emit (Console console_warn "Send error:") st1)
    end.
Proof.
  intros Hc Hs. unfold sendAudioChunk, session_send. rewrite Hc, Hs.
  cbn [negb orb]. cbv zeta.
  assert (forall e, currentSession (emit e st) = Some s) as ->
    by (intros e; now unpack st).
  destruct (next_outcome s) as [[| e] s']; reflexivity.
Qed.

Lemma sendAudioChunk_returns (data : list Q) (st : Session) :
  exists st', sendAudioChunk data st = Normal st'.
Proof.
  destruct (isConnected st) eqn:Hc.
  - destruct (currentSession st) as [s |] eqn:Hs.
    + rewrite (sendAudioChunk_live data st s Hc Hs). cbv zeta.
      destruct (fst (next_outcome s)) as [| e]; [eauto |].
      destruct (isClosing e); eauto.
    + unfold sendAudioChunk. rewrite Hc, Hs. cbn. eauto.
  - unfold sendAudioChunk. rewrite Hc. cbn. eauto.
Qed.

Lemma processLoop_returns (fuel : nat) (chunk : list Q) :
  forall (chunkIdx : nat) (st : Session),
    exists st', processLoop fuel chunk chunkIdx st = Normal st'.
Proof.
  induction fuel as [| fuel IH]; intros chunkIdx st; [cbn; eauto |].
  cbn [processLoop].
  destruct (chunkIdx <? List.length chunk)%nat; [| eauto].
  cbv zeta.
  match goal with |- context [if ?c then _ else _] => destruct c end.
  - match goal with |- context [sendAudioChunk ?d ?s] =>
      destruct (sendAudioChunk_returns d s) as [s1 ->] end.
    cbn [bind]. apply IH.
  - cbn [bind]. apply IH.
Qed.

Lemma port_onmessage_returns (chunk : list Q) (st : Session) :
  exists st', port_onmessage chunk st = Normal st'.
Proof.
  unfold port_onmessage, processInputAudio.
  destruct (workletNode st); [| cbn; eauto].
  destruct (isConnected st); cbn [negb]; [| eauto].
  apply processLoop_returns.
Qed.

(** A rejection that names the closing transport: the block is dropped
    and [disconnect()] runs. *)
Lemma sendAudioChunk_closing (data : list Q) (st : Session) (s : LiveSession)
  (e : JsError) :
  isConnected st = true ->
  currentSession st = Some s ->
  fst (next_outcome s) = SendThrows e ->
  isClosing e = true ->
  inputAudioContext st <> Some closed ->
  outputAudioContext st <> Some closed ->
  exists st',
    sendAudioChunk data st = Normal st'
    /\ isConnected st' = false
    /\ currentSession st' = None
    /\ workletNode st' = false
    /\ logOf (trace st') = logOf (trace st) ++ [Disconnected_entry]
    /\ consoleOf (trace st') = consoleOf (trace st).
Proof.
  intros Hc Hs Ho Hcl Hi Hout.
  rewrite (sendAudioChunk_live data st s Hc Hs). cbv zeta.
  rewrite Ho, Hcl. eexists. split; [reflexivity |].
  unpack st. cbn in *. unfold disconnect, close_context. cbn.
  destruct wn, so, ms, ic as [[| |] |], oc as [[| |] |]; cbn;
    try congruence;
    rewrite ?logOf_app, ?consoleOf_app; cbn; rewrite ?app_nil_r; auto.
Qed.

(** Any other rejection: a console warning, and capture goes on. *)
Lemma sendAudioChunk_other (data : list Q) (st : Session) (s : LiveSession)
  (e : JsError) :
  isConnected st = true ->
  currentSession st = Some s ->
  fst (next_outcome s) = SendThrows e ->
  isClosing e = false ->
  exists st',
    sendAudioChunk data st = Normal st'
    /\ isConnected st' = true
    /\ currentSession st' = Some (snd (next_outcome s))
    /\ workletNode st' = workletNode st
    /\ logOf (trace st') = logOf (trace st)
    /\ consoleOf (trace st')
       = consoleOf (trace st) ++ [(console_warn, "Send error:")].
Proof.
  intros Hc Hs Ho Hcl.
  rewrite (sendAudioChunk_live data st s Hc Hs). cbv zeta.
  rewrite Ho, Hcl. eexists. split; [reflexivity |].
  unpack st. cbn in *.
  rewrite ?logOf_app, ?consoleOf_app; cbn; rewrite ?app_nil_r; auto.
Qed.

(** *** The accumulation buffer *)

Lemma next_outcome_benign (s : LiveSession) :
  Forall (fun o => benign o = true) (sendOutcomes s) ->
  benign (fst (next_outcome s)) = true
  /\ Forall (fun o => benign o = true) (sendOutcomes (snd (next_outcome s))).
Proof.
  unfold next_outcome. destruct (sendOutcomes s) as [| o rest] eqn:E; cbn.
  - intros _. rewrite E. auto.
  - intros H. inversion H; subst. auto.
Qed.

(** A flush on an accepting session hands the block to the transport
    and leaves the session accepting. *)
Lemma sendAudioChunk_accepting (data : list Q) (st : Session) :
  accepting st ->
  exists st',
    sendAudioChunk data st = Normal st'
    /\ accepting st'
    /\ audioBuffer st' = audioBuffer st
    /\ audioBufferIdx st' = audioBufferIdx st
    /\ audioBlocksOf (trace st') = audioBlocksOf (trace st) ++ [encoded data].
Proof.
  intros [Hc [Hw [s [Hs Hb]]]].
  rewrite (sendAudioChunk_live data st s Hc Hs). cbv zeta.
  destruct (next_outcome_benign s Hb) as [B1 B2].
  destruct (fst (next_outcome s)) as [| e]; cbn [benign] in B1.
  - eexists. split; [reflexivity |].
    unpack st. cbn in *. subst. repeat split; auto.
    + exists (snd (next_outcome s)). auto.
    + unfold audioBlocksOf, encoded. rewrite !flat_map_app. cbn.
      now rewrite !app_nil_r.
  - apply negb_true_iff in B1. rewrite B1.
    eexists. split; [reflexivity |].
    unpack st. cbn in *. subst. repeat split; auto.
    + exists (snd (next_outcome s)). auto.
    + unfold audioBlocksOf, encoded. rewrite !flat_map_app. cbn.
      now rewrite !app_nil_r.
Qed.

Lemma subarray_length (chunk : list Q) (b c : nat) :
  (b + c <= List.length chunk)%nat ->
  List.length (subarray chunk b (b + c)) = c.
Proof.
  intros H. unfold subarray. rewrite length_firstn, length_skipn. lia.
Qed.

Lemma typed_set_length (target src : list Q) (offset : nat) :
  (offset + List.length src <= List.length target)%nat ->
  List.length (typed_set target src offset) = List.length target.
Proof.
  intros H. unfold typed_set.
  rewrite !length_app, length_firstn, length_skipn. lia.
Qed.

Lemma typed_set_prefix (target src : list Q) (offset : nat) :
  (offset <= List.length target)%nat ->
  firstn (offset + List.length src) (typed_set target src offset)
  = firstn offset target ++ src.
Proof.
  intros H. unfold typed_set. rewrite app_assoc.
  assert (List.length (firstn offset target ++ src)
          = (offset + List.length src)%nat) as L.
  { rewrite length_app, length_firstn. lia. }
  rewrite <- L, <- (Nat.add_0_r (List.length (firstn offset target ++ src))).
  rewrite firstn_app_2. cbn. now rewrite app_nil_r.
Qed.

Lemma subarray_rest (chunk : list Q) (b c : nat) :
  subarray chunk b (b + c) ++ skipn (b + c) chunk = skipn b chunk.
Proof.
  unfold subarray. replace (b + c - b)%nat with c by lia.
  rewrite (Nat.add_comm b c), <- skipn_skipn. apply firstn_skipn.
Qed.

(** The loop hands on every sample once: the blocks flushed, followed by
    what is left in the buffer, are what was in the buffer followed by
    the part of the chunk still to be copied. *)
Lemma processLoop_conserves (fuel : nat) (chunk : list Q) :
  forall (chunkIdx : nat) (st : Session),
    capturing st ->
    (chunkIdx <= List.length chunk)%nat ->
    (List.length chunk - chunkIdx <= fuel)%nat ->
    exists (st' : Session) (blocks : list (list Q)),
      processLoop fuel chunk chunkIdx st = Normal st'
      /\ capturing st'
      /\ audioBlocksOf (trace st')
         = audioBlocksOf (trace st) ++ map encoded blocks
      /\ Forall (fun b => List.length b = BUFFER_SIZE) blocks
      /\ List.concat blocks ++ firstn (audioBufferIdx st') (audioBuffer st')
         = firstn (audioBufferIdx st) (audioBuffer st) ++ skipn chunkIdx chunk.
Proof.
  induction fuel as [| fuel IH]; intros chunkIdx st Hcap Hle Hfuel.
  - exists st, []. cbn [processLoop map List.concat app].
    rewrite skipn_all2 by lia. rewrite !app_nil_r. auto.
  - cbn [processLoop].
    destruct (chunkIdx <? List.length chunk)%nat eqn:Hlt.
    2:{ apply Nat.ltb_ge in Hlt. exists st, []. cbn [map List.concat app].
        rewrite skipn_all2 by lia. rewrite !app_nil_r. auto. }
    apply Nat.ltb_lt in Hlt. cbv zeta.
    destruct Hcap as [Hacc [Hlen Hidx]].
    set (copyLen := Nat.min (List.length (audioBuffer st) - audioBufferIdx st)
                      (List.length chunk - chunkIdx)).
    assert (1 <= copyLen)%nat as Hc1 by (subst copyLen; lia).
    assert (audioBufferIdx st + copyLen <= BUFFER_SIZE)%nat as Hc2
      by (subst copyLen; lia).
    assert (chunkIdx + copyLen <= List.length chunk)%nat as Hc3
      by (subst copyLen; lia).
    set (sub := subarray chunk chunkIdx (chunkIdx + copyLen)).
    assert (List.length sub = copyLen) as Hsub
      by (subst sub; now apply subarray_length).
    set (newbuf := typed_set (audioBuffer st) sub (audioBufferIdx st)).
    assert (List.length newbuf = BUFFER_SIZE) as Hnew.
    { subst newbuf. rewrite typed_set_length; [exact Hlen | lia]. }
    assert (firstn (audioBufferIdx st + copyLen) newbuf
            = firstn (audioBufferIdx st) (audioBuffer st) ++ sub) as Hpre.
    { subst newbuf. rewrite <- Hsub. apply typed_set_prefix. lia. }
    set (st1 := set_audioBufferIdx _ (set_audioBuffer _ st)).
    assert (audioBuffer st1 = newbuf) as B1 by (subst st1; now unpack st).
    assert (audioBufferIdx st1 = (audioBufferIdx st + copyLen)%nat) as I1
      by (subst st1; now unpack st).
    assert (trace st1 = trace st) as T1 by (subst st1; now unpack st).
    assert (accepting st1) as A1.
    { subst st1. destruct Hacc as [a [b [s [c d]]]].
      unpack st. cbn in *. repeat split; auto. exists s. auto. }
    rewrite B1, I1, Hnew.
    destruct (BUFFER_SIZE <=? audioBufferIdx st + copyLen)%nat eqn:Hfull.
    + apply Nat.leb_le in Hfull.
      destruct (sendAudioChunk_accepting newbuf st1 A1)
        as [st2 [E2 [A2 [B2 [I2 T2]]]]].
      rewrite E2. cbn [bind].
      destruct (IH (chunkIdx + copyLen)%nat (set_audioBufferIdx 0%nat st2))
        as [st' [blocks [E' [C' [T' [F' K']]]]]].
      { split; [| split].
        - destruct A2 as [a [b [s [c d]]]]. unfold accepting.
          destruct st2. cbn in *. repeat split; auto. exists s. auto.
        - transitivity (List.length (audioBuffer st2)); [now destruct st2 |].
          rewrite B2, B1. exact Hnew.
        - replace (audioBufferIdx (set_audioBufferIdx 0%nat st2)) with 0%nat
            by now destruct st2.
          unfold BUFFER_SIZE. lia. }
      { lia. }
      { lia. }
      exists st', (newbuf :: blocks). split; [exact E' |].
      split; [exact C' |]. split; [| split].
      * rewrite T'. cbn [map].
        assert (trace (set_audioBufferIdx 0%nat st2) = trace st2) as ->
          by now unpack st2.
        rewrite T2, T1, <- app_assoc. reflexivity.
      * constructor; [exact Hnew | exact F'].
      * cbn [List.concat]. rewrite <- app_assoc, K'.
        assert (audioBufferIdx (set_audioBufferIdx 0%nat st2) = 0%nat) as ->
          by now unpack st2.
        cbn [firstn app].
        rewrite <- (subarray_rest chunk chunkIdx copyLen).
        fold sub. rewrite app_assoc, <- Hpre.
        f_equal. symmetry. apply firstn_all2. lia.
    + apply Nat.leb_gt in Hfull. cbn [bind].
      destruct (IH (chunkIdx + copyLen)%nat st1)
        as [st' [blocks [E' [C' [T' [F' K']]]]]].
      { unfold capturing. rewrite B1, I1. auto. }
      { lia. }
      { lia. }
      exists st', blocks. split; [exact E' |]. split; [exact C' |].
      split; [| split].
      * now rewrite T', T1.
      * exact F'.
      * rewrite K', B1, I1, Hpre, <- app_assoc. unfold sub.
        now rewrite (subarray_rest chunk chunkIdx copyLen).
Qed.

(** A whole sequence of frames delivered by the worklet. *)
Lemma frames_conserved (frames : list (list Q)) :
  forall st : Session,
    capturing st ->
    exists blocks : list (list Q),
      capturing (run (map WorkletMessage frames) st)
      /\ audioBlocksOf (trace (run (map WorkletMessage frames) st))
         = audioBlocksOf (trace st) ++ map encoded blocks
      /\ Forall (fun b => List.length b = BUFFER_SIZE) blocks
      /\ List.concat blocks
           ++ firstn (audioBufferIdx (run (map WorkletMessage frames) st))
                (audioBuffer (run (map WorkletMessage frames) st))
         = firstn (audioBufferIdx st) (audioBuffer st) ++ List.concat frames.
Proof.
  induction frames as [| chunk rest IH]; intros st Hcap.
  - exists []. cbn. rewrite !app_nil_r. auto.
  - cbn [map run fold_left deliver].
    assert (port_onmessage chunk st
            = processLoop (S (List.length chunk)) chunk 0 st) as E.
    { destruct Hcap as [[a [b _]] _].
      unfold port_onmessage, processInputAudio. now rewrite a, b. }
    destruct (processLoop_conserves (S (List.length chunk)) chunk 0 st Hcap)
      as [st1 [blocks1 [E1 [C1 [T1 [F1 K1]]]]]]; [lia | lia |].
    rewrite E, E1. cbn [unawaited].
    destruct (IH st1 C1) as [blocks2 [C2 [T2 [F2 K2]]]].
    exists (blocks1 ++ blocks2). unfold run in *.
    split; [exact C2 |]. split; [| split].
    + rewrite T2, T1, map_app, app_assoc. reflexivity.
    + apply Forall_app. auto.
    + rewrite concat_app, <- app_assoc, K2, app_assoc, K1.
      cbn [skipn List.concat]. now rewrite app_assoc.
Qed.

(** *** The dispatcher *)










End WorkletFacts.

(** ** [disconnect()] cut at its awaits *)

Module ScriptStepsFacts.
Import Script ScriptFacts ScriptSteps.

(** Run without interruption, the segments are [Script.disconnect]. *)
Lemma uninterrupted (st : Session) :
  service (run [DisconnectCall; Resume 0; Resume 0; Resume 0] (idle st))
  = disconnect st.
Proof.
  unfold disconnect, call, idle, run. cbn [fold_left advance service parked].
  unfold call.
  destruct (disconnect_begin st) as [st1 teardown].
  destruct teardown; [| reflexivity].
  unfold disconnect_end, close_context, from_input, from_output, from_session,
    park.
  destruct st1 as [ic oc ms pr so nst conn sp pend tr].
  destruct ic as [[| |] |], oc as [[| |] |], sp as [p |];
    cbn -[settle]; reflexivity.
Qed.















End ScriptStepsFacts.

Module WorkletStepsFacts.
Import Worklet WorkletFacts WorkletSteps.

(** Run without interruption, the segments are [Worklet.disconnect]. *)
Lemma uninterrupted_w (st : Session) :
  service (run [DisconnectCall; Resume 0; Resume 0] (idle st))
  = unawaited (disconnect st).
Proof.
  unfold disconnect, close_context, idle, run, call, from_input, from_output,
    park.
  destruct st as [ic oc ms wn so nst conn buf idx cs pend tr].
  destruct wn, so, ms, ic as [[| |] |], oc as [[| |] |]; reflexivity.
Qed.












End WorkletStepsFacts.

(* ================================================================== *)
(** * The claims *)




(** C4.  Three audio blocks that arrive with the cursor at 0 and the
    output clock never past the cursor start at 0, d1 and d1 + d2, each
    block ending where the next begins; and no delivery of any kind
    moves the cursor back. *)
Theorem playback_schedule :
  (forall (st : Script.Session) (b1 b2 b3 : Audio.ArrayBuffer)
          (buf1 buf2 buf3 : Audio.AudioBuffer) (c1 c2 c3 : Q),
      Script.isConnected st = true ->
      Script.outputAudioContext st <> None ->
      Script.nextStartTime st = 0%Q ->
      Audio.pcmToAudioBuffer b1 OUTPUT_SAMPLE_RATE = Some buf1 ->
      Audio.pcmToAudioBuffer b2 OUTPUT_SAMPLE_RATE = Some buf2 ->
      Audio.pcmToAudioBuffer b3 OUTPUT_SAMPLE_RATE = Some buf3 ->
      (c1 <= Script.nextStartTime st)%Q ->
      (c2 <= Script.nextStartTime
               (Script.handleMessage c1 (audioMessage b1) st))%Q ->
      (c3 <= Script.nextStartTime
               (Script.handleMessage c2 (audioMessage b2)
                  (Script.handleMessage c1 (audioMessage b1) st)))%Q ->
      exists t1 t2 t3 : Q,
        startsOf (Script.trace
                    (Script.run [Script.Message c1 (audioMessage b1);
                                 Script.Message c2 (audioMessage b2);
                                 Script.Message c3 (audioMessage b3)] st))
        = startsOf (Script.trace st) ++ [t1; t2; t3]
        /\ (t1 == 0 /\ t2 == Audio.duration buf1
            /\ t3 == Audio.duration buf1 + Audio.duration buf2)%Q
        /\ (t1 + Audio.duration buf1 <= t2
            /\ t2 + Audio.duration buf2 <= t3)%Q)
  /\ (forall (st : Script.Session) (ev : Script.Event),
         (Script.nextStartTime st
            <= Script.nextStartTime (Script.deliver st ev))%Q)
  /\ (forall (st : Worklet.Session) (b1 b2 b3 : Audio.ArrayBuffer)
             (buf1 buf2 buf3 : Audio.AudioBuffer) (c1 c2 c3 : Q),
         Worklet.isConnected st = true ->
         Worklet.outputAudioContext st <> None ->
         Worklet.nextStartTime st = 0%Q ->
         Audio.pcmToAudioBuffer b1 OUTPUT_SAMPLE_RATE = Some buf1 ->
         Audio.pcmToAudioBuffer b2 OUTPUT_SAMPLE_RATE = Some buf2 ->
         Audio.pcmToAudioBuffer b3 OUTPUT_SAMPLE_RATE = Some buf3 ->
         (c1 <= Worklet.nextStartTime st)%Q ->
         (c2 <= Worklet.nextStartTime
                  (Worklet.handleMessage c1 (audioMessage b1) st))%Q ->
         (c3 <= Worklet.nextStartTime
                  (Worklet.handleMessage c2 (audioMessage b2)
                     (Worklet.handleMessage c1 (audioMessage b1) st)))%Q ->
         exists t1 t2 t3 : Q,
           startsOf (Worklet.trace
                       (Worklet.run [Worklet.Message c1 (audioMessage b1);
                                     Worklet.Message c2 (audioMessage b2);
                                     Worklet.Message c3 (audioMessage b3)] st))
           = startsOf (Worklet.trace st) ++ [t1; t2; t3]
           /\ (t1 == 0 /\ t2 == Audio.duration buf1
               /\ t3 == Audio.duration buf1 + Audio.duration buf2)%Q
           /\ (t1 + Audio.duration buf1 <= t2
               /\ t2 + Audio.duration buf2 <= t3)%Q)
  /\ (forall (st : Worklet.Session) (ev : Worklet.Event),
         (Worklet.nextStartTime st
            <= Worklet.nextStartTime (Worklet.deliver st ev))%Q).
Proof.
  split; [exact ScriptFacts.three_blocks |].
  split; [exact ScriptFacts.deliver_cursor |].
  split; [exact WorkletFacts.three_blocks_worklet |].
  exact WorkletFacts.deliver_cursor_w.
Qed.

(** Witness for C4: three blocks of two frames each, the clock at 0. *)
Lemma playback_schedule_witness :
  (exists t1 t2 t3 : Q,
      startsOf (Script.trace
                  (Script.run [Script.Message 0 (audioMessage two_frames);
                               Script.Message 0 (audioMessage two_frames);
                               Script.Message 0 (audioMessage two_frames)]
                     script_connected))
      = startsOf (Script.trace script_connected) ++ [t1; t2; t3]
      /\ (t1 == 0 /\ t2 == 2 # 24000 /\ t3 == 4 # 24000)%Q)
  /\ (exists t1 t2 t3 : Q,
         startsOf (Worklet.trace
                     (Worklet.run
                        [Worklet.Message 0 (audioMessage two_frames);
                         Worklet.Message 0 (audioMessage two_frames);
                         Worklet.Message 0 (audioMessage two_frames)]
                        worklet_connected))
         = startsOf (Worklet.trace worklet_connected) ++ [t1; t2; t3]
         /\ (t1 == 0 /\ t2 == 2 # 24000 /\ t3 == 4 # 24000)%Q).
Proof.
  split.
  - destruct (proj1 playback_schedule script_connected
                two_frames two_frames two_frames
                {| Audio.channelData := [(16384 / 32768)%Q; (-16384 / 32768)%Q];
                   Audio.frameCount := 2; Audio.bufferRate := 24000 |}
                {| Audio.channelData := [(16384 / 32768)%Q; (-16384 / 32768)%Q];
                   Audio.frameCount := 2; Audio.bufferRate := 24000 |}
                {| Audio.channelData := [(16384 / 32768)%Q; (-16384 / 32768)%Q];
                   Audio.frameCount := 2; Audio.bufferRate := 24000 |}
                0%Q 0%Q 0%Q)
      as [t1 [t2 [t3 [E [[A [B C]] _]]]]];
      try reflexivity; try discriminate.
    exists t1, t2, t3. split; [exact E |].
    split; [exact A |]. split.
    + rewrite B. reflexivity.
    + rewrite C. reflexivity.
  - destruct (proj1 (proj2 (proj2 playback_schedule)) worklet_connected
                two_frames two_frames two_frames
                {| Audio.channelData := [(16384 / 32768)%Q; (-16384 / 32768)%Q];
                   Audio.frameCount := 2; Audio.bufferRate := 24000 |}
                {| Audio.channelData := [(16384 / 32768)%Q; (-16384 / 32768)%Q];
                   Audio.frameCount := 2; Audio.bufferRate := 24000 |}
                {| Audio.channelData := [(16384 / 32768)%Q; (-16384 / 32768)%Q];
                   Audio.frameCount := 2; Audio.bufferRate := 24000 |}
                0%Q 0%Q 0%Q)
      as [t1 [t2 [t3 [E [[A [B C]] _]]]]];
      try reflexivity; try discriminate.
    exists t1, t2, t3. split; [exact E |].
    split; [exact A |]. split.
    + rewrite B. reflexivity.
    + rewrite C. reflexivity.
Defined.

(** C5.  In the ScriptProcessor service a second [disconnect()] changes
    nothing: no resource is released and nothing is logged again.  In
    the AudioWorklet service, which has no guard, the second call
    releases nothing but reports the status and logs 'Disconnected.'
    once more. *)
Theorem disconnect_twice :
  (forall st : Script.Session,
      Script.disconnect (Script.disconnect st) = Script.disconnect st)
  /\ List.length
       (filter is_Disconnected
          (logOf (Script.trace
                    (Script.disconnect (Script.disconnect script_connected)))))
     = 1%nat
  /\ (let once := unawaited (Worklet.disconnect worklet_connected) in
      let twice := unawaited (Worklet.disconnect once) in
      Worklet.trace twice
      = Worklet.trace once ++ [StatusChange false; Log Disconnected_entry]
      /\ releasesOf (Worklet.trace twice) = releasesOf (Worklet.trace once)
      /\ List.length (filter is_Disconnected (logOf (Worklet.trace once)))
         = 1%nat
      /\ List.length (filter is_Disconnected (logOf (Worklet.trace twice)))
         = 2%nat).
Proof.
  split; [exact ScriptFacts.disconnect_idempotent |].
  split; [reflexivity |].
  cbv zeta. repeat split; reflexivity.
Qed.

(** C6.  In the AudioWorklet service [connect()] sets the flag before it
    waits, so a second call during the wait returns at once.  In the
    ScriptProcessor service the flag is set by [onopen] only: a second
    call while the first waits for the microphone, or for the transport,
    logs again and opens another input context. *)
Theorem connect_while_connecting :
  Worklet.isConnected worklet_connecting = true
  /\ Worklet.connect_begin browser_ok worklet_connecting
     = (worklet_connecting, false)
  /\ Script.isConnected script_connecting = false
  /\ (let again := Script.connect_begin script_connecting in
      snd again = true
      /\ logOf (Script.trace (fst again))
         = logOf (Script.trace script_connecting)
             ++ [{| type := system;
                    message := "Initializing audio context..." |}]
      /\ acquiresOf (Script.trace script_connecting) = [InputContext]
      /\ acquiresOf (Script.trace (fst again)) = [InputContext; InputContext])
  /\ (let waiting :=
        Script.connect_gotMedia (inl tt) (inl session1) script_connecting in
      let again := Script.connect_begin waiting in
      Script.sessionPromise waiting = Some (Script.Pending (inl session1) [])
      /\ snd again = true
      /\ logOf (Script.trace (fst again))
         = logOf (Script.trace waiting)
             ++ [{| type := system;
                    message := "Initializing audio context..." |}]
      /\ acquiresOf (Script.trace (fst again))
         = acquiresOf (Script.trace waiting) ++ [InputContext])
  /\ Script.connect_begin script_connected = (script_connected, false).
Proof.
  repeat split; reflexivity.
Qed.




Lemma length_concat_uniform (n : nat) (blocks : list (list Q)) :
  Forall (fun b => List.length b = n) blocks ->
  List.length (List.concat blocks) = (n * List.length blocks)%nat.
Proof.
  induction 1 as [| b rest Hb Hrest IH]; cbn [List.concat List.length].
  - lia.
  - rewrite length_app, IH, Hb. lia.
Qed.

(** C2.  While the worklet service captures, for every sequence of
    frames: the blocks handed to the transport, followed by the filled
    part of the buffer, are exactly the samples that were in the buffer
    followed by the samples of the frames, in order; every block has
    4096 samples (8192 bytes once encoded); so the samples sent plus the
    samples left in the buffer count what came in. *)
Theorem accumulation_conserves_samples
  (frames : list (list Q)) (st : Worklet.Session) :
  Worklet.capturing st ->
  exists blocks : list (list Q),
    let st' := Worklet.run (map Worklet.WorkletMessage frames) st in
    audioBlocksOf (Worklet.trace st')
    = audioBlocksOf (Worklet.trace st) ++ map Worklet.encoded blocks
    /\ Forall (fun b => List.length b = Worklet.BUFFER_SIZE) blocks
    /\ Forall (fun data => List.length data = (2 * Worklet.BUFFER_SIZE)%nat)
         (map Worklet.encoded blocks)
    /\ List.concat blocks
         ++ firstn (Worklet.audioBufferIdx st') (Worklet.audioBuffer st')
       = firstn (Worklet.audioBufferIdx st) (Worklet.audioBuffer st)
           ++ List.concat frames
    /\ (Worklet.BUFFER_SIZE * List.length blocks + Worklet.audioBufferIdx st'
        = Worklet.audioBufferIdx st + List.length (List.concat frames))%nat
    /\ (Worklet.audioBufferIdx st' < Worklet.BUFFER_SIZE)%nat.
Proof.
  intros Hcap.
  destruct (WorkletFacts.frames_conserved frames st Hcap)
    as [blocks [[_ [Hlen' Hidx']] [T [F K]]]].
  exists blocks. cbv zeta.
  split; [exact T |]. split; [exact F |]. split; [| split; [exact K |]].
  - apply Forall_forall. intros data Hin. apply in_map_iff in Hin.
    destruct Hin as [b [<- Hb]]. unfold Worklet.encoded.
    rewrite float32ToInt16PCM_length, length_map.
    rewrite Forall_forall in F. now rewrite (F b Hb).
  - split; [| exact Hidx'].
    apply (f_equal (@List.length Q)) in K.
    rewrite !length_app, !length_firstn in K.
    rewrite (length_concat_uniform _ _ F) in K.
    destruct Hcap as [_ [Hlen Hidx]]. lia.
Qed.

(** Witness for C2: 33 worklet frames of 128 samples fill one block and
    leave 128 samples in the buffer. *)
Lemma accumulation_conserves_samples_witness :
  exists blocks : list (list Q),
    List.concat blocks
      ++ firstn
           (Worklet.audioBufferIdx
              (Worklet.run
                 (map Worklet.WorkletMessage (repeat (repeat (1 # 2) 128) 33))
                 worklet_connected))
           (Worklet.audioBuffer
              (Worklet.run
                 (map Worklet.WorkletMessage (repeat (repeat (1 # 2) 128) 33))
                 worklet_connected))
    = List.concat (repeat (repeat (1 # 2) 128) 33).
Proof.
  destruct (accumulation_conserves_samples
              (repeat (repeat (1 # 2) 128) 33) worklet_connected)
    as [blocks [_ [_ [_ [K _]]]]].
  - repeat split; try reflexivity.
    + exists session1. split; [reflexivity | constructor].
    + unfold Worklet.BUFFER_SIZE. cbn. lia.
  - exists blocks. exact K.
Defined.

Section LoudnessDelivered.

Lemma onaudioprocess_volumes (inputData : list Q) (st : Script.Session) :
  volumesOf (Script.trace (unawaited (Script.onaudioprocess inputData st)))
  = volumesOf (Script.trace st)
      ++ (if Script.isConnected st
          then [RmsTimes100
                  (sumSquares inputData
                   / inject_Z (Z.of_nat (List.length inputData)))%Q]
          else []).
Proof.
  unfold Script.onaudioprocess.
  destruct st as [ic oc ms pr so nst conn sp pend tr]. cbn.
  destruct conn; cbn; [| now rewrite app_nil_r].
  unfold Script.then_send, Script.then_callback. cbn.
  destruct sp as [[r q | s | e] |]; cbn; rewrite ?volumesOf_app; cbn;
    rewrite ?app_nil_r; try reflexivity.
  destruct (next_outcome s). cbn. rewrite !volumesOf_app. cbn.
  now rewrite app_nil_r.
Qed.

Lemma sendAudioChunk_volumes (data : list Q) (st : Worklet.Session) :
  volumesOf (Worklet.trace (unawaited (Worklet.sendAudioChunk data st)))
  = volumesOf (Worklet.trace st)
      ++ (if Worklet.isConnected st
             && match Worklet.currentSession st with
                | Some _ => true
                | None => false
                end
          then [RmsTimes100
                  (sumSquares (stride4 data)
                   / (inject_Z (Z.of_nat (List.length data)) / 4))%Q]
          else []).
Proof.
  destruct (Worklet.isConnected st) eqn:Hc.
  - destruct (Worklet.currentSession st) as [s |] eqn:Hs.
    + rewrite (WorkletFacts.sendAudioChunk_live data st s Hc Hs). cbv zeta.
      cbn [andb].
      destruct (fst (next_outcome s)) as [| e].
      * destruct st. cbn. rewrite !volumesOf_app. cbn.
        now rewrite app_nil_r.
      * destruct (Worklet.isClosing e); cbn [unawaited].
        -- destruct st as [ic oc ms wn so nst conn buf idx cs pend tr].
           unfold Worklet.disconnect, Worklet.close_context. cbn.
           destruct wn, so, ms, ic as [[| |] |], oc as [[| |] |]; cbn;
             rewrite ?volumesOf_app; cbn; now rewrite ?app_nil_r.
        -- destruct st. cbn. rewrite !volumesOf_app. cbn.
           now rewrite !app_nil_r.
    + unfold Worklet.sendAudioChunk. rewrite Hc, Hs. cbn.
      now rewrite app_nil_r.
  - unfold Worklet.sendAudioChunk. rewrite Hc. cbn. now rewrite app_nil_r.
Qed.

End LoudnessDelivered.

Lemma Q2R_over_count (a : Q) (n : nat) :
  (0 < n)%nat ->
  Q2R (a / inject_Z (Z.of_nat n)) = (Q2R a / INR n)%R.
Proof.
  intros Hn.
  assert (~ inject_Z (Z.of_nat n) == 0)%Q as Hnz.
  { intros E. unfold Qeq in E. cbn in E. lia. }
  rewrite (Q2R_div _ _ Hnz). f_equal.
  unfold Q2R, inject_Z. cbn [Qnum Qden]. rewrite INR_IZR_INZ.
  change (IZR (Z.pos 1)) with 1%R. field.
Qed.

(** C8 (as amended).  For a block of samples in [-1, 1], exactly one
    loudness is handed to [onVolume] when the service is connected (in
    the AudioWorklet service: and holds its session), none otherwise.
    It is the root mean square times 100, a value between 0 and 100: the
    square root of the sum of the squares over the number of samples,
    over the whole block in the ScriptProcessor service; over every
    fourth sample of a block of 4n samples, the sum divided by a fourth
    of the block's length, in the AudioWorklet service. *)
Theorem loudness_percent_range :
  (forall (st : Script.Session) (inputData : list Q),
      Forall (fun x => -1 <= x <= 1)%Q inputData ->
      inputData <> [] ->
      exists v : Loudness,
        volumesOf
          (Script.trace (unawaited (Script.onaudioprocess inputData st)))
        = volumesOf (Script.trace st)
            ++ (if Script.isConnected st then [v] else [])
        /\ loudness_value v
           = (sqrt (Q2R (sumSquares inputData)
                    / INR (List.length inputData)) * 100)%R
        /\ (0 <= loudness_value v <= 100)%R)
  /\ (forall (st : Worklet.Session) (float32Data : list Q) (n : nat),
         Forall (fun x => -1 <= x <= 1)%Q float32Data ->
         List.length float32Data = (4 * n)%nat ->
         (0 < n)%nat ->
         exists v : Loudness,
           volumesOf
             (Worklet.trace
                (unawaited (Worklet.sendAudioChunk float32Data st)))
           = volumesOf (Worklet.trace st)
               ++ (if Worklet.isConnected st
                      && match Worklet.currentSession st with
                         | Some _ => true
                         | None => false
                         end
                   then [v] else [])
           /\ loudness_value v
              = (sqrt (Q2R (sumSquares (stride4 float32Data))
                       / (INR (List.length float32Data) / 4)) * 100)%R
           /\ (0 <= loudness_value v <= 100)%R).
Proof.
  split.
  - intros st data Hrange Hne.
    exists (RmsTimes100
              (sumSquares data / inject_Z (Z.of_nat (List.length data)))%Q).
    split; [apply onaudioprocess_volumes | split].
    + cbn [loudness_value]. rewrite Q2R_over_count; [reflexivity |].
      destruct data; [congruence | cbn [List.length]; lia].
    + apply loudness_bound. now apply mean_square_all.
  - intros st data n Hrange Hlen Hn.
    exists (RmsTimes100
              (sumSquares (stride4 data)
               / (inject_Z (Z.of_nat (List.length data)) / 4))%Q).
    split; [apply sendAudioChunk_volumes | split].
    + cbn [loudness_value]. f_equal. f_equal.
      assert (inject_Z (Z.of_nat (List.length data)) / 4
              == inject_Z (Z.of_nat n))%Q as E.
      { rewrite Hlen, Nat2Z.inj_mul, inject_Z_mult.
        change (inject_Z (Z.of_nat 4)) with 4%Q. field. }
      rewrite (Qeq_eqR _ _ (Qdiv_comp _ _ (Qeq_refl _) _ _ E)).
      rewrite (Q2R_over_count _ n Hn). f_equal.
      rewrite Hlen, mult_INR.
      replace (INR 4) with 4%R by (cbn; lra). field.
    + apply loudness_bound. now apply (mean_square_stride data n).
Qed.

(** Witness for C8: a block of four samples at half scale; both services
    hand 50 to [onVolume]. *)
Lemma loudness_percent_range_witness :
  (exists v : Loudness,
      volumesOf
        (Script.trace
           (unawaited
              (Script.onaudioprocess [1 # 2; -1 # 2; 1 # 2; -1 # 2]%Q
                 script_connected)))
      = [v]
      /\ (0 <= loudness_value v <= 100)%R)
  /\ (exists v : Loudness,
         volumesOf
           (Worklet.trace
              (unawaited
                 (Worklet.sendAudioChunk [1 # 2; -1 # 2; 1 # 2; -1 # 2]%Q
                    worklet_connected)))
         = [v]
         /\ (0 <= loudness_value v <= 100)%R).
Proof.
  split.
  - destruct (proj1 loudness_percent_range script_connected
                [1 # 2; -1 # 2; 1 # 2; -1 # 2]%Q) as [v [A [_ B]]].
    + repeat constructor; discriminate.
    + discriminate.
    + exists v. split; [exact A | exact B].
  - destruct (proj2 loudness_percent_range worklet_connected
                [1 # 2; -1 # 2; 1 # 2; -1 # 2]%Q 1%nat) as [v [A [_ B]]].
    + repeat constructor; discriminate.
    + reflexivity.
    + lia.
    + exists v. split; [exact A | exact B].
Defined.

(** C8, counterexample to the range [0, 1]: for a block at full scale
    both services hand 100 to [onVolume]. *)
Lemma loudness_exceeds_one :
  (exists v : Loudness,
      volumesOf
        (Script.trace
           (unawaited (Script.onaudioprocess full_scale_block script_connected)))
      = [v]
      /\ Forall (fun x => -1 <= x <= 1)%Q full_scale_block
      /\ loudness_value v = 100%R
      /\ ~ (0 <= loudness_value v <= 1)%R)
  /\ (exists v : Loudness,
         volumesOf
           (Worklet.trace
              (unawaited
                 (Worklet.sendAudioChunk full_scale_block worklet_connected)))
         = [v]
         /\ loudness_value v = 100%R
         /\ ~ (0 <= loudness_value v <= 1)%R).
Proof.
  assert (Forall (fun x => -1 <= x <= 1)%Q full_scale_block) as Hrange.
  { unfold full_scale_block. apply Forall_forall. intros x Hx.
    apply repeat_spec in Hx. subst x. split; discriminate. }
  split.
  - eexists. split; [| split; [exact Hrange | ]].
    + rewrite onaudioprocess_volumes. reflexivity.
    + assert (sumSquares full_scale_block
              / inject_Z (Z.of_nat (List.length full_scale_block)) == 1)%Q
        as E by (vm_compute; reflexivity).
      rewrite (loudness_of_one _ E). split; [reflexivity | lra].
  - eexists. split.
    + rewrite sendAudioChunk_volumes. reflexivity.
    + assert (sumSquares (stride4 full_scale_block)
              / (inject_Z (Z.of_nat (List.length full_scale_block)) / 4)
              == 1)%Q
        as E by (vm_compute; reflexivity).
      rewrite (loudness_of_one _ E). split; [reflexivity | lra].
Qed.

(** C9 (as amended).  No send failure raises an exception out of the
    capture path.  In the AudioWorklet service a rejection whose message
    names the closing transport drops the block and runs
    [disconnect()]: capture stops and the only log entry is the terminal
    'Disconnected.', with no warning; any other rejection is reported by
    one console warning, logs nothing, and capture goes on.  In the
    ScriptProcessor service every outcome of the send is swallowed: no
    log entry, no console line, capture goes on. *)
Theorem send_failure_handling :
  (forall (float32Data : list Q) (st : Worklet.Session) (s : LiveSession)
          (e : JsError),
      Worklet.isConnected st = true ->
      Worklet.currentSession st = Some s ->
      fst (next_outcome s) = SendThrows e ->
      Worklet.isClosing e = true ->
      Worklet.inputAudioContext st <> Some closed ->
      Worklet.outputAudioContext st <> Some closed ->
      exists st',
        Worklet.sendAudioChunk float32Data st = Normal st'
        /\ Worklet.isConnected st' = false
        /\ Worklet.currentSession st' = None
        /\ Worklet.workletNode st' = false
        /\ logOf (Worklet.trace st')
           = logOf (Worklet.trace st) ++ [Disconnected_entry]
        /\ consoleOf (Worklet.trace st') = consoleOf (Worklet.trace st))
  /\ (forall (float32Data : list Q) (st : Worklet.Session) (s : LiveSession)
             (e : JsError),
         Worklet.isConnected st = true ->
         Worklet.currentSession st = Some s ->
         fst (next_outcome s) = SendThrows e ->
         Worklet.isClosing e = false ->
         exists st',
           Worklet.sendAudioChunk float32Data st = Normal st'
           /\ Worklet.isConnected st' = true
           /\ Worklet.currentSession st' = Some (snd (next_outcome s))
           /\ Worklet.workletNode st' = Worklet.workletNode st
           /\ logOf (Worklet.trace st') = logOf (Worklet.trace st)
           /\ consoleOf (Worklet.trace st')
              = consoleOf (Worklet.trace st)
                  ++ [(console_warn, "Send error:")])
  /\ (forall (chunk : list Q) (st : Worklet.Session),
         (exists st', Worklet.sendAudioChunk chunk st = Normal st')
         /\ (exists st', Worklet.port_onmessage chunk st = Normal st'))
  /\ (forall (inputData : list Q) (st : Script.Session),
         exists st',
           Script.onaudioprocess inputData st = Normal st'
           /\ Script.isConnected st' = Script.isConnected st
           /\ Script.processor st' = Script.processor st
           /\ logOf (Script.trace st') = logOf (Script.trace st)
           /\ consoleOf (Script.trace st') = consoleOf (Script.trace st)).
Proof.
  split; [exact WorkletFacts.sendAudioChunk_closing |].
  split; [exact WorkletFacts.sendAudioChunk_other |].
  split; [| exact ScriptFacts.onaudioprocess_silent].
  intros chunk st. split.
  - apply WorkletFacts.sendAudioChunk_returns.
  - apply WorkletFacts.port_onmessage_returns.
Qed.

(** Witness for C9: a full-scale block on the session whose transport is
    closing. *)
Lemma send_failure_handling_witness :
  (exists st',
      Worklet.sendAudioChunk full_scale_block worklet_closing = Normal st'
      /\ Worklet.isConnected st' = false
      /\ logOf (Worklet.trace st')
         = logOf (Worklet.trace worklet_closing) ++ [Disconnected_entry])
  /\ (exists st',
         Worklet.sendAudioChunk full_scale_block worklet_flaky = Normal st'
         /\ Worklet.isConnected st' = true
         /\ consoleOf (Worklet.trace st')
            = consoleOf (Worklet.trace worklet_flaky)
                ++ [(console_warn, "Send error:")]).
Proof.
  split.
  - destruct (proj1 send_failure_handling full_scale_block worklet_closing
                session_closing
                (Error "WebSocket is already in CLOSING or CLOSED state."))
      as [st' [E [A [_ [_ [L _]]]]]];
      try reflexivity; try discriminate.
    exists st'. auto.
  - destruct (proj1 (proj2 send_failure_handling) full_scale_block
                worklet_flaky session_flaky (Error "Payload too large"))
      as [st' [E [A [_ [_ [_ C]]]]]];
      try reflexivity.
    exists st'. auto.
Defined.

(** C9, counterexample.  A send rejected because the transport is
    closing does leave a log entry in the AudioWorklet service; and
    a send that fails for another reason leaves no warning at all in the
    ScriptProcessor service. *)
Lemma send_failure_not_as_claimed :
  (exists st',
      Worklet.sendAudioChunk full_scale_block worklet_closing = Normal st'
      /\ logOf (Worklet.trace st')
         = logOf (Worklet.trace worklet_closing) ++ [Disconnected_entry]
      /\ logOf (Worklet.trace st') <> logOf (Worklet.trace worklet_closing))
  /\ (exists st',
         Script.onaudioprocess full_scale_block script_flaky = Normal st'
         /\ sentOf (Script.trace st') <> sentOf (Script.trace script_flaky)
         /\ Script.sessionPromise script_flaky
            = Some (Script.Fulfilled session_flaky)
         /\ logOf (Script.trace st') = logOf (Script.trace script_flaky)
         /\ consoleOf (Script.trace st') = [] ).
Proof.
  split.
  - eexists. split; [reflexivity |]. split; [reflexivity | discriminate].
  - eexists. split; [reflexivity |]. split; [| split; [| split]];
      try reflexivity.
    vm_compute. discriminate.
Qed.


(* ================================================================== *)
(** * Further properties of the code *)

(** ** The base64 text encoding *)

Section Base64Facts.
Import Base64.

Lemma list_ind3 (A : Type) (P : list A -> Prop) :
  P [] ->
  (forall a, P [a]) ->
  (forall a b, P [a; b]) ->
  (forall a b c rest, P rest -> P (a :: b :: c :: rest)) ->
  forall l, P l.
Proof.
  intros H0 H1 H2 H3. fix IH 1.
  intros [| a [| b [| c rest]]].
  - exact H0.
  - apply H1.
  - apply H2.
  - apply H3, IH.
Qed.

Lemma small_cases (P : Z -> Prop) (n : Z) :
  0 <= n < 64 ->
  (forall k : nat, (k < 64)%nat -> P (Z.of_nat k)) -> P n.
Proof.
  intros Hn H. rewrite <- (Z2Nat.id n) by lia. apply H. lia.
Qed.

Lemma decodeChar_encodeSextet (n : Z) :
  0 <= n < 64 -> decodeChar (encodeSextet n) = Some n.
Proof.
  intros Hn.
  apply (small_cases (fun n => decodeChar (encodeSextet n) = Some n) n Hn).
  intros k Hk.
  do 64 (destruct k as [| k]; [reflexivity |]). lia.
Qed.

Lemma encodeSextet_plain (n : Z) :
  0 <= n < 64 ->
  isWhitespace (encodeSextet n) = false
  /\ Ascii.eqb (encodeSextet n) equalsSign = false.
Proof.
  intros Hn.
  apply (small_cases
           (fun n => isWhitespace (encodeSextet n) = false
                     /\ Ascii.eqb (encodeSextet n) equalsSign = false) n Hn).
  intros k Hk.
  do 64 (destruct k as [| k]; [split; reflexivity |]). lia.
Qed.

Lemma sextets_range (bytes : list Z) :
  Forall (fun b => 0 <= b <= 255) bytes ->
  Forall (fun s => 0 <= s < 64) (sextets bytes).
Proof.
  induction bytes as [| a | a b | a b c rest IH] using list_ind3;
    intros H; cbn [sextets].
  - constructor.
  - inversion H as [| ? ? Ha _]; subst.
    repeat constructor; Z.div_mod_to_equations; lia.
  - inversion H as [| ? ? Ha H']; subst.
    inversion H' as [| ? ? Hb _]; subst.
    repeat constructor; Z.div_mod_to_equations; lia.
  - inversion H as [| ? ? Ha H']; subst.
    inversion H' as [| ? ? Hb H'']; subst.
    inversion H'' as [| ? ? Hc Hrest]; subst.
    repeat (constructor; [Z.div_mod_to_equations; lia |]).
    now apply IH.
Qed.

Lemma bytesOfSextets_sextets (bytes : list Z) :
  Forall (fun b => 0 <= b <= 255) bytes ->
  bytesOfSextets (sextets bytes) = bytes.
Proof.
  induction bytes as [| a | a b | a b c rest IH] using list_ind3;
    intros H; cbn [sextets bytesOfSextets app].
  - reflexivity.
  - inversion H as [| ? ? Ha _]; subst.
    f_equal. Z.div_mod_to_equations. lia.
  - inversion H as [| ? ? Ha H']; subst.
    inversion H' as [| ? ? Hb _]; subst.
    f_equal; [| f_equal]; Z.div_mod_to_equations; lia.
  - inversion H as [| ? ? Ha H']; subst.
    inversion H' as [| ? ? Hb H'']; subst.
    inversion H'' as [| ? ? Hc Hrest]; subst.
    rewrite (IH Hrest).
    f_equal; [| f_equal; [| f_equal]]; Z.div_mod_to_equations; lia.
Qed.

Lemma decodeChars_encoded (l : list Z) :
  Forall (fun s => 0 <= s < 64) l ->
  decodeChars (map encodeSextet l) = Some l.
Proof.
  induction 1 as [| s rest Hs Hrest IH]; [reflexivity |].
  cbn [map decodeChars]. now rewrite (decodeChar_encodeSextet s Hs), IH.
Qed.

Lemma filter_encoded (l : list Z) (pad : list ascii) :
  Forall (fun s => 0 <= s < 64) l ->
  Forall (fun c => c = equalsSign) pad ->
  filter (fun c => negb (isWhitespace c)) (map encodeSextet l ++ pad)
  = map encodeSextet l ++ pad.
Proof.
  intros Hl Hp. apply forallb_filter_id. rewrite forallb_app.
  apply andb_true_intro. split; apply forallb_forall; intros c Hc.
  - apply in_map_iff in Hc. destruct Hc as [s [<- Hs]].
    rewrite Forall_forall in Hl.
    now rewrite (proj1 (encodeSextet_plain s (Hl s Hs))).
  - rewrite Forall_forall in Hp. now rewrite (Hp c Hc).
Qed.

(** The shape of an encoding: a body of 0, 2 or 3 characters beyond
    whole groups of four, and the padding that completes the last group. *)
Lemma encoding_shape (bytes : list Z) :
  exists k : nat,
    (List.length (sextets bytes) + List.length (padding bytes) = 4 * k)%nat
    /\ (List.length bytes <= 3 * k < List.length bytes + 3)%nat
    /\ (padding bytes = []
        \/ padding bytes = [equalsSign]
           /\ (List.length (sextets bytes) mod 4 = 3)%nat
        \/ padding bytes = [equalsSign; equalsSign]
           /\ (List.length (sextets bytes) mod 4 = 2)%nat).
Proof.
  induction bytes as [| a | a b | a b c rest IH] using list_ind3.
  - exists 0%nat. cbn. repeat split; auto; lia.
  - exists 1%nat. cbn. repeat split; auto; lia.
  - exists 1%nat. cbn. repeat split; auto; lia.
  - destruct IH as [k [E [B Sh]]]. exists (S k).
    cbn [sextets padding List.length app]. repeat split; try lia.
    replace (S (S (S (S (List.length (sextets rest))))))
      with (List.length (sextets rest) + 1 * 4)%nat by lia.
    rewrite Nat.Div0.mod_add. exact Sh.
Qed.

Lemma strip_padding_encoded (l : list Z) (pad : list ascii) :
  Forall (fun s => 0 <= s < 64) l ->
  pad = [] \/ pad = [equalsSign] \/ pad = [equalsSign; equalsSign] ->
  strip_padding (map encodeSextet l ++ pad) = map encodeSextet l.
Proof.
  intros Hl Hpad.
  assert (forall s rest, rev (map encodeSextet l) = s :: rest ->
                         Ascii.eqb s equalsSign = false) as Hhead.
  { intros s rest E.
    assert (In s (rev (map encodeSextet l))) as Hin by (rewrite E; now left).
    apply in_rev, in_map_iff in Hin. destruct Hin as [n [<- Hn]].
    rewrite Forall_forall in Hl. apply (encodeSextet_plain n (Hl n Hn)). }
  pose proof (rev_involutive (map encodeSextet l)) as Hrev.
  remember (map encodeSextet l) as body eqn:Hbody. clear Hbody Hl.
  remember (rev body) as r eqn:Hr.
  unfold strip_padding. rewrite rev_app_distr, <- Hr.
  destruct Hpad as [-> | [-> | ->]]; cbn [rev app].
  - rewrite app_nil_r.
    destruct r as [| x [| y rest]]; try reflexivity;
      now rewrite (Hhead _ _ eq_refl).
  - destruct r as [| y rest].
    + now rewrite Ascii.eqb_refl, <- Hrev.
    + now rewrite Ascii.eqb_refl, (Hhead _ _ eq_refl).
  - now rewrite !Ascii.eqb_refl.
Qed.

Lemma charCodes_fromCharCodes (bytes : list Z) :
  Forall (fun b => 0 <= b <= 255) bytes ->
  charCodes (fromCharCodes bytes) = bytes.
Proof.
  intros H. unfold charCodes, fromCharCodes.
  rewrite list_ascii_of_string_of_list_ascii, map_map.
  induction H as [| b rest Hb Hrest IH]; [reflexivity |].
  cbn [map]. rewrite IH. f_equal.
  rewrite N_ascii_embedding by lia. lia.
Qed.

Lemma string_length_of_list (l : list ascii) :
  String.length (string_of_list_ascii l) = List.length l.
Proof. induction l as [| c rest IH]; [reflexivity |]. cbn. now rewrite IH. Qed.

Lemma encodeSextet_alphabet (n : Z) : In (encodeSextet n) alphabet.
Proof.
  unfold encodeSextet.
  destruct (Nat.lt_ge_cases (Z.to_nat n) (List.length alphabet)) as [L | G].
  - now apply nth_In.
  - rewrite nth_overflow by exact G. cbn. now left.
Qed.

Lemma strip_padding_keeps (data : list ascii) (c : ascii) :
  In c data -> c <> equalsSign -> In c (strip_padding data).
Proof.
  intros Hin Hne. unfold strip_padding.
  pose proof (proj1 (in_rev data c) Hin) as Hrev.
  destruct (rev data) as [| x [| y rest]]; [exact Hin | |].
  - destruct (Ascii.eqb x equalsSign) eqn:E; [| exact Hin].
    apply Ascii.eqb_eq in E. destruct Hrev as [-> | []]. contradiction.
  - destruct (Ascii.eqb x equalsSign) eqn:E; [| exact Hin].
    apply Ascii.eqb_eq in E.
    destruct Hrev as [-> | Hrev]; [contradiction |].
    destruct (Ascii.eqb y equalsSign) eqn:E'.
    + apply Ascii.eqb_eq in E'.
      destruct Hrev as [-> | Hrev]; [contradiction |].
      now apply -> in_rev.
    + now apply -> in_rev.
Qed.

Lemma decodeChars_foreign (data : list ascii) (c : ascii) :
  In c data -> decodeChar c = None -> decodeChars data = None.
Proof.
  intros Hin Hd. induction data as [| x rest IH]; [destruct Hin |].
  cbn [decodeChars]. destruct Hin as [-> | Hin].
  - now rewrite Hd.
  - rewrite (IH Hin). now destruct (decodeChar x).
Qed.


Lemma base64_roundtrip_bytes (buffer : Audio.ArrayBuffer) :
  Forall (fun b => 0 <= b <= 255) buffer ->
  base64ToUint8Array (arrayBufferToBase64 buffer) = Some buffer.
Proof.
  intros H.
  unfold base64ToUint8Array, arrayBufferToBase64, btoa,
    atob.
  rewrite (charCodes_fromCharCodes buffer H).
  rewrite list_ascii_of_string_of_list_ascii.
  pose proof (sextets_range buffer H) as Hs.
  destruct (encoding_shape buffer) as [k [E [_ Sh]]].
  assert (Forall (fun c => c = equalsSign) (padding buffer)) as Hp.
  { destruct Sh as [-> | [[-> _] | [-> _]]]; repeat constructor. }
  rewrite (filter_encoded _ _ Hs Hp).
  assert ((List.length (map encodeSextet (sextets buffer)
                          ++ padding buffer) mod 4 =? 0)%nat = true)
    as ->.
  { rewrite length_app, length_map, E, Nat.mul_comm, Nat.Div0.mod_mul.
    reflexivity. }
  rewrite strip_padding_encoded; [| exact Hs |].
  2:{ destruct Sh as [-> | [[-> _] | [-> _]]]; auto. }
  rewrite length_map.
  assert ((List.length (sextets buffer) mod 4 =? 1)%nat = false) as ->.
  { apply Nat.eqb_neq.
    destruct Sh as [Sh | [[Sh M] | [Sh M]]]; [| lia | lia].
    rewrite Sh in E. cbn [List.length] in E. rewrite Nat.add_0_r in E.
    rewrite E, Nat.mul_comm, Nat.Div0.mod_mul. discriminate. }
  rewrite (decodeChars_encoded _ Hs), (bytesOfSextets_sextets _ H).
  now rewrite (charCodes_fromCharCodes buffer H).
Qed.

End Base64Facts.

(** X1.  Decoding the base64 text of a buffer gives the buffer back:
    [base64ToUint8Array (arrayBufferToBase64 buffer)] returns the bytes of
    [buffer], for every buffer. *)
Theorem base64_roundtrip (buffer : Audio.ArrayBuffer) :
  Forall (fun b => 0 <= b <= 255) buffer ->
  Base64.base64ToUint8Array (Base64.arrayBufferToBase64 buffer) = Some buffer.
Proof. apply base64_roundtrip_bytes. Qed.

(** Witness for X1: four bytes, the last group padded. *)
Lemma base64_roundtrip_witness :
  Base64.arrayBufferToBase64 [255; 254; 0; 1] = "//4AAQ=="
  /\ Base64.base64ToUint8Array (Base64.arrayBufferToBase64 [255; 254; 0; 1])
     = Some [255; 254; 0; 1].
Proof.
  split; [reflexivity |].
  apply (base64_roundtrip [255; 254; 0; 1]).
  repeat constructor; lia.
Defined.

(** X2.  The base64 text of a buffer of n bytes has 4 * ceil(n / 3)
    characters, each a character of the base64 alphabet or [=]. *)
Theorem base64_length_alphabet (buffer : Audio.ArrayBuffer) :
  String.length (Base64.arrayBufferToBase64 buffer)
    = (4 * ((List.length buffer + 2) / 3))%nat
  /\ Forall (fun c => In c Base64.alphabet \/ c = Base64.equalsSign)
       (list_ascii_of_string (Base64.arrayBufferToBase64 buffer)).
Proof.
  unfold Base64.arrayBufferToBase64, Base64.btoa.
  set (bytes := Base64.charCodes (Base64.fromCharCodes buffer)).
  assert (List.length bytes = List.length buffer) as Hlen.
  { unfold bytes, Base64.charCodes, Base64.fromCharCodes.
    now rewrite list_ascii_of_string_of_list_ascii, !length_map. }
  split.
  - rewrite string_length_of_list, length_app, length_map.
    destruct (encoding_shape bytes) as [k [E [B _]]].
    rewrite E, <- Hlen. f_equal.
    apply Nat.div_unique with (r := (List.length bytes + 2 - 3 * k)%nat); lia.
  - rewrite list_ascii_of_string_of_list_ascii. apply Forall_app. split.
    + apply Forall_forall. intros c Hc. left.
      apply in_map_iff in Hc. destruct Hc as [n [<- _]].
      apply encodeSextet_alphabet.
    + destruct (encoding_shape bytes) as [k [_ [_ Sh]]].
      destruct Sh as [-> | [[-> _] | [-> _]]];
        repeat (apply Forall_cons; [now right |]); apply Forall_nil.
Qed.

(** X3.  A base64 text that holds a character which is neither
    whitespace, nor of the alphabet, nor [=] is refused:
    [base64ToUint8Array] throws. *)
Theorem base64_rejects_foreign (base64 : string) (c : ascii) :
  In c (list_ascii_of_string base64) ->
  Base64.isWhitespace c = false ->
  Base64.decodeChar c = None ->
  c <> Base64.equalsSign ->
  Base64.base64ToUint8Array base64 = None.
Proof.
  intros Hin Hw Hd Heq.
  unfold Base64.base64ToUint8Array, Base64.atob.
  set (data := filter _ _).
  assert (In c data) as Hdata.
  { apply filter_In. split; [exact Hin | now rewrite Hw]. }
  set (data' := if (List.length data mod 4 =? 0)%nat then _ else _).
  assert (In c data') as Hdata'.
  { unfold data'. destruct (List.length data mod 4 =? 0)%nat;
      [now apply strip_padding_keeps | exact Hdata]. }
  destruct (List.length data' mod 4 =? 1)%nat; [reflexivity |].
  now rewrite (decodeChars_foreign data' c Hdata' Hd).
Qed.

(** Witness for X3: an exclamation mark among base64 characters. *)
Lemma base64_rejects_foreign_witness :
  Base64.base64ToUint8Array "T!Fu" = None.
Proof.
  apply (base64_rejects_foreign "T!Fu" "!"%char).
  - cbn. tauto.
  - reflexivity.
  - reflexivity.
  - discriminate.
Defined.

(** ** The PCM codec, continued *)

Section PcmFacts.
Import Audio.

Lemma list_ind2 (A : Type) (P : list A -> Prop) :
  P [] ->
  (forall a, P [a]) ->
  (forall a b rest, P rest -> P (a :: b :: rest)) ->
  forall l, P l.
Proof.
  intros H0 H1 H2. fix IH 1.
  intros [| a [| b rest]].
  - exact H0.
  - apply H1.
  - apply H2, IH.
Qed.

Lemma Int16Array_length (pcmData : ArrayBuffer) (l : list Z) :
  Int16Array pcmData = Some l ->
  List.length pcmData = (2 * List.length l)%nat.
Proof.
  revert l.
  induction pcmData as [| a | a b rest IH] using list_ind2; intros l E.
  - injection E as <-. reflexivity.
  - discriminate.
  - cbn [Int16Array] in E.
    destruct (Int16Array rest) as [l' |]; [| discriminate].
    injection E as <-. cbn [List.length]. rewrite (IH l' eq_refl). lia.
Qed.

Lemma Int16Array_odd (pcmData : ArrayBuffer) :
  Int16Array pcmData = None <-> Nat.Odd (List.length pcmData).
Proof.
  induction pcmData as [| a | a b rest IH] using list_ind2.
  - split; [discriminate |]. intros [k Hk]. cbn in Hk. lia.
  - split; [| reflexivity]. intros _. exists 0%nat. reflexivity.
  - cbn [Int16Array List.length].
    destruct (Int16Array rest) as [l |].
    + split; [discriminate |]. intros [k Hk].
      assert (Nat.Odd (List.length rest)) as O by (exists (k - 1)%nat; lia).
      apply IH in O. discriminate.
    + split; [| reflexivity]. intros _.
      destruct (proj1 IH eq_refl) as [k Hk]. exists (S k). lia.
Qed.

Lemma int16_of_bytes_range (lo hi : Z) :
  0 <= lo <= 255 -> 0 <= hi <= 255 ->
  -32768 <= int16_of_bytes lo hi <= 32767.
Proof.
  intros Hlo Hhi. unfold int16_of_bytes.
  destruct (32768 <=? lo + 256 * hi) eqn:E;
    [apply Z.leb_le in E | apply Z.leb_gt in E]; lia.
Qed.

Lemma Int16Array_range (pcmData : ArrayBuffer) (l : list Z) :
  Forall (fun b => 0 <= b <= 255) pcmData ->
  Int16Array pcmData = Some l ->
  Forall (fun w => -32768 <= w <= 32767) l.
Proof.
  revert l.
  induction pcmData as [| a | a b rest IH] using list_ind2; intros l H E.
  - injection E as <-. constructor.
  - discriminate.
  - cbn [Int16Array] in E.
    destruct (Int16Array rest) as [l' |]; [| discriminate].
    injection E as <-.
    inversion H as [| ? ? Ha H']; subst. inversion H' as [| ? ? Hb Hr]; subst.
    constructor; [now apply int16_of_bytes_range | now apply IH].
Qed.


Lemma truncate_inject_Z (w : Z) : truncate (inject_Z w) = w.
Proof. unfold truncate. cbn. apply Z.quot_1_r. Qed.

Lemma truncate_mono (p q : Q) : (p <= q)%Q -> truncate p <= truncate q.
Proof.
  intros H.
  destruct (Qlt_le_dec q 0) as [Hq | Hq].
  - rewrite (truncate_nonpos p), (truncate_nonpos q) by lra.
    now apply Qceiling_resp_le.
  - destruct (Qlt_le_dec p 0) as [Hp | Hp].
    + destruct (truncate_ceiling_bounds p) as [A B]; [lra |].
      destruct (truncate_floor_bounds q Hq) as [C D].
      assert (inject_Z (truncate p) < inject_Z 1)%Q as L
        by (change (inject_Z 1) with 1%Q; lra).
      assert (inject_Z (-1) < inject_Z (truncate q))%Q as L'
        by (change (inject_Z (-1)) with (-1)%Q; lra).
      apply inject_Z_lt_inv in L, L'. lia.
    + rewrite (truncate_nonneg p), (truncate_nonneg q) by lra.
      now apply Qfloor_resp_le.
Qed.

Lemma clamped_sample_mono (x y : Q) :
  (x <= y)%Q -> clamped_sample (Fin x) <= clamped_sample (Fin y).
Proof.
  intros H.
  pose proof (clamped_sample_range (Fin x)) as Rx.
  pose proof (clamped_sample_range (Fin y)) as Ry.
  unfold clamped_sample in *.
  destruct (Qlt_le_dec x (-1)) as [X1 | X1]; [lia |].
  destruct (Qlt_le_dec y (-1)) as [Y1 | Y1]; [lra |].
  destruct (Qlt_le_dec 1 y) as [Y2 | Y2]; [lia |].
  destruct (Qlt_le_dec 1 x) as [X2 | X2]; [lra |].
  destruct (Qlt_le_dec x 0) as [X3 | X3], (Qlt_le_dec y 0) as [Y3 | Y3].
  - apply truncate_mono. nra.
  - assert (truncate (x * 32768) <= truncate 0) as A
      by (apply truncate_mono; nra).
    assert (truncate 0 <= truncate (y * 32767)) as B
      by (apply truncate_mono; nra).
    lia.
  - lra.
  - apply truncate_mono. nra.
Qed.

End PcmFacts.

(** X4.  [pcmToAudioBuffer] throws exactly on the empty buffer, on a
    buffer with an odd number of bytes, and at a sample rate that the
    context does not support; otherwise the [AudioBuffer] holds one frame
    for every two bytes, at the sample rate asked for.  At a rate the
    context supports, as 24000 is for every context within the bounds of
    the Web Audio API, it is [Audio.pcmToAudioBuffer]. *)
Theorem pcmToAudioBuffer_defined (audioContext : Audio.AudioContext)
  (pcmData : Audio.ArrayBuffer) (sampleRate : Z) :
  (Audio.pcmToAudioBufferOn audioContext pcmData sampleRate = None
   <-> pcmData = [] \/ Nat.Odd (List.length pcmData)
       \/ Audio.acceptsRate audioContext sampleRate = false)
  /\ (forall b,
        Audio.pcmToAudioBufferOn audioContext pcmData sampleRate = Some b ->
        List.length pcmData = (2 * Audio.frameCount b)%nat
        /\ List.length (Audio.channelData b) = Audio.frameCount b
        /\ (0 < Audio.frameCount b)%nat
        /\ Audio.bufferRate b = sampleRate
        /\ Audio.acceptsRate audioContext sampleRate = true)
  /\ (Audio.acceptsRate audioContext sampleRate = true ->
      Audio.pcmToAudioBufferOn audioContext pcmData sampleRate
      = Audio.pcmToAudioBuffer pcmData sampleRate)
  /\ (Audio.standardContext audioContext ->
      Audio.pcmToAudioBufferOn audioContext pcmData 24000
      = Audio.pcmToAudioBuffer pcmData 24000).
Proof.
  assert (forall rate,
             Audio.acceptsRate audioContext rate = true ->
             Audio.pcmToAudioBufferOn audioContext pcmData rate
             = Audio.pcmToAudioBuffer pcmData rate) as Hsame.
  { intros rate Hr. unfold Audio.pcmToAudioBufferOn, Audio.pcmToAudioBuffer.
    rewrite Hr. now destruct (Audio.Int16Array pcmData). }
  split; [| split; [| split]].
  - unfold Audio.pcmToAudioBufferOn, Audio.pcmToAudioBuffer.
    destruct (Audio.Int16Array pcmData) as [l |] eqn:E.
    + pose proof (Int16Array_length pcmData l E) as L.
      destruct (Audio.acceptsRate audioContext sampleRate) eqn:Hr.
      * destruct l as [| w l].
        -- split; [| reflexivity]. intros _. left.
           now apply length_zero_iff_nil.
        -- split; [discriminate |].
           intros [-> | [O | F]]; [discriminate | | discriminate].
           apply Int16Array_odd in O. congruence.
      * split; [| reflexivity]. intros _. right. now right.
    + split; [| reflexivity]. intros _. right. left.
      now apply Int16Array_odd.
  - intros b E.
    destruct (Audio.acceptsRate audioContext sampleRate) eqn:Hr.
    + rewrite (Hsame _ Hr) in E. unfold Audio.pcmToAudioBuffer in E.
      destruct (Audio.Int16Array pcmData) as [l |] eqn:E'; [| discriminate].
      pose proof (Int16Array_length pcmData l E') as L.
      destruct l as [| w l]; [discriminate |].
      injection E as <-.
      cbn [Audio.frameCount Audio.channelData Audio.bufferRate].
      repeat split;
        [exact L | cbn [List.length]; now rewrite length_map | cbn; lia].
    + unfold Audio.pcmToAudioBufferOn in E. rewrite Hr in E.
      now destruct (Audio.Int16Array pcmData).
  - apply Hsame.
  - intros [Hstd _]. apply Hsame. apply Hstd. lia.
Qed.

(** Witness for X4: on a context that supports the rates from 8000 to
    96000 and no other, three bytes are refused, four bytes give two
    frames at 24000 and are refused at the rate 0. *)
Lemma pcmToAudioBuffer_defined_witness :
  Audio.standardContext narrowContext
  /\ Audio.pcmToAudioBufferOn narrowContext [0; 64; 0] 24000 = None
  /\ Audio.pcmToAudioBufferOn narrowContext two_frames 0 = None
  /\ exists b, Audio.pcmToAudioBufferOn narrowContext two_frames 24000 = Some b
               /\ Audio.frameCount b = 2%nat.
Proof.
  split; [| split; [| split]].
  - split; intros rate Hr; cbn [Audio.acceptsRate narrowContext].
    + apply andb_true_intro. split; apply Z.leb_le; lia.
    + apply andb_false_intro1. apply Z.leb_gt. lia.
  - apply (proj1 (pcmToAudioBuffer_defined narrowContext [0; 64; 0] 24000)).
    right. left. exists 1%nat. reflexivity.
  - apply (proj1 (pcmToAudioBuffer_defined narrowContext two_frames 0)).
    right. right. reflexivity.
  - eexists. split; [reflexivity |].
    destruct (proj1 (proj2 (pcmToAudioBuffer_defined narrowContext
                              two_frames 24000))
                _ eq_refl) as [L _].
    cbn in L. cbn. lia.
Defined.

(** X5.  Every sample of a decoded buffer lies in [-1, 32767/32768]: -1 is
    reached, +1 never. *)
Theorem decoded_samples_range (pcmData : Audio.ArrayBuffer) (sampleRate : Z)
  (b : Audio.AudioBuffer) :
  Forall (fun x => 0 <= x <= 255) pcmData ->
  Audio.pcmToAudioBuffer pcmData sampleRate = Some b ->
  Forall (fun v => (-1 <= v <= 32767 # 32768)%Q) (Audio.channelData b).
Proof.
  intros H E. unfold Audio.pcmToAudioBuffer in E.
  destruct (Audio.Int16Array pcmData) as [l |] eqn:E'; [| discriminate].
  pose proof (Int16Array_range pcmData l H E') as R.
  destruct l as [| w l]; [discriminate |].
  injection E as <-. cbn [Audio.channelData].
  apply Forall_forall. intros v Hv.
  change (In v (map (fun v => (inject_Z v / 32768)%Q) (w :: l))) in Hv.
  apply in_map_iff in Hv.
  destruct Hv as [x [<- Hx]].
  rewrite Forall_forall in R. specialize (R x Hx).
  assert (inject_Z (-32768) <= inject_Z x <= inject_Z 32767)%Q as [A B]
    by (split; rewrite <- Zle_Qle; lia).
  change (inject_Z (-32768)) with (-32768)%Q in A.
  change (inject_Z 32767) with 32767%Q in B.
  split.
  - apply Qle_shift_div_l; lra.
  - apply Qle_shift_div_r; lra.
Qed.

(** Witness for X5: the most negative and the most positive 16-bit
    values. *)
Lemma decoded_samples_range_witness :
  exists b, Audio.pcmToAudioBuffer [0; 128; 255; 127] 24000 = Some b
            /\ Audio.channelData b = [(-32768 / 32768)%Q; (32767 / 32768)%Q]
            /\ Forall (fun v => (-1 <= v <= 32767 # 32768)%Q)
                 (Audio.channelData b).
Proof.
  eexists. split; [reflexivity |]. split; [reflexivity |].
  apply (decoded_samples_range [0; 128; 255; 127] 24000 _).
  - repeat constructor; lia.
  - reflexivity.
Defined.



(** X7.  Encoding a decoded sample again does not give the 16-bit value
    back when it is positive: w / 32768 is stored as w - 1; zero and the
    negative values are kept. *)
Theorem reencode_drift (w : Z) :
  -32768 <= w <= 32767 ->
  Audio.Int16Array (Audio.float32ToInt16PCM [Fin (inject_Z w / 32768)])
  = Some [if 0 <? w then w - 1 else w].
Proof.
  intros H. rewrite Int16Array_float32ToInt16PCM. cbn [map]. do 2 f_equal.
  assert (inject_Z (-32768) <= inject_Z w <= inject_Z 32767)%Q as [A B]
    by (split; rewrite <- Zle_Qle; lia).
  change (inject_Z (-32768)) with (-32768)%Q in A.
  change (inject_Z 32767) with 32767%Q in B.
  assert (-1 <= inject_Z w / 32768 <= 1)%Q as R.
  { split; [apply Qle_shift_div_l | apply Qle_shift_div_r]; lra. }
  rewrite (clamped_sample_inside _ R).
  destruct (Qlt_le_dec (inject_Z w / 32768) 0) as [Hn | Hp].
  - assert (w < 0) as Hw.
    { apply inject_Z_lt_inv. change (inject_Z 0) with 0%Q.
      apply Qnot_le_lt. intros C.
      assert (0 <= inject_Z w / 32768)%Q by (apply Qle_shift_div_l; lra).
      lra. }
    destruct (0 <? w) eqn:E; [apply Z.ltb_lt in E; lia |].
    rewrite <- (truncate_inject_Z w) at 2. apply truncate_proper. field.
  - assert (0 <= inject_Z w)%Q as Hw'.
    { apply Qnot_lt_le. intros C.
      assert (inject_Z w / 32768 < 0)%Q by (apply Qlt_shift_div_r; lra).
      lra. }
    assert (0 <= w) as Hw
      by (apply inject_Z_le_inv; exact Hw').
    destruct (0 <? w) eqn:E;
      [apply Z.ltb_lt in E | apply Z.ltb_ge in E].
    + set (q := (inject_Z w / 32768 * 32767)%Q).
      assert (q == inject_Z w * (32767 # 32768))%Q as Eq
        by (unfold q; field).
      assert (0 < inject_Z w)%Q as Pos
        by (change 0%Q with (inject_Z 0); rewrite <- Zlt_Qlt; lia).
      destruct (truncate_floor_bounds q) as [L U]; [lra |].
      assert (inject_Z (truncate q) < inject_Z w)%Q as C1 by lra.
      assert (inject_Z w - 1 < inject_Z (truncate q) + 1)%Q as C2 by lra.
      apply inject_Z_lt_inv in C1.
      assert (inject_Z w < inject_Z (truncate q + 2))%Q as C3.
      { rewrite inject_Z_plus. change (inject_Z 2) with 2%Q. lra. }
      apply inject_Z_lt_inv in C3. lia.
    + assert (w = 0) as -> by lia. reflexivity.
Qed.

(** Witness for X7: 16384/32768 = 0.5 is stored as 16383. *)
Lemma reencode_drift_witness :
  Audio.Int16Array (Audio.float32ToInt16PCM [Fin (inject_Z 16384 / 32768)])
  = Some [16383].
Proof. apply (reencode_drift 16384). lia. Defined.

(** X8.  The encoder preserves order: a larger sample is never stored as a
    smaller 16-bit value. *)
Theorem encoder_monotone (x y : Q) :
  (x <= y)%Q ->
  ToInt16 (Audio.scaled (Fin x)) <= ToInt16 (Audio.scaled (Fin y)).
Proof.
  intros H. rewrite !ToInt16_scaled. now apply clamped_sample_mono.
Qed.

(** Witness for X8: -0.25 and 0.75. *)
Lemma encoder_monotone_witness :
  ToInt16 (Audio.scaled (Fin (-1 # 4))) <= ToInt16 (Audio.scaled (Fin (3 # 4))).
Proof. apply (encoder_monotone (-1 # 4) (3 # 4)). discriminate. Defined.

(** ** The ScriptProcessor service, continued *)

Module ScriptMore.
Import Script ScriptFacts.

Lemma next_outcome_id (s : LiveSession) :
  sessionId (snd (next_outcome s)) = sessionId s.
Proof. unfold next_outcome. now destruct (sendOutcomes s). Qed.

Lemma sentOf_sends (i : nat) (q : list Outbound) :
  sentOf (map (Send i) q) = map (fun m => (i, m)) q.
Proof.
  induction q as [| m rest IH]; [reflexivity |]. cbn. f_equal. exact IH.
Qed.

Lemma emit_console_frame (l : ConsoleLevel) (text : string) (st : Session) :
  toolResponsesOf (trace (emit (Console l text) st))
  = toolResponsesOf (trace st)
  /\ pending (emit (Console l text) st) = pending st
  /\ startsOf (trace (emit (Console l text) st)) = startsOf (trace st)
  /\ nextStartTime (emit (Console l text) st) = nextStartTime st
  /\ consoleOf (trace (emit (Console l text) st))
     = consoleOf (trace st) ++ [(l, text)].
Proof.
  unpack st. cbn.
  rewrite toolResponsesOf_app, startsOf_app, consoleOf_app. cbn.
  rewrite !app_nil_r. repeat split; reflexivity.
Qed.

(** The callbacks of a fulfilled promise on a connected session: each
    hands its message to the session object. *)
Lemma run_thens_live (q : list Outbound) :
  forall (st : Session) (s : LiveSession),
    isConnected st = true ->
    sessionPromise st = Some (Fulfilled s) ->
    exists s',
      sessionId s' = sessionId s
      /\ run_thens q st
         = set_sessionPromise (Some (Fulfilled s'))
             (set_trace (trace st ++ map (Send (sessionId s)) q) st).
Proof.
  induction q as [| m rest IH]; intros st s Hc Hs.
  - exists s. split; [reflexivity |]. cbn. rewrite app_nil_r.
    unpack st. cbn in *. now subst.
  - cbn [run_thens]. rewrite Hs. unfold then_callback. rewrite Hc.
    destruct (next_outcome s) as [o s1] eqn:En.
    assert (sessionId s1 = sessionId s) as Hid.
    { pose proof (next_outcome_id s) as H. now rewrite En in H. }
    match goal with |- context [run_thens rest ?x] =>
      destruct (IH x s1) as [s' [Hid' E]] end.
    + unpack st. exact Hc.
    + now unpack st.
    + exists s'. split; [congruence |]. rewrite E, Hid.
      unpack st. cbn. now rewrite <- app_assoc.
Qed.

(** Blocks captured while the session promise is pending: each reports
    its loudness, and its send is registered on the promise. *)
Lemma capture_while_pending (blocks : list (list Q)) :
  forall (st : Session) (r : LiveSession + JsError) (q : list Outbound),
    isConnected st = true ->
    sessionPromise st = Some (Pending r q) ->
    exists delta,
      run (map AudioProcess blocks) st
      = set_sessionPromise
          (Some (Pending r
                   (q ++ map (fun b => RealtimeInput "audio/pcm;rate=16000"
                                         (Audio.float32ToInt16PCM (map Fin b)))
                           blocks)))
          (set_trace (trace st ++ delta) st)
      /\ sentOf delta = [].
Proof.
  induction blocks as [| b rest IH]; intros st r q Hc Hs.
  - exists []. cbn. rewrite !app_nil_r. split; [| reflexivity].
    unpack st. cbn in *. now subst.
  - cbn [map run fold_left deliver]. unfold onaudioprocess. rewrite Hc.
    cbn [negb unawaited]. unfold then_send.
    match goal with |- context [emit ?e st] => set (st1 := emit e st) end.
    assert (sessionPromise st1 = Some (Pending r q)) as Hs1
      by (subst st1; now unpack st).
    rewrite Hs1.
    match goal with |- context [fold_left deliver _ ?x] =>
      destruct (IH x r (q ++ [RealtimeInput "audio/pcm;rate=16000"
                                (Audio.float32ToInt16PCM (map Fin b))]))
        as [delta [E Hdelta]] end.
    + subst st1. now unpack st.
    + subst st1. now unpack st.
    + unfold run in E. rewrite E.
      eexists. split.
      * subst st1. unpack st. cbn. rewrite <- !app_assoc. cbn [app].
        reflexivity.
      * cbn. exact Hdelta.
Qed.

(** A prefix of calls that are not searches is answered call by call, and
    the loop goes on with what follows on the session so reached. *)
Lemma runCalls_prefix (now : Q) (a : option Audio.ArrayBuffer)
  (pre : list FunctionCall) :
  forall st : Session,
    live st ->
    Forall (fun fc => fc_name fc <> "google_search") pre ->
    exists st1,
      (forall tail, runCalls now (pre ++ tail) a st = runCalls now tail a st1)
      /\ live st1
      /\ pending st1 = pending st
      /\ nextStartTime st1 = nextStartTime st
      /\ outputAudioContext st1 = outputAudioContext st
      /\ toolResponsesOf (trace st1)
         = toolResponsesOf (trace st) ++ map answer pre
      /\ startsOf (trace st1) = startsOf (trace st)
      /\ consoleOf (trace st1) = consoleOf (trace st).
Proof.
  induction pre as [| fc rest IH]; intros st Hlive Hpre.
  - exists st. cbn. rewrite app_nil_r.
    split; [reflexivity |]. split; [exact Hlive |]. repeat split; reflexivity.
  - inversion Hpre as [| ? ? Hfc Hrest]; subst.
    assert (String.eqb (fc_name fc) "google_search" = false) as E2
      by now apply String.eqb_neq.
    destruct (String.eqb (fc_name fc) "get_financial_profile") eqn:E1.
    + set (st1 := onLog tool (String.append "Retrieved data for: " profile_user)
                    (onLog tool "Accessing secure financial profile..." st)).
      assert (live st1) as L1.
      { destruct Hlive as [Hc [s Hs]]. subst st1. unfold live.
        unpack st. cbn in *. eauto. }
      destruct (then_send_live (respond fc MOCK_FINANCIAL_PROFILE) st1 L1)
        as [L2 [P2 [i T2]]].
      destruct (IH _ L2 Hrest) as [st3 [Hrun [L3 [P3 [N3 [O3 [R3 [S3 C3]]]]]]]].
      exists st3. split.
      { intros tail. cbn [app runCalls]. rewrite E1. apply Hrun. }
      split; [exact L3 |].
      assert (outputAudioContext
                (then_send (respond fc MOCK_FINANCIAL_PROFILE) st1)
              = outputAudioContext st) as O2.
      { unfold then_send, then_callback. subst st1. unpack st. cbn.
        destruct sp as [[r q | s | e] |]; cbn; auto.
        destruct conn; cbn; auto. now destruct (next_outcome s). }
      rewrite P3, N3, O3, R3, S3, C3, P2, then_send_cursor, O2, T2.
      rewrite toolResponsesOf_snoc, startsOf_app, consoleOf_app.
      cbn [map]. rewrite (dispatch_profile fc E1).
      subst st1. unpack st. cbn.
      rewrite !toolResponsesOf_app, !startsOf_app, !consoleOf_app. cbn.
      rewrite !app_nil_r, <- app_assoc. repeat split; reflexivity.
    + destruct (then_send_live (respond fc EmptyObject) st Hlive)
        as [L2 [P2 [i T2]]].
      destruct (IH _ L2 Hrest) as [st3 [Hrun [L3 [P3 [N3 [O3 [R3 [S3 C3]]]]]]]].
      exists st3. split.
      { intros tail. cbn [app runCalls]. rewrite E1, E2. apply Hrun. }
      split; [exact L3 |].
      assert (outputAudioContext (then_send (respond fc EmptyObject) st)
              = outputAudioContext st) as O2.
      { unfold then_send, then_callback. unpack st. cbn.
        destruct sp as [[r q | s | e] |]; cbn; auto.
        destruct conn; cbn; auto. now destruct (next_outcome s). }
      rewrite P3, N3, O3, R3, S3, C3, P2, then_send_cursor, O2, T2.
      rewrite toolResponsesOf_snoc, startsOf_app, consoleOf_app.
      cbn [map]. rewrite (dispatch_unknown fc E1 E2).
      cbn. rewrite !app_nil_r, <- app_assoc. repeat split; reflexivity.
Qed.

Lemma prefix_append (sub post : string) :
  String.prefix sub (String.append sub post) = true.
Proof.
  induction sub as [| c sub IH]; cbn.
  - now destruct post.
  - destruct (ascii_dec c c); [exact IH | congruence].
Qed.

End ScriptMore.

Section ScriptTheorems.
Import Script ScriptFacts ScriptMore.

Lemma includes_infix (pre sub post : string) :
  includes (String.append pre (String.append sub post)) sub = true.
Proof.
  induction pre as [| c pre IH].
  - cbn [String.append]. destruct (String.append sub post) eqn:E;
      cbn [includes]; rewrite <- E, prefix_append; reflexivity.
  - cbn [String.append includes]. rewrite IH. apply orb_true_r.
Qed.

End ScriptTheorems.

(** X9.  ScriptProcessor capture on a live session: every block delivered
    by the node is sent as one message, in capture order, with the bytes
    of its samples; blocks are neither merged nor split. *)
Theorem script_capture_in_order (blocks : list (list Q)) (st : Script.Session) :
  Script.live st ->
  audioBlocksOf
    (Script.trace (Script.run (map Script.AudioProcess blocks) st))
  = audioBlocksOf (Script.trace st)
      ++ map (fun b => Audio.float32ToInt16PCM (map Fin b)) blocks
  /\ Script.live (Script.run (map Script.AudioProcess blocks) st).
Proof.
  revert st. induction blocks as [| b rest IH]; intros st Hlive.
  - cbn. rewrite app_nil_r. auto.
  - destruct Hlive as [Hc [s Hs]].
    cbn [map Script.run fold_left Script.deliver].
    rewrite (ScriptFacts.onaudioprocess_live b st s Hc Hs).
    cbn [unawaited].
    match goal with |- context [fold_left Script.deliver _ ?x] =>
      destruct (IH x) as [A B]; [| unfold Script.run in A, B; rewrite A] end.
    + unfold Script.live. destruct st. cbn in *. eauto.
    + split; [| exact B].
      destruct st. cbn. rewrite !audioBlocksOf_app. cbn.
      now rewrite app_nil_r, <- app_assoc.
Qed.

(** Witness for X9: two blocks of different lengths on the connected
    service. *)
Lemma script_capture_in_order_witness :
  audioBlocksOf
    (Script.trace
       (Script.run (map Script.AudioProcess [[1%Q]; [0%Q; (-1)%Q]])
          script_connected))
  = [[255; 127]; [0; 0; 0; 128]].
Proof.
  refine (eq_trans
            (proj1 (script_capture_in_order [[1%Q]; [0%Q; (-1)%Q]]
                      script_connected _)) _).
  - split; [reflexivity | eexists; reflexivity].
  - reflexivity.
Defined.

(** X10.  Blocks captured while the session promise is still pending are
    not lost: when the promise fulfils they are sent in capture order,
    after what was registered before them; when it rejects, nothing is
    sent. *)
Theorem script_capture_while_connecting (blocks : list (list Q))
  (st : Script.Session) (eventual : LiveSession + JsError)
  (thens : list Outbound) :
  Script.isConnected st = true ->
  Script.sessionPromise st = Some (Script.Pending eventual thens) ->
  sentOf (Script.trace
            (Script.settle (Script.run (map Script.AudioProcess blocks) st)))
  = sentOf (Script.trace st)
      ++ match eventual with
         | inl s =>
             map (fun m => (sessionId s, m))
               (thens
                  ++ map (fun b => RealtimeInput "audio/pcm;rate=16000"
                                     (Audio.float32ToInt16PCM (map Fin b)))
                       blocks)
         | inr _ => []
         end.
Proof.
  intros Hc Hs.
  destruct (ScriptMore.capture_while_pending blocks st eventual thens Hc Hs)
    as [delta [E Hdelta]].
  rewrite E. unfold Script.settle.
  match goal with |- context [Script.sessionPromise ?x] =>
    assert (Script.sessionPromise x = Some (Script.Pending eventual
              (thens ++ map (fun b => RealtimeInput "audio/pcm;rate=16000"
                                        (Audio.float32ToInt16PCM (map Fin b)))
                          blocks))) as -> by now destruct st end.
  destruct eventual as [s | e].
  - match goal with |- context [Script.run_thens ?q ?x] =>
      destruct (ScriptMore.run_thens_live q x s) as [s' [_ R]] end.
    + destruct st. exact Hc.
    + now destruct st.
    + rewrite R. destruct st. cbn.
      rewrite !sentOf_app, Hdelta, app_nil_r. f_equal.
      apply ScriptMore.sentOf_sends.
  - destruct st. cbn. now rewrite sentOf_app, Hdelta, !app_nil_r.
Qed.

(** Witness for X10: one block captured between [onopen] and the
    fulfilment of the promise. *)
Lemma script_capture_while_connecting_witness :
  sentOf (Script.trace
            (Script.settle
               (Script.run (map Script.AudioProcess [[1%Q]])
                  (Script.handleOpen
                     (Script.connect_gotMedia (inl tt) (inl session1)
                        script_connecting)))))
  = [(1%nat, RealtimeInput "audio/pcm;rate=16000" [255; 127])].
Proof.
  refine (eq_trans
            (script_capture_while_connecting [[1%Q]]
               (Script.handleOpen
                  (Script.connect_gotMedia (inl tt) (inl session1)
                     script_connecting))
               (inl session1) [] _ _) _);
    reflexivity.
Defined.

(** X11.  A [google_search] call that carries no [args] object makes
    [handleMessage] throw inside its loop: the calls before it are
    answered, the calls after it get no answer and are not parked, and the
    audio of the same message is not played. *)
Theorem script_search_without_args (now : Q) (pre rest : list FunctionCall)
  (fc : FunctionCall) (a : option Audio.ArrayBuffer) (st : Script.Session) :
  Script.live st ->
  Forall (fun c => fc_name c <> "google_search") pre ->
  fc_name fc = "google_search" ->
  fc_args fc = None ->
  let st' :=
    Script.handleMessage now
      {| toolCall := Some (pre ++ fc :: rest); audioData := a |} st in
  toolResponsesOf (Script.trace st')
  = toolResponsesOf (Script.trace st) ++ map Script.answer pre
  /\ Script.pending st' = Script.pending st
  /\ startsOf (Script.trace st') = startsOf (Script.trace st)
  /\ Script.nextStartTime st' = Script.nextStartTime st
  /\ consoleOf (Script.trace st')
     = consoleOf (Script.trace st)
         ++ [(console_error, "Error processing message:")].
Proof.
  intros Hlive Hpre Hname Hargs. cbv zeta.
  unfold Script.handleMessage. destruct Hlive as [Hc Hs]. rewrite Hc.
  cbn [negb toolCall audioData].
  destruct (ScriptFacts.onLog_live system "Coach requesting data..." st
              (conj Hc Hs)) as [L1 [P1 T1]].
  destruct (ScriptMore.runCalls_prefix now a pre _ L1 Hpre)
    as [st1 [Hrun [L2 [P2 [N2 [O2 [R2 [S2 C2]]]]]]]].
  rewrite Hrun. cbn [Script.runCalls].
  assert (String.eqb (fc_name fc) "get_financial_profile" = false) as ->
    by (rewrite Hname; reflexivity).
  assert (String.eqb (fc_name fc) "google_search" = true) as ->
    by (rewrite Hname; reflexivity).
  rewrite Hargs. cbn [Script.message_catch].
  assert (startsOf (Script.trace
                      (Script.onLog system "Coach requesting data..." st))
          = startsOf (Script.trace st)
          /\ consoleOf (Script.trace
                          (Script.onLog system "Coach requesting data..." st))
             = consoleOf (Script.trace st)
          /\ Script.nextStartTime
               (Script.onLog system "Coach requesting data..." st)
             = Script.nextStartTime st) as [S1 [C1 N1]].
  { destruct st. cbn. rewrite startsOf_app, consoleOf_app. cbn.
    now rewrite !app_nil_r. }
  destruct (ScriptMore.emit_console_frame console_error
              "Error processing message:" st1) as [A [B [C [D E]]]].
  rewrite A, B, C, D, E, R2, T1, S2, S1, C2, C1, P2, P1, N2, N1.
  repeat split; reflexivity.
Qed.

(** Witness for X11: a profile call, a search without arguments, an
    unknown call, and audio. *)
Lemma script_search_without_args_witness :
  toolResponsesOf
    (Script.trace
       (Script.handleMessage 0
          {| toolCall :=
               Some ([profileCall]
                       ++ {| fc_id := "call-9"; fc_name := "google_search";
                             fc_args := None |} :: [unknownCall]);
             audioData := Some two_frames |} script_connected))
  = [Script.answer profileCall]
  /\ startsOf
       (Script.trace
          (Script.handleMessage 0
             {| toolCall :=
                  Some ([profileCall]
                          ++ {| fc_id := "call-9"; fc_name := "google_search";
                                fc_args := None |} :: [unknownCall]);
                audioData := Some two_frames |} script_connected))
     = [].
Proof.
  destruct (script_search_without_args 0 [profileCall] [unknownCall]
              {| fc_id := "call-9"; fc_name := "google_search";
                 fc_args := None |} (Some two_frames) script_connected)
    as [A [_ [B _]]].
  - split; [reflexivity | eexists; reflexivity].
  - repeat constructor. discriminate.
  - reflexivity.
  - reflexivity.
  - split; [exact A | exact B].
Defined.

(** X12.  A [google_search] call whose [args] hold no [query] is parked
    like any other; when its timer fires the search stub throws, so the
    call and the calls after it get no answer and the audio of the message
    is not played.  The log shows the search as started and never as
    finished. *)
Theorem script_search_without_query (now now' : Q) (rest : list FunctionCall)
  (fc : FunctionCall) (a : option Audio.ArrayBuffer) (st : Script.Session) :
  Script.live st ->
  Script.pending st = [] ->
  fc_name fc = "google_search" ->
  fc_args fc = Some {| query := None |} ->
  let parked :=
    Script.handleMessage now
      {| toolCall := Some (fc :: rest); audioData := a |} st in
  let st' := Script.timer 0 now' parked in
  Script.pending parked
  = [{| Script.call := fc; Script.searchQuery := None;
        Script.remaining := rest; Script.audio := a |}]
  /\ Script.pending st' = []
  /\ sentOf (Script.trace st') = sentOf (Script.trace st)
  /\ startsOf (Script.trace st') = startsOf (Script.trace st)
  /\ logOf (Script.trace st')
     = logOf (Script.trace st)
         ++ [{| type := system; message := "Coach requesting data..." |};
             {| type := tool;
                message := String.append "Searching market info: "
                             (quoted "undefined") |}].
Proof.
  intros [Hc Hs] Hp Hname Hargs. cbv zeta.
  unfold Script.handleMessage. rewrite Hc.
  cbn [negb toolCall audioData Script.runCalls].
  assert (String.eqb (fc_name fc) "get_financial_profile" = false) as ->
    by (rewrite Hname; reflexivity).
  assert (String.eqb (fc_name fc) "google_search" = true) as ->
    by (rewrite Hname; reflexivity).
  rewrite Hargs. cbn [query Script.show_query Script.message_catch].
  destruct st as [ic oc ms pr so nst conn sp pend tr]. cbn in *. subst.
  unfold Script.timer. cbn.
  rewrite !sentOf_app, !startsOf_app, !logOf_app. cbn.
  rewrite !app_nil_r, <- app_assoc. repeat split; reflexivity.
Qed.

(** Witness for X12: a search without a query, followed by an unknown
    call. *)
Lemma script_search_without_query_witness :
  sentOf
    (Script.trace
       (Script.timer 0 1
          (Script.handleMessage 0
             {| toolCall :=
                  Some ({| fc_id := "call-8"; fc_name := "google_search";
                           fc_args := Some {| query := None |} |}
                        :: [unknownCall]);
                audioData := None |} script_connected)))
  = sentOf (Script.trace script_connected).
Proof.
  destruct (script_search_without_query 0 1 [unknownCall]
              {| fc_id := "call-8"; fc_name := "google_search";
                 fc_args := Some {| query := None |} |} None script_connected)
    as [_ [_ [A _]]].
  - split; [reflexivity | eexists; reflexivity].
  - reflexivity.
  - reflexivity.
  - reflexivity.
  - exact A.
Defined.

(** X13.  The search stub of the ScriptProcessor service answers with the
    mortgage-rate text whenever the query, in lower case, holds the letters
    [rate] anywhere, inside a longer word and next to [stock] or [market]
    as well. *)
Theorem search_rate_anywhere (query pre post : string) :
  toLowerCase query = String.append pre (String.append "rate" post) ->
  Script.mockGoogleSearch (Some query)
  = inl "Current 30-year fixed mortgage rates are around 7.2%. Fed interest rates are held steady at 5.25-5.50%.".
Proof.
  intros E. unfold Script.mockGoogleSearch. cbv zeta.
  rewrite E, (includes_infix pre "rate" post), orb_true_r. reflexivity.
Qed.

(** Witness for X13: a query about a stock market strategy. *)
Lemma search_rate_anywhere_witness :
  Script.mockGoogleSearch (Some "Stock market STRATEGY")
  = inl "Current 30-year fixed mortgage rates are around 7.2%. Fed interest rates are held steady at 5.25-5.50%.".
Proof.
  apply (search_rate_anywhere "Stock market STRATEGY" "stock market st" "gy").
  reflexivity.
Defined.

(** X14.  Audio whose byte count is odd is not played: [handleMessage]
    catches the exception of the decoder, writes one console line and
    leaves the session as it was. *)
Theorem odd_audio_dropped (now : Q) (pcmBytes : Audio.ArrayBuffer)
  (st : Script.Session) :
  Script.isConnected st = true ->
  Script.outputAudioContext st <> None ->
  Nat.Odd (List.length pcmBytes) ->
  Script.handleMessage now (audioMessage pcmBytes) st
  = Script.emit (Console console_error "Error processing message:") st.
Proof.
  intros Hc Ho Hodd. unfold Script.handleMessage, audioMessage. rewrite Hc.
  cbn [negb toolCall audioData]. unfold Script.handleAudio.
  destruct pcmBytes as [| x xs].
  { destruct Hodd as [k Hk]. cbn in Hk. lia. }
  destruct (Script.outputAudioContext st); [| congruence].
  unfold Audio.pcmToAudioBuffer.
  now rewrite (proj2 (Int16Array_odd (x :: xs)) Hodd).
Qed.

(** Witness for X14: three bytes. *)
Lemma odd_audio_dropped_witness :
  Script.handleMessage 0 (audioMessage [0; 64; 0]) script_connected
  = Script.emit (Console console_error "Error processing message:")
      script_connected.
Proof.
  apply (odd_audio_dropped 0 [0; 64; 0] script_connected).
  - reflexivity.
  - discriminate.
  - exists 1%nat. reflexivity.
Defined.

(** ** Connecting and failing *)

(** X15.  ScriptProcessor service: when the microphone is refused,
    [connect()] logs the failure and nothing else happens: no status
    change is reported, no "Disconnected." is logged, and the input context
    it has just created stays open, out of reach of [disconnect()], whose
    guard returns at once. *)
Theorem script_microphone_refused (error : JsError)
  (live : LiveSession + JsError) (st : Script.Session) :
  Script.isConnected st = false ->
  Script.sessionPromise st = None ->
  let st' :=
    Script.connect_gotMedia (inr error) live (fst (Script.connect_begin st)) in
  (exists msg,
     Script.trace st'
     = Script.trace st
         ++ [Log {| type := system;
                    message := "Initializing audio context..." |};
             Acquire InputContext;
             Console console_error "Connection failed:";
             Log {| type := system;
                    message := String.append "Connection failed: " msg |}])
  /\ Script.inputAudioContext st' = Some running
  /\ Script.isConnected st' = false
  /\ Script.disconnect st' = st'.
Proof.
  intros Hc Hs. cbv zeta. unfold Script.connect_begin. rewrite Hc.
  cbn [fst Script.connect_gotMedia]. unfold Script.connect_catch.
  cbv zeta.
  match goal with |- context [String.append "Connection failed: " ?m] =>
    set (msg := m) end.
  rewrite ScriptFacts.disconnect_noop;
    [| destruct st; exact Hc | destruct st; exact Hs].
  split; [exists msg |].
  - destruct st. cbn. rewrite <- !app_assoc. reflexivity.
  - destruct st. cbn in *. repeat split; auto.
    apply ScriptFacts.disconnect_noop; assumption.
Qed.

(** Witness for X15: the first [connect()] of a new service. *)
Lemma script_microphone_refused_witness :
  Script.inputAudioContext
    (Script.connect_gotMedia (inr (Error "Permission denied")) (inl session1)
       (fst (Script.connect_begin Script.initial)))
  = Some running
  /\ statusChangesOf
       (Script.trace
          (Script.connect_gotMedia (inr (Error "Permission denied"))
             (inl session1) (fst (Script.connect_begin Script.initial))))
     = [].
Proof.
  split; [| reflexivity].
  apply (script_microphone_refused (Error "Permission denied") (inl session1)
           Script.initial);
    reflexivity.
Defined.

(** X16.  ScriptProcessor service: when the transport refuses the
    session, [connect()] gives back all it took: the microphone and both
    contexts are released, the failure and "Disconnected." are logged, the
    status goes to disconnected, and the service holds nothing. *)
Theorem script_transport_refused (error : JsError) (st : Script.Session) :
  script_released st ->
  let st' :=
    Script.connect_settled
      (Script.connect_gotMedia (inl tt) (inr error)
         (fst (Script.connect_begin st))) in
  script_released st'
  /\ exists msg,
       Script.trace st'
       = Script.trace st
           ++ [Log {| type := system;
                      message := "Initializing audio context..." |};
               Acquire InputContext;
               Acquire Microphone;
               Acquire OutputContext;
               Log {| type := system;
                      message := "Connecting to Gemini Live API..." |};
               Acquire Transport;
               Console console_error "Connection failed:";
               Log {| type := system;
                      message := String.append "Connection failed: " msg |};
               Release Microphone;
               Release InputContext;
               Release OutputContext;
               StatusChange false;
               Log Disconnected_entry].
Proof.
  intros [Hi [Ho [Hm [Hp [Hso [Hc Hs]]]]]]. cbv zeta.
  destruct st as [ic oc ms pr so nst conn sp pend tr]. cbn in *. subst.
  unfold Script.connect_settled, Script.connect_catch. cbn.
  split.
  - unfold script_released. cbn. repeat split; reflexivity.
  - eexists. rewrite <- !app_assoc. reflexivity.
Qed.

(** Witness for X16: the first [connect()] of a new service. *)
Lemma script_transport_refused_witness :
  script_released
    (Script.connect_settled
       (Script.connect_gotMedia (inl tt) (inr (Error "Network unreachable"))
          (fst (Script.connect_begin Script.initial)))).
Proof.
  apply (script_transport_refused (Error "Network unreachable") Script.initial).
  repeat split; reflexivity.
Defined.

(** X17.  AudioWorklet service: a [connect()] that fails, at the worklet
    module, at the microphone or at the transport, ends with the service
    holding nothing: what it had taken is released (the transport apart,
    of which no session was obtained), the status is reported as connected
    and then as disconnected, and the last log entry is "Disconnected.". *)
Theorem worklet_connect_failure (env : Worklet.ConnectEnv)
  (live : LiveSession + JsError) (st : Worklet.Session) :
  worklet_released st ->
  Worklet.newContextState env <> closed ->
  (Worklet.addModule env <> None \/ Worklet.getUserMedia env <> None
   \/ exists error, live = inr error) ->
  let st' := Worklet.connect env live st in
  worklet_released st'
  /\ exists delta,
       Worklet.trace st' = Worklet.trace st ++ delta
       /\ Permutation (releasesOf delta) (local_resources (acquiresOf delta))
       /\ statusChangesOf delta = [true; false]
       /\ last (logOf delta) Disconnected_entry = Disconnected_entry
       /\ sentOf delta = [].
Proof.
  intros [Hi [Ho [Hm [Hw [Hso [Hc Hs]]]]]] Hnew Hfail. cbv zeta.
  destruct st as [ic oc ms wn so nst conn buf idx cs pend tr].
  cbn in Hi, Ho, Hm, Hw, Hso, Hc, Hs. subst.
  destruct env as [ctx am gum]. cbn in Hnew, Hfail.
  unfold Worklet.connect, Worklet.connect_begin.
  cbn [Worklet.isConnected Worklet.addModule Worklet.getUserMedia
       Worklet.newContextState].
  assert (exists c, Worklet.resumed ctx = c /\ c <> closed) as [c [Ec Hcl]].
  { exists (Worklet.resumed ctx). split; [reflexivity |]. now destruct ctx. }
  rewrite Ec.
  destruct am as [e1 |].
  { unfold Worklet.handleConnectionError, Worklet.disconnect,
      Worklet.close_context.
    destruct c; [| | congruence]; cbn; (split; [repeat split; reflexivity |]);
      eexists; (split; [rewrite <- !app_assoc; reflexivity |]);
      cbn; repeat split; reflexivity. }
  destruct gum as [e2 |].
  { unfold Worklet.handleConnectionError, Worklet.disconnect,
      Worklet.close_context.
    destruct c; [| | congruence]; cbn; (split; [repeat split; reflexivity |]);
      eexists; (split; [rewrite <- !app_assoc; reflexivity |]);
      cbn; repeat split; reflexivity. }
  destruct Hfail as [F | [F | [e3 ->]]]; try congruence.
  unfold Worklet.connect_finish, Worklet.handleConnectionError,
    Worklet.disconnect, Worklet.close_context.
  destruct c; [| | congruence]; cbn; (split; [repeat split; reflexivity |]);
    eexists; (split; [rewrite <- !app_assoc; reflexivity |]);
    cbn; repeat split; try reflexivity;
    apply (Permutation_cons_append [InputContext; OutputContext] Microphone).
Qed.

(** Witness for X17: the transport refuses the session of a new
    service. *)
Lemma worklet_connect_failure_witness :
  worklet_released
    (Worklet.connect browser_ok (inr (Error "403 Forbidden")) Worklet.initial)
  /\ statusChangesOf
       (Worklet.trace
          (Worklet.connect browser_ok (inr (Error "403 Forbidden"))
             Worklet.initial))
     = [true; false].
Proof.
  split; [| reflexivity].
  apply (worklet_connect_failure browser_ok (inr (Error "403 Forbidden"))
           Worklet.initial).
  - repeat split; reflexivity.
  - discriminate.
  - right. right. eexists. reflexivity.
Defined.

(** X18.  AudioWorklet service: the successive tests of
    [handleConnectionError] amount to a chain of alternatives.  An error
    that mentions 403 or an API key is logged as an invalid key whatever
    else it mentions; otherwise one that mentions 404 as a missing model;
    otherwise a network failure as such; any other with its own text. *)
Theorem worklet_error_text (error : JsError) (st : Worklet.Session) :
  let text :=
    if String.eqb (error_message error) EmptyString then "Unknown error"
    else error_message error in
  let shown :=
    if includes text "403" || includes text "API key"
    then "Invalid API Key or unauthorized."
    else if includes text "404"
    then "Model not found. Check model name."
    else if includes text "Network Error" || includes text "Failed to fetch"
    then "Network Error: Check internet connection or firewall."
    else text in
  exists rest,
    Worklet.trace (Worklet.handleConnectionError error st)
    = Worklet.trace st
        ++ [Console console_error "Connection failed:";
            Log {| type := system;
                   message := String.append "Connection failed: " shown |};
            StatusChange false]
        ++ rest.
Proof.
  cbv zeta. unfold Worklet.handleConnectionError. cbv zeta.
  set (text := if String.eqb (error_message error) EmptyString
               then "Unknown error" else error_message error).
  set (m1 := if includes text "403" || includes text "API key"
             then "Invalid API Key or unauthorized." else text).
  set (m2 := if includes m1 "404"
             then "Model not found. Check model name." else m1).
  set (m3 := if includes m2 "Network Error" || includes m2 "Failed to fetch"
             then "Network Error: Check internet connection or firewall."
             else m2).
  assert (m3 = if includes text "403" || includes text "API key"
               then "Invalid API Key or unauthorized."
               else if includes text "404"
               then "Model not found. Check model name."
               else if includes text "Network Error"
                       || includes text "Failed to fetch"
               then "Network Error: Check internet connection or firewall."
               else text) as <-.
  { subst m3 m2 m1.
    destruct (includes text "403" || includes text "API key");
      [reflexivity |].
    destruct (includes text "404"); reflexivity. }
  clearbody m3. clear m1 m2.
  unfold Worklet.disconnect, Worklet.close_context.
  destruct st as [ic oc ms wn so nst conn buf idx cs pend tr].
  destruct wn, so, ms, ic as [[| |] |], oc as [[| |] |];
    cbn [Worklet.trace Worklet.emit Worklet.onLog Worklet.set_trace
         Worklet.set_isConnected Worklet.set_currentSession
         Worklet.set_workletNode Worklet.set_source Worklet.set_mediaStream
         Worklet.set_inputAudioContext Worklet.set_outputAudioContext
         Worklet.workletNode Worklet.source Worklet.mediaStream
         Worklet.inputAudioContext Worklet.outputAudioContext
         bind unawaited];
    eexists; rewrite <- !app_assoc; cbn [app]; reflexivity.
Qed.

(** ** The playback schedule *)

Section Schedule.

Lemma scheduleOf_app (a b : list Effect) :
  scheduleOf (a ++ b) = scheduleOf a ++ scheduleOf b.
Proof. apply flat_map_app. Qed.

Lemma sequential_snoc (blocks : list (Q * Q)) :
  forall from start stop : Q,
    sequential from blocks ->
    (endOf from blocks <= start)%Q ->
    (start <= stop)%Q ->
    sequential from (blocks ++ [(start, stop)])
    /\ endOf from (blocks ++ [(start, stop)]) = stop.
Proof.
  induction blocks as [| [s e] rest IH]; intros from start stop Hseq Hend Hle.
  - cbn in *. auto.
  - cbn [sequential endOf app] in *. destruct Hseq as [A [B C]].
    destruct (IH e start stop C Hend Hle) as [D E]. auto.
Qed.

(** A step of the playback keeps the schedule sequential and the cursor
    at or after its end. *)
Lemma playback_step_keeps (cursor cursor' : Q) (blocks blocks' : list (Q * Q)) :
  playback_step cursor blocks cursor' blocks' ->
  sequential 0 blocks /\ (endOf 0 blocks <= cursor)%Q ->
  sequential 0 blocks' /\ (endOf 0 blocks' <= cursor')%Q.
Proof.
  intros [[-> ->] | [now [d [Hd [-> ->]]]]] [Hseq Hend]; [auto |].
  pose proof (Q.le_max_r now cursor) as M.
  destruct (sequential_snoc blocks 0 (Qmax now cursor) (Qmax now cursor + d)
              Hseq) as [A B]; [lra | lra |].
  split; [exact A |]. rewrite B. apply Qle_refl.
Qed.

End Schedule.

Module ScriptPlayback.
Import Script ScriptFacts.

Lemma then_send_schedule (m : Outbound) (st : Session) :
  scheduleOf (trace (then_send m st)) = scheduleOf (trace st).
Proof.
  unpack st. unfold then_send, then_callback. cbn.
  destruct sp as [[r q | s | e] |]; cbn; auto.
  destruct conn; cbn; auto. destruct (next_outcome s). cbn.
  rewrite scheduleOf_app. cbn. apply app_nil_r.
Qed.

Lemma onLog_schedule (t : LogType) (m : string) (st : Session) :
  scheduleOf (trace (onLog t m st)) = scheduleOf (trace st)
  /\ nextStartTime (onLog t m st) = nextStartTime st.
Proof.
  unpack st. cbn. rewrite scheduleOf_app. cbn. now rewrite app_nil_r.
Qed.

Lemma handleAudio_schedule (now : Q) (a : option Audio.ArrayBuffer)
  (st : Session) :
  playback_step (nextStartTime st) (scheduleOf (trace st))
    (nextStartTime (message_catch (handleAudio now a st)))
    (scheduleOf (trace (message_catch (handleAudio now a st)))).
Proof.
  unfold handleAudio.
  destruct a as [[| b bs] |]; try (left; split; reflexivity).
  destruct (outputAudioContext st); [| left; split; reflexivity].
  destruct (Audio.pcmToAudioBuffer (b :: bs) OUTPUT_SAMPLE_RATE) as [buf |] eqn:E.
  - right. exists now, (Audio.duration buf).
    split; [exact (duration_nonneg _ _ E) |].
    unpack st. cbn. rewrite scheduleOf_app. cbn. auto.
  - left. unpack st. cbn. rewrite scheduleOf_app. cbn.
    now rewrite app_nil_r.
Qed.

Lemma runCalls_schedule (now : Q) (a : option Audio.ArrayBuffer)
  (calls : list FunctionCall) :
  forall st : Session,
    playback_step (nextStartTime st) (scheduleOf (trace st))
      (nextStartTime (message_catch (runCalls now calls a st)))
      (scheduleOf (trace (message_catch (runCalls now calls a st)))).
Proof.
  induction calls as [| fc rest IH]; intros st.
  - apply handleAudio_schedule.
  - cbn [runCalls].
    destruct (String.eqb (fc_name fc) "get_financial_profile").
    + match goal with |- context [runCalls now rest a ?s] =>
        pose proof (IH s) as H end.
      rewrite then_send_cursor, then_send_schedule in H.
      destruct (onLog_schedule tool "Accessing secure financial profile..." st)
        as [A B].
      match type of H with context [onLog tool ?m (onLog tool ?m' st)] =>
        destruct (onLog_schedule tool m (onLog tool m' st)) as [C D] end.
      rewrite C, D, A, B in H. exact H.
    + destruct (String.eqb (fc_name fc) "google_search").
      * left. destruct (fc_args fc); unpack st; cbn; rewrite scheduleOf_app;
          cbn; now rewrite app_nil_r.
      * match goal with |- context [runCalls now rest a ?s] =>
          pose proof (IH s) as H end.
        now rewrite then_send_cursor, then_send_schedule in H.
Qed.

Lemma run_thens_schedule (q : list Outbound) :
  forall st : Session,
    scheduleOf (trace (run_thens q st)) = scheduleOf (trace st).
Proof.
  induction q as [| m rest IH]; intros st; [reflexivity |].
  cbn [run_thens]. destruct (sessionPromise st) as [[r q' | s | e] |]; auto.
  rewrite IH. unpack st. unfold then_callback. cbn.
  destruct conn; cbn; auto. destruct (next_outcome s). cbn.
  rewrite scheduleOf_app. cbn. apply app_nil_r.
Qed.

Lemma settle_schedule (st : Session) :
  scheduleOf (trace (settle st)) = scheduleOf (trace st).
Proof.
  unfold settle. destruct (sessionPromise st) as [[[s | e] q | s | e] |]; auto.
  - rewrite run_thens_schedule. now unpack st.
  - now unpack st.
Qed.

Lemma disconnect_schedule (st : Session) :
  scheduleOf (trace (disconnect st)) = scheduleOf (trace st).
Proof.
  unfold disconnect, disconnect_begin.
  destruct (negb (isConnected st)
            && match sessionPromise st with None => true | Some _ => false end);
    [reflexivity |].
  unfold disconnect_end.
  match goal with |- context [settle ?s] =>
    pose proof (settle_schedule s) as E; generalize dependent (settle s) end.
  intros x E. transitivity (scheduleOf (trace x)).
  { unpack x. cbn. rewrite !scheduleOf_app. cbn. now rewrite !app_nil_r. }
  rewrite E. unfold close_context. unpack st. cbn.
  destruct pr, so, ms, ic as [[| |] |], oc as [[| |] |]; cbn;
    rewrite ?scheduleOf_app; cbn; rewrite ?app_nil_r; reflexivity.
Qed.

Lemma deliver_schedule (st : Session) (ev : Event) :
  playback_step (nextStartTime st) (scheduleOf (trace st))
    (nextStartTime (deliver st ev)) (scheduleOf (trace (deliver st ev))).
Proof.
  destruct ev as [now message | k now | data | |]; cbn [deliver].
  - unfold handleMessage. destruct (isConnected st); [| now left].
    cbn [negb]. destruct (toolCall message) as [calls |].
    + match goal with |- context [runCalls now calls ?a ?s] =>
        pose proof (runCalls_schedule now a calls s) as H end.
      destruct (onLog_schedule system "Coach requesting data..." st) as [A B].
      now rewrite A, B in H.
    + apply handleAudio_schedule.
  - unfold timer. destruct (nth_error (pending st) k) as [t |]; [| now left].
    unfold resume. destruct (mockGoogleSearch (searchQuery t)).
    + match goal with |- context [runCalls now ?c ?a ?s] =>
        pose proof (runCalls_schedule now a c s) as H end.
      rewrite then_send_cursor, then_send_schedule in H.
      match type of H with context [onLog tool ?m ?s] =>
        destruct (onLog_schedule tool m s) as [A B] end.
      rewrite A, B in H.
      replace (nextStartTime (set_pending (remove_nth k (pending st)) st))
        with (nextStartTime st) in H by now unpack st.
      replace (trace (set_pending (remove_nth k (pending st)) st))
        with (trace st) in H by now unpack st.
      exact H.
    + left. unpack st. cbn. rewrite scheduleOf_app. cbn.
      now rewrite app_nil_r.
  - left. unfold onaudioprocess. destruct (isConnected st); [| now split].
    cbn [negb unawaited]. rewrite then_send_cursor, then_send_schedule.
    unpack st. cbn. rewrite scheduleOf_app. cbn. now rewrite app_nil_r.
  - left. unfold handleOpen, startAudioStreaming. unpack st. cbn.
    destruct ic, ms, sp; cbn; rewrite ?scheduleOf_app; cbn;
      rewrite ?app_nil_r; auto.
  - left. now rewrite disconnect_cursor, disconnect_schedule.
Qed.

End ScriptPlayback.

(** X19.  ScriptProcessor service: whatever is delivered, and whatever
    the output clock reads at each message, the blocks handed to the
    output never overlap: each starts at or after the end of the one
    before it, and the cursor stays at or after the end of the last. *)
Theorem script_playback_sequential (evs : list Script.Event)
  (st : Script.Session) :
  sequential 0 (scheduleOf (Script.trace st)) ->
  (endOf 0 (scheduleOf (Script.trace st)) <= Script.nextStartTime st)%Q ->
  sequential 0 (scheduleOf (Script.trace (Script.run evs st)))
  /\ (endOf 0 (scheduleOf (Script.trace (Script.run evs st)))
      <= Script.nextStartTime (Script.run evs st))%Q.
Proof.
  revert st. induction evs as [| ev rest IH]; intros st Hseq Hend.
  - cbn. auto.
  - cbn [Script.run fold_left].
    destruct (playback_step_keeps _ _ _ _
                (ScriptPlayback.deliver_schedule st ev) (conj Hseq Hend))
      as [A B].
    exact (IH _ A B).
Qed.

(** Witness for X19: two blocks on the connected service, the second
    arriving while the first still plays, then a third after a pause. *)
Lemma script_playback_sequential_witness :
  sequential 0
    (scheduleOf
       (Script.trace
          (Script.run [Script.Message 5 (audioMessage two_frames);
                       Script.Message 5 (audioMessage two_frames);
                       Script.Message 9 (audioMessage two_frames)]
             script_connected))).
Proof.
  apply (script_playback_sequential
           [Script.Message 5 (audioMessage two_frames);
            Script.Message 5 (audioMessage two_frames);
            Script.Message 9 (audioMessage two_frames)] script_connected).
  - exact I.
  - cbn. discriminate.
Defined.

Module WorkletPlayback.
Import Worklet WorkletFacts.

Lemma sendToolResponse_schedule (fc : FunctionCall) (r : ToolValue)
  (st : Session) :
  scheduleOf (trace (sendToolResponse fc r st)) = scheduleOf (trace st).
Proof.
  unpack st. unfold sendToolResponse, session_send. cbn.
  destruct conn, cs as [s |]; cbn; auto.
  destruct (next_outcome s) as [[| e] s']; cbn; rewrite !scheduleOf_app; cbn;
    now rewrite ?app_nil_r.
Qed.

Lemma onLog_schedule_w (t : LogType) (m : string) (st : Session) :
  scheduleOf (trace (onLog t m st)) = scheduleOf (trace st)
  /\ nextStartTime (onLog t m st) = nextStartTime st.
Proof.
  unpack st. cbn. rewrite scheduleOf_app. cbn. now rewrite app_nil_r.
Qed.

Lemma handleAudio_schedule_w (now : Q) (a : option Audio.ArrayBuffer)
  (st : Session) :
  playback_step (nextStartTime st) (scheduleOf (trace st))
    (nextStartTime (message_catch (handleAudio now a st)))
    (scheduleOf (trace (message_catch (handleAudio now a st)))).
Proof.
  unfold handleAudio.
  destruct a as [[| b bs] |]; try (left; split; reflexivity).
  destruct (outputAudioContext st); [| left; split; reflexivity].
  destruct (Audio.pcmToAudioBuffer (b :: bs) OUTPUT_SAMPLE_RATE) as [ab |] eqn:E.
  - right. exists now, (Audio.duration ab).
    split; [exact (ScriptFacts.duration_nonneg _ _ E) |].
    unpack st. cbn. rewrite scheduleOf_app. cbn. auto.
  - left. unpack st. cbn. rewrite scheduleOf_app. cbn.
    now rewrite app_nil_r.
Qed.

Lemma runCalls_schedule_w (now : Q) (a : option Audio.ArrayBuffer)
  (calls : list FunctionCall) :
  forall st : Session,
    playback_step (nextStartTime st) (scheduleOf (trace st))
      (nextStartTime (message_catch (runCalls now calls a st)))
      (scheduleOf (trace (message_catch (runCalls now calls a st)))).
Proof.
  induction calls as [| fc rest IH]; intros st.
  - apply handleAudio_schedule_w.
  - cbn [runCalls].
    destruct (String.eqb (fc_name fc) "get_financial_profile").
    + match goal with |- context [runCalls now rest a ?s] =>
        pose proof (IH s) as H end.
      rewrite sendToolResponse_cursor, sendToolResponse_schedule in H.
      match type of H with context [onLog tool ?m st] =>
        destruct (onLog_schedule_w tool m st) as [A B] end.
      rewrite A, B in H. exact H.
    + destruct (String.eqb (fc_name fc) "google_search").
      * left. destruct (fc_args fc); unpack st; cbn; rewrite scheduleOf_app;
          cbn; now rewrite app_nil_r.
      * match goal with |- context [runCalls now rest a ?s] =>
          pose proof (IH s) as H end.
        now rewrite sendToolResponse_cursor, sendToolResponse_schedule in H.
Qed.

Lemma disconnect_schedule_w (st : Session) :
  scheduleOf (trace (unawaited (disconnect st))) = scheduleOf (trace st).
Proof.
  unpack st. unfold disconnect, close_context. cbn.
  destruct wn, so, ms, ic as [[| |] |], oc as [[| |] |]; cbn;
    rewrite ?scheduleOf_app; cbn; rewrite ?app_nil_r; reflexivity.
Qed.

Lemma sendAudioChunk_schedule (data : list Q) (st : Session) :
  scheduleOf (trace (unawaited (sendAudioChunk data st)))
  = scheduleOf (trace st).
Proof.
  unfold sendAudioChunk.
  destruct (negb (isConnected st)
            || match currentSession st with None => true | Some _ => false end);
    [reflexivity |].
  unfold session_send.
  destruct (currentSession
              (emit (Volume (RmsTimes100
                 (sumSquares (stride4 data)
                  / (inject_Z (Z.of_nat (List.length data)) / 4)))) st))
    as [s |] eqn:E.
  - destruct (next_outcome s) as [[| e] s']; cbn [try_catch unawaited].
    + unpack st. cbn. rewrite !scheduleOf_app. cbn. now rewrite !app_nil_r.
    + match goal with |- context [if ?c then _ else _] => destruct c end;
        cbn [unawaited].
      * rewrite disconnect_schedule_w. unpack st. cbn.
        rewrite !scheduleOf_app. cbn. now rewrite !app_nil_r.
      * unpack st. cbn. rewrite !scheduleOf_app. cbn. now rewrite !app_nil_r.
  - cbn [try_catch].
    match goal with |- context [if ?c then _ else _] => destruct c end;
      cbn [unawaited].
    + rewrite disconnect_schedule_w. unpack st. cbn.
      rewrite !scheduleOf_app. cbn. now rewrite !app_nil_r.
    + unpack st. cbn. rewrite !scheduleOf_app. cbn. now rewrite !app_nil_r.
Qed.

Lemma processLoop_schedule (fuel : nat) (chunk : list Q) :
  forall (chunkIdx : nat) (st : Session),
    scheduleOf (trace (unawaited (processLoop fuel chunk chunkIdx st)))
    = scheduleOf (trace st).
Proof.
  induction fuel as [| fuel IH]; intros chunkIdx st; [reflexivity |].
  cbn [processLoop].
  destruct (chunkIdx <? List.length chunk)%nat; [| reflexivity].
  cbv zeta.
  match goal with |- context [if ?c then _ else _] => destruct c end.
  - match goal with |- context [sendAudioChunk ?d ?s] =>
      pose proof (sendAudioChunk_schedule d s) as E;
      destruct (sendAudioChunk d s) as [s1 | e s1] end; cbn [bind unawaited] in *.
    + rewrite IH. transitivity (scheduleOf (trace s1)); [now destruct s1 |].
      rewrite E. now unpack st.
    + rewrite E. now unpack st.
  - cbn [bind]. rewrite IH. now unpack st.
Qed.

Lemma deliver_schedule_w (st : Session) (ev : Event) :
  playback_step (nextStartTime st) (scheduleOf (trace st))
    (nextStartTime (deliver st ev)) (scheduleOf (trace (deliver st ev))).
Proof.
  destruct ev as [now message | k now | chunk |]; cbn [deliver].
  - unfold handleMessage. destruct (isConnected st); [| now left].
    cbn [negb]. destruct (toolCall message) as [calls |].
    + apply runCalls_schedule_w.
    + apply handleAudio_schedule_w.
  - unfold timer. destruct (nth_error (pending st) k) as [t |]; [| now left].
    unfold resume. cbv zeta.
    match goal with |- context [runCalls now ?c ?a ?s] =>
      pose proof (runCalls_schedule_w now a c s) as H end.
    rewrite sendToolResponse_cursor, sendToolResponse_schedule in H.
    replace (nextStartTime (set_pending (remove_nth k (pending st)) st))
      with (nextStartTime st) in H by now unpack st.
    replace (trace (set_pending (remove_nth k (pending st)) st))
      with (trace st) in H by now unpack st.
    exact H.
  - left. unfold port_onmessage, processInputAudio.
    destruct (workletNode st); [| now split].
    destruct (isConnected st); [| now split].
    cbn [negb]. now rewrite processLoop_cursor, processLoop_schedule.
  - left. now rewrite disconnect_cursor_w, disconnect_schedule_w.
Qed.

End WorkletPlayback.

(** X20.  AudioWorklet service: whatever is delivered, the blocks handed
    to the output never overlap, and the cursor stays at or after the end
    of the last one. *)
Theorem worklet_playback_sequential (evs : list Worklet.Event)
  (st : Worklet.Session) :
  sequential 0 (scheduleOf (Worklet.trace st)) ->
  (endOf 0 (scheduleOf (Worklet.trace st)) <= Worklet.nextStartTime st)%Q ->
  sequential 0 (scheduleOf (Worklet.trace (Worklet.run evs st)))
  /\ (endOf 0 (scheduleOf (Worklet.trace (Worklet.run evs st)))
      <= Worklet.nextStartTime (Worklet.run evs st))%Q.
Proof.
  revert st. induction evs as [| ev rest IH]; intros st Hseq Hend.
  - cbn. auto.
  - cbn [Worklet.run fold_left].
    destruct (playback_step_keeps _ _ _ _
                (WorkletPlayback.deliver_schedule_w st ev) (conj Hseq Hend))
      as [A B].
    exact (IH _ A B).
Qed.

(** Witness for X20: audio, a captured frame, and audio again with the
    clock behind the cursor. *)
Lemma worklet_playback_sequential_witness :
  sequential 0
    (scheduleOf
       (Worklet.trace
          (Worklet.run [Worklet.Message 5 (audioMessage two_frames);
                        Worklet.WorkletMessage [1%Q; 0%Q];
                        Worklet.Message 2 (audioMessage two_frames)]
             worklet_connected))).
Proof.
  apply (worklet_playback_sequential
           [Worklet.Message 5 (audioMessage two_frames);
            Worklet.WorkletMessage [1%Q; 0%Q];
            Worklet.Message 2 (audioMessage two_frames)] worklet_connected).
  - exact I.
  - cbn. discriminate.
Defined.

(** ** Teardown and reconnection *)

Section Reconnection.

Lemma held_app (a b : list Resource) :
  local_resources (a ++ b) = local_resources a ++ local_resources b.
Proof. apply filter_app. Qed.

(** What [disconnect()] of the AudioWorklet service leaves alone. *)
Lemma worklet_disconnect_keeps (st : Worklet.Session) :
  Worklet.isConnected (unawaited (Worklet.disconnect st)) = false
  /\ Worklet.audioBuffer (unawaited (Worklet.disconnect st))
     = Worklet.audioBuffer st
  /\ Worklet.audioBufferIdx (unawaited (Worklet.disconnect st))
     = Worklet.audioBufferIdx st
  /\ startsOf (Worklet.trace (unawaited (Worklet.disconnect st)))
     = startsOf (Worklet.trace st)
  /\ audioBlocksOf (Worklet.trace (unawaited (Worklet.disconnect st)))
     = audioBlocksOf (Worklet.trace st).
Proof.
  destruct st as [ic oc ms wn so nst conn buf idx cs pend tr].
  unfold Worklet.disconnect, Worklet.close_context. cbn.
  destruct wn, so, ms, ic as [[| |] |], oc as [[| |] |]; cbn;
    rewrite ?startsOf_app, ?audioBlocksOf_app; cbn; rewrite ?app_nil_r;
    repeat split; reflexivity.
Qed.

(** A [connect()] that meets no failure, on a service whose flag is
    down. *)
Lemma worklet_connect_keeps (env : Worklet.ConnectEnv) (session : LiveSession)
  (st : Worklet.Session) :
  Worklet.isConnected st = false ->
  Worklet.addModule env = None ->
  Worklet.getUserMedia env = None ->
  let st1 := Worklet.connect env (inl session) st in
  Worklet.isConnected st1 = true
  /\ Worklet.workletNode st1 = true
  /\ Worklet.currentSession st1 = Some session
  /\ Worklet.outputAudioContext st1 <> None
  /\ Worklet.nextStartTime st1 = Worklet.nextStartTime st
  /\ Worklet.audioBuffer st1 = Worklet.audioBuffer st
  /\ Worklet.audioBufferIdx st1 = Worklet.audioBufferIdx st
  /\ startsOf (Worklet.trace st1) = startsOf (Worklet.trace st)
  /\ audioBlocksOf (Worklet.trace st1) = audioBlocksOf (Worklet.trace st).
Proof.
  intros Hc Ham Hgum. cbv zeta.
  destruct env as [ctx am gum]. cbn in Ham, Hgum. subst.
  destruct st as [ic oc ms wn so nst conn buf idx cs pend tr].
  cbn in Hc. subst.
  unfold Worklet.connect, Worklet.connect_begin, Worklet.connect_finish.
  cbn. rewrite !startsOf_app, !audioBlocksOf_app. cbn. rewrite !app_nil_r.
  repeat split; try reflexivity. discriminate.
Qed.

End Reconnection.

(** X21.  AudioWorklet service: [disconnect()] while [connect()] waits for
    the transport.  The session that arrives afterwards is dropped: the
    service stays disconnected and holds nothing, no capture starts and
    nothing is sent on the session; the session itself is not closed, only
    a console line says so. *)
Theorem worklet_disconnect_while_connecting (env : Worklet.ConnectEnv)
  (session : LiveSession) (st : Worklet.Session) :
  worklet_released st ->
  Worklet.newContextState env <> closed ->
  Worklet.addModule env = None ->
  Worklet.getUserMedia env = None ->
  let waiting := fst (Worklet.connect_begin env st) in
  let st' :=
    Worklet.connect_finish (inl session)
      (unawaited (Worklet.disconnect waiting)) in
  snd (Worklet.connect_begin env st) = true
  /\ worklet_released st'
  /\ exists delta,
       Worklet.trace st' = Worklet.trace st ++ delta
       /\ acquiresOf delta
          = [InputContext; OutputContext; Microphone; Transport]
       /\ releasesOf delta = [Microphone; InputContext; OutputContext]
       /\ statusChangesOf delta = [true; false]
       /\ sentOf delta = []
       /\ consoleOf delta
          = [(console_log,
              "Disconnected while connecting. Closing session immediately.")].
Proof.
  intros [Hi [Ho [Hm [Hw [Hso [Hc Hs]]]]]] Hnew Ham Hgum. cbv zeta.
  destruct st as [ic oc ms wn so nst conn buf idx cs pend tr].
  cbn in Hi, Ho, Hm, Hw, Hso, Hc, Hs. subst.
  destruct env as [ctx am gum]. cbn in Hnew, Ham, Hgum. subst.
  unfold Worklet.connect_begin, Worklet.connect_finish, Worklet.disconnect,
    Worklet.close_context.
  destruct ctx; [| | congruence]; cbn;
    (split; [reflexivity |]); (split; [repeat split; reflexivity |]);
    eexists; (split; [rewrite <- !app_assoc; reflexivity |]);
    cbn; repeat split; reflexivity.
Qed.

(** Witness for X21: a new service in a browser that grants everything. *)
Lemma worklet_disconnect_while_connecting_witness :
  worklet_released
    (Worklet.connect_finish (inl session1)
       (unawaited
          (Worklet.disconnect
             (fst (Worklet.connect_begin browser_ok Worklet.initial))))).
Proof.
  apply (worklet_disconnect_while_connecting browser_ok session1
           Worklet.initial).
  - repeat split; reflexivity.
  - discriminate.
  - reflexivity.
  - reflexivity.
Defined.

(** X22.  AudioWorklet service: neither [disconnect()] nor [connect()]
    resets the playback cursor.  The first block of a new session is
    scheduled at the later of the new clock and the cursor of the session
    before it. *)
Theorem worklet_cursor_survives_reconnect (env : Worklet.ConnectEnv)
  (session : LiveSession) (now : Q) (pcmBytes : Audio.ArrayBuffer)
  (b : Audio.AudioBuffer) (st : Worklet.Session) :
  Worklet.addModule env = None ->
  Worklet.getUserMedia env = None ->
  Audio.pcmToAudioBuffer pcmBytes OUTPUT_SAMPLE_RATE = Some b ->
  let st1 := Worklet.connect env (inl session)
               (unawaited (Worklet.disconnect st)) in
  Worklet.nextStartTime st1 = Worklet.nextStartTime st
  /\ startsOf (Worklet.trace st1) = startsOf (Worklet.trace st)
  /\ startsOf (Worklet.trace
                 (Worklet.handleMessage now (audioMessage pcmBytes) st1))
     = startsOf (Worklet.trace st) ++ [Qmax now (Worklet.nextStartTime st)].
Proof.
  intros Ham Hgum Hb. cbv zeta.
  set (st1 := Worklet.connect env (inl session)
                (unawaited (Worklet.disconnect st))).
  destruct (worklet_disconnect_keeps st) as [D1 [_ [_ [D4 _]]]].
  destruct (worklet_connect_keeps env session _ D1 Ham Hgum)
    as [C [_ [_ [O [N [_ [_ [S _]]]]]]]].
  fold st1 in C, O, N, S.
  rewrite WorkletFacts.disconnect_cursor_w in N. rewrite D4 in S.
  split; [exact N |]. split; [exact S |].
  rewrite (WorkletFacts.handleMessage_audio_w now pcmBytes b st1 C O Hb).
  transitivity
    (startsOf (Worklet.trace st1
                 ++ [Start (Qmax now (Worklet.nextStartTime st1)) b]));
    [now destruct st1 |].
  rewrite startsOf_app, S, N. reflexivity.
Qed.

(** Witness for X22: a session that has played two frames is replaced;
    the clock of the new output context reads zero. *)
Lemma worklet_cursor_survives_reconnect_witness :
  exists t : Q,
    (0 < t)%Q
    /\ startsOf
         (Worklet.trace
            (Worklet.handleMessage 0 (audioMessage two_frames)
               (Worklet.connect browser_ok (inl session1)
                  (unawaited
                     (Worklet.disconnect
                        (Worklet.handleMessage 7 (audioMessage two_frames)
                           worklet_connected))))))
       = [7%Q; t].
Proof.
  eexists. split.
  2:{ refine (eq_trans
                (proj2 (proj2
                   (worklet_cursor_survives_reconnect browser_ok session1 0
                      two_frames _
                      (Worklet.handleMessage 7 (audioMessage two_frames)
                         worklet_connected)
                      eq_refl eq_refl eq_refl))) _).
      reflexivity. }
  vm_compute. reflexivity.
Defined.

(** X23.  AudioWorklet service: the accumulation buffer and its fill
    index outlive the session.  After [disconnect()] and a new
    [connect()], the samples left over from the session before are the
    first ones sent to the new session. *)
Theorem worklet_buffer_survives_reconnect (env : Worklet.ConnectEnv)
  (session : LiveSession) (frames : list (list Q)) (st : Worklet.Session) :
  Worklet.capturing st ->
  Worklet.addModule env = None ->
  Worklet.getUserMedia env = None ->
  Forall (fun o => Worklet.benign o = true) (sendOutcomes session) ->
  let st1 := Worklet.connect env (inl session)
               (unawaited (Worklet.disconnect st)) in
  let st' := Worklet.run (map Worklet.WorkletMessage frames) st1 in
  Worklet.audioBuffer st1 = Worklet.audioBuffer st
  /\ Worklet.audioBufferIdx st1 = Worklet.audioBufferIdx st
  /\ exists blocks : list (list Q),
       audioBlocksOf (Worklet.trace st')
       = audioBlocksOf (Worklet.trace st) ++ map Worklet.encoded blocks
       /\ List.concat blocks
            ++ firstn (Worklet.audioBufferIdx st') (Worklet.audioBuffer st')
          = firstn (Worklet.audioBufferIdx st) (Worklet.audioBuffer st)
              ++ List.concat frames.
Proof.
  intros Hcap Ham Hgum Hben. cbv zeta.
  set (st1 := Worklet.connect env (inl session)
                (unawaited (Worklet.disconnect st))).
  destruct (worklet_disconnect_keeps st) as [D1 [D2 [D3 [_ D5]]]].
  destruct (worklet_connect_keeps env session _ D1 Ham Hgum)
    as [C [W [S [_ [_ [B [I [_ T]]]]]]]].
  fold st1 in C, W, S, B, I, T.
  rewrite D2 in B. rewrite D3 in I. rewrite D5 in T.
  split; [exact B |]. split; [exact I |].
  destruct Hcap as [_ [Hlen Hidx]].
  destruct (WorkletFacts.frames_conserved frames st1) as [blocks [_ [A [_ K]]]].
  { repeat split; try assumption; try congruence.
    exists session. split; [exact S | exact Hben]. }
  exists blocks. rewrite A, T, K, B, I. split; reflexivity.
Qed.

(** Witness for X23: 128 samples are in the buffer when the session is
    replaced, and are still there afterwards. *)
Lemma worklet_buffer_survives_reconnect_witness :
  Worklet.audioBufferIdx
    (Worklet.connect browser_ok (inl session1)
       (unawaited
          (Worklet.disconnect
             (Worklet.run [Worklet.WorkletMessage (repeat (1 # 2) 128)]
                worklet_connected))))
  = 128%nat.
Proof.
  refine (eq_trans
            (proj1 (proj2
               (worklet_buffer_survives_reconnect browser_ok session1 []
                  (Worklet.run [Worklet.WorkletMessage (repeat (1 # 2) 128)]
                     worklet_connected) _ _ _ _))) _).
  - repeat split; try reflexivity.
    + exists session1. split; [reflexivity | constructor].
    + unfold Worklet.BUFFER_SIZE. cbn. lia.
  - reflexivity.
  - reflexivity.
  - constructor.
  - reflexivity.
Defined.

(** ** [disconnect()] gives back what is held *)

Module ScriptTeardown.
Import Script ScriptFacts.

Lemma sends_project (delta : list Effect) :
  Forall (fun e => match e with Send _ _ => True | _ => False end) delta ->
  releasesOf delta = [] /\ acquiresOf delta = []
  /\ statusChangesOf delta = [] /\ logOf delta = [].
Proof.
  induction 1 as [| e rest He Hrest IH]; [now auto |].
  destruct e; try contradiction. exact IH.
Qed.

Lemma run_thens_frame (q : list Outbound) :
  forall st : Session,
    exists delta,
      trace (run_thens q st) = trace st ++ delta
      /\ Forall (fun e => match e with Send _ _ => True | _ => False end) delta
      /\ inputAudioContext (run_thens q st) = inputAudioContext st
      /\ outputAudioContext (run_thens q st) = outputAudioContext st
      /\ mediaStream (run_thens q st) = mediaStream st
      /\ processor (run_thens q st) = processor st
      /\ source (run_thens q st) = source st.
Proof.
  induction q as [| m rest IH]; intros st.
  - exists []. cbn. rewrite app_nil_r. repeat split; auto.
  - cbn [run_thens].
    destruct (sessionPromise st) as [[r q' | s | e] |];
      try (exists []; rewrite app_nil_r; repeat split; now auto).
    destruct (IH (then_callback m s st)) as [delta [T [F [A [B [C [D E]]]]]]].
    unfold then_callback in *. destruct (isConnected st).
    + destruct (next_outcome s) as [o s'].
      exists (Send (sessionId s) m :: delta).
      rewrite T, A, B, C, D, E. unpack st. cbn. rewrite <- app_assoc.
      repeat split; auto.
    + exists delta. auto 10.
Qed.

Lemma settle_frame (st : Session) :
  exists delta,
    trace (settle st) = trace st ++ delta
    /\ Forall (fun e => match e with Send _ _ => True | _ => False end) delta
    /\ inputAudioContext (settle st) = inputAudioContext st
    /\ outputAudioContext (settle st) = outputAudioContext st
    /\ mediaStream (settle st) = mediaStream st
    /\ processor (settle st) = processor st
    /\ source (settle st) = source st.
Proof.
  unfold settle.
  destruct (sessionPromise st) as [[[s | e] q | s | e] |];
    try (exists []; rewrite app_nil_r; repeat split; now auto).
  - destruct (run_thens_frame q (set_sessionPromise (Some (Fulfilled s)) st))
      as [delta [T [F [A [B [C [D E]]]]]]].
    exists delta. rewrite T, A, B, C, D, E. unpack st. repeat split; auto.
  - exists []. rewrite app_nil_r. unpack st. repeat split; auto.
Qed.

End ScriptTeardown.

(** X24.  ScriptProcessor service: [disconnect()] on a service that is
    connected or connecting releases each resource it holds, once, in the
    order capture node, source node, microphone, input context, output
    context; it acquires nothing, reports the status once, logs
    "Disconnected." once, and leaves the service holding nothing.  The
    session of the transport is not among what it releases. *)
Theorem script_disconnect_releases (st : Script.Session) :
  Script.isConnected st = true \/ Script.sessionPromise st <> None ->
  Script.inputAudioContext st <> Some closed ->
  Script.outputAudioContext st <> Some closed ->
  script_released (Script.disconnect st)
  /\ exists delta,
       Script.trace (Script.disconnect st) = Script.trace st ++ delta
       /\ releasesOf delta
          = (if Script.processor st then [CaptureNode] else [])
              ++ (if Script.source st then [SourceNode] else [])
              ++ (if Script.mediaStream st then [Microphone] else [])
              ++ match Script.inputAudioContext st with
                 | Some _ => [InputContext]
                 | None => []
                 end
              ++ match Script.outputAudioContext st with
                 | Some _ => [OutputContext]
                 | None => []
                 end
       /\ acquiresOf delta = []
       /\ statusChangesOf delta = [false]
       /\ logOf delta = [Disconnected_entry].
Proof.
  intros Hon Hic Hoc. unfold Script.disconnect, Script.disconnect_begin.
  assert (negb (Script.isConnected st)
          && match Script.sessionPromise st with
             | None => true
             | Some _ => false
             end = false) as ->.
  { destruct Hon as [-> | Hs]; [reflexivity |].
    destruct (Script.sessionPromise st); [| congruence].
    apply andb_false_r. }
  unfold Script.disconnect_end, Script.close_context.
  destruct st as [ic oc ms pr so nst conn sp pend tr].
  cbn in Hic, Hoc. clear Hon.
  destruct pr, so, ms, ic as [[| |] |], oc as [[| |] |]; try congruence;
    cbn -[Script.settle];
    match goal with |- context [Script.settle ?s] =>
      destruct (ScriptTeardown.settle_frame s)
        as [sends [T [F [A [B [C [D E]]]]]]];
      destruct (ScriptTeardown.sends_project sends F) as [R1 [R2 [R3 R4]]];
      generalize dependent (Script.settle s)
    end;
    intros x T A B C D E; destruct x; cbn in T, A, B, C, D, E; subst;
    (split; [repeat split; reflexivity |]);
    eexists; (split; [cbn; rewrite <- !app_assoc; reflexivity |]);
    unfold releasesOf, acquiresOf, statusChangesOf, logOf in *;
    rewrite ?flat_map_app, ?R1, ?R2, ?R3, ?R4; cbn;
    rewrite ?flat_map_app, ?R1, ?R2, ?R3, ?R4;
    repeat split; reflexivity.
Qed.

(** Witness for X24: the connected service. *)
Lemma script_disconnect_releases_witness :
  script_released (Script.disconnect script_connected)
  /\ releasesOf (Script.trace (Script.disconnect script_connected))
     = [CaptureNode; SourceNode; Microphone; InputContext; OutputContext].
Proof.
  split; [| reflexivity].
  apply (script_disconnect_releases script_connected).
  - left. reflexivity.
  - discriminate.
  - discriminate.
Defined.

(** X25.  AudioWorklet service: [disconnect()] returns, releases each
    resource the service holds, once, and leaves it holding nothing; it
    sends nothing, reports the status and logs "Disconnected.", also when
    the service was not connected. *)
Theorem worklet_disconnect_releases (st : Worklet.Session) :
  Worklet.inputAudioContext st <> Some closed ->
  Worklet.outputAudioContext st <> Some closed ->
  exists st' delta,
    Worklet.disconnect st = Normal st'
    /\ worklet_released st'
    /\ Worklet.trace st' = Worklet.trace st ++ delta
    /\ releasesOf delta
       = (if Worklet.workletNode st then [CaptureNode] else [])
           ++ (if Worklet.source st then [SourceNode] else [])
           ++ (if Worklet.mediaStream st then [Microphone] else [])
           ++ match Worklet.inputAudioContext st with
              | Some _ => [InputContext]
              | None => []
              end
           ++ match Worklet.outputAudioContext st with
              | Some _ => [OutputContext]
              | None => []
              end
    /\ acquiresOf delta = []
    /\ sentOf delta = []
    /\ statusChangesOf delta = [false]
    /\ logOf delta = [Disconnected_entry].
Proof.
  intros Hic Hoc.
  destruct st as [ic oc ms wn so nst conn buf idx cs pend tr].
  cbn in Hic, Hoc |- *.
  unfold Worklet.disconnect, Worklet.close_context.
  destruct wn, so, ms, ic as [[| |] |], oc as [[| |] |];
    try congruence; cbn; do 2 eexists;
    (split; [reflexivity |]); (split; [repeat split; reflexivity |]);
    (split; [cbn; rewrite <- ?app_assoc; cbn [app]; reflexivity |]);
    repeat split; reflexivity.
Qed.

(** Witness for X25: the connected service. *)
Lemma worklet_disconnect_releases_witness :
  exists st' delta,
    Worklet.disconnect worklet_connected = Normal st'
    /\ worklet_released st'
    /\ Worklet.trace st' = Worklet.trace worklet_connected ++ delta
    /\ releasesOf delta
       = [CaptureNode; SourceNode; Microphone; InputContext; OutputContext].
Proof.
  destruct (worklet_disconnect_releases worklet_connected)
    as [st' [delta [E [R [T [Rel _]]]]]].
  - discriminate.
  - discriminate.
  - exists st', delta. auto.
Defined.

(** ** The visualizer *)

Section VisualizerFacts.
Import Visualizer.
Local Open Scope R_scope.

Lemma barHeight_range (volume time : R) (i : nat) :
  0 < barHeight volume time i <= 100.
Proof.
  unfold barHeight. cbv zeta.
  pose proof (SIN_bound (time + INR i)) as [S1 S2].
  pose proof (Rmax_l 0.2 (volume / 50)) as M.
  set (m := Rmax 0.2 (volume / 50)) in *.
  set (s := sin (time + INR i)) in *.
  assert (0 < 20 * (m * (1 + s * 0.3))) as P by nra.
  split.
  - apply Rmin_glb_lt; lra.
  - apply Rmin_l.
Qed.

Lemma barHeight_quiet (volume time : R) (i : nat) :
  0 <= volume <= 100 -> barHeight volume time i <= 52.
Proof.
  intros [V0 V1]. unfold barHeight. cbv zeta.
  pose proof (SIN_bound (time + INR i)) as [S1 S2].
  assert (0.2 <= Rmax 0.2 (volume / 50) <= 2) as [M1 M2].
  { split; [apply Rmax_l |]. apply Rmax_lub; lra. }
  set (m := Rmax 0.2 (volume / 50)) in *.
  set (s := sin (time + INR i)) in *.
  eapply Rle_trans; [apply Rmin_r |]. nra.
Qed.

End VisualizerFacts.

(** X26.  Whatever the props and the time, [Visualizer] draws five bars
    of positive size that lie within the 300 by 150 canvas, side by side
    without touching; an active bar is at most 100 high, and at most 52
    high while the volume is between 0 and 100. *)
Theorem visualizer_bars_on_canvas (isActive : bool) (volume time : R) :
  List.length (Visualizer.render isActive volume time) = 5%nat
  /\ Forall Visualizer.onCanvas (Visualizer.render isActive volume time)
  /\ Visualizer.apart (Visualizer.render isActive volume time)
  /\ Forall (fun r => (Visualizer.h r <= 100)%R)
       (Visualizer.render isActive volume time)
  /\ ((0 <= volume <= 100)%R ->
      Forall (fun r => (Visualizer.h r <= 52)%R)
        (Visualizer.render isActive volume time)).
Proof.
  unfold Visualizer.render, Visualizer.bars. cbn [seq map].
  split; [reflexivity |].
  assert (forall i, (i < 5)%nat ->
            Visualizer.onCanvas
              (if isActive then Visualizer.activeBar volume time i
               else Visualizer.idleBar i)
            /\ (Visualizer.h (if isActive
                              then Visualizer.activeBar volume time i
                              else Visualizer.idleBar i) <= 100)%R
            /\ ((0 <= volume <= 100)%R ->
                (Visualizer.h (if isActive
                               then Visualizer.activeBar volume time i
                               else Visualizer.idleBar i) <= 52)%R)) as Hbar.
  { intros i Hi.
    assert (0 <= INR i <= 4)%R as [I0 I4].
    { split; [apply pos_INR |].
      replace 4%R with (INR 4) by (cbn; lra). apply le_INR. lia. }
    destruct isActive.
    - pose proof (barHeight_range volume time i) as [H0 H1].
      unfold Visualizer.onCanvas, Visualizer.activeBar, Visualizer.startX,
        Visualizer.centerY, Visualizer.canvas_width, Visualizer.canvas_height,
        Visualizer.barWidth, Visualizer.spacing, Visualizer.bars.
      cbn [Visualizer.x Visualizer.y Visualizer.w Visualizer.h INR].
      repeat split; try lra.
      intros Hv. pose proof (barHeight_quiet volume time i Hv). lra.
    - unfold Visualizer.onCanvas, Visualizer.idleBar, Visualizer.startX,
        Visualizer.centerY, Visualizer.canvas_width, Visualizer.canvas_height,
        Visualizer.barWidth, Visualizer.spacing, Visualizer.bars.
      cbn [Visualizer.x Visualizer.y Visualizer.w Visualizer.h INR].
      repeat split; lra. }
  split; [| split; [| split]].
  - repeat (apply Forall_cons; [apply Hbar; lia |]). apply Forall_nil.
  - cbn [Visualizer.apart].
    destruct isActive;
      cbn [Visualizer.activeBar Visualizer.idleBar Visualizer.x Visualizer.w
           INR];
      unfold Visualizer.barWidth, Visualizer.spacing; repeat split; lra.
  - repeat (apply Forall_cons; [apply Hbar; lia |]). apply Forall_nil.
  - intros Hv.
    repeat (apply Forall_cons; [apply Hbar; [lia | exact Hv] |]).
    apply Forall_nil.
Qed.

(** ** The component *)

Section AppFacts.
Import App.

Lemma callback_not_error (s : State) (e : Effect) :
  connectionState s <> ERROR -> connectionState (callback s e) <> ERROR.
Proof.
  intros H. destruct e; cbn; try exact H. now destruct isConnected.
Qed.

End AppFacts.

(** X27.  With the ScriptProcessor service, which is the one [App]
    imports, a refused microphone leaves the component in CONNECTING: the
    service reports no status, so the button is disabled and a click no
    longer reaches the handler; the log shows the failure. *)
Theorem app_stuck_after_microphone_refused (error : JsError)
  (live : LiveSession + JsError) (view : App.State) (st : Script.Session) :
  App.hasApiKey view = true ->
  App.connectionState view = DISCONNECTED ->
  Script.isConnected st = false ->
  Script.sessionPromise st = None ->
  let st' :=
    Script.connect_gotMedia (inr error) live (fst (Script.connect_begin st)) in
  let view' :=
    App.callbacks (skipn (List.length (Script.trace st)) (Script.trace st'))
      (fst (App.click view)) in
  snd (App.click view) = App.CallConnect
  /\ App.connectionState view' = CONNECTING
  /\ App.buttonDisabled view' = true
  /\ App.click view' = (view', App.NoCall)
  /\ exists msg,
       App.logs view'
       = App.logs view
           ++ [{| type := system; message := "Initializing audio context..." |};
               {| type := system;
                  message := String.append "Connection failed: " msg |}].
Proof.
  intros Hkey Hstate Hc Hs. cbv zeta.
  assert (App.click view
          = (App.setConnectionState CONNECTING view, App.CallConnect)) as Eclick.
  { unfold App.click, App.buttonDisabled, App.handleConnectToggle.
    now rewrite Hstate, Hkey. }
  rewrite Eclick. cbn [fst snd].
  unfold Script.connect_begin. rewrite Hc.
  cbn [fst Script.connect_gotMedia]. unfold Script.connect_catch. cbv zeta.
  match goal with |- context [String.append "Connection failed: " ?m] =>
    set (msg := m) end.
  rewrite ScriptFacts.disconnect_noop;
    [| destruct st; exact Hc | destruct st; exact Hs].
  match goal with |- context [skipn ?n ?l] =>
    assert (skipn n l
            = [Log {| type := system;
                      message := "Initializing audio context..." |};
               Acquire InputContext;
               Console console_error "Connection failed:";
               Log {| type := system;
                      message := String.append "Connection failed: " msg |}])
      as -> end.
  { destruct st. cbn [Script.trace Script.emit Script.onLog Script.set_trace
                      Script.set_inputAudioContext].
    rewrite <- !app_assoc. cbn [app].
    rewrite skipn_app, skipn_all, Nat.sub_diag. reflexivity. }
  cbn [App.callbacks fold_left App.callback].
  split; [reflexivity |]. split; [reflexivity |]. split; [reflexivity |].
  split; [reflexivity |].
  exists msg. cbn. now rewrite <- app_assoc.
Qed.

(** Witness for X27: the first click on a freshly mounted component. *)
Lemma app_stuck_after_microphone_refused_witness :
  App.connectionState
    (App.callbacks
       (skipn (List.length (Script.trace Script.initial))
          (Script.trace
             (Script.connect_gotMedia (inr (Error "Permission denied"))
                (inl session1) (fst (Script.connect_begin Script.initial)))))
       (fst (App.click (App.mounted "key"))))
  = CONNECTING.
Proof.
  apply (app_stuck_after_microphone_refused (Error "Permission denied")
           (inl session1) (App.mounted "key") Script.initial);
    reflexivity.
Defined.

(** X28.  The component never shows the ERROR state: whatever is clicked
    and whatever the service reports, the connection state stays among
    DISCONNECTED, CONNECTING and CONNECTED; and while no API key is set no
    click asks anything of the service. *)
Theorem app_never_in_error (evs : list App.Event) (view : App.State) :
  App.connectionState view <> ERROR ->
  App.connectionState (App.run evs view) <> ERROR
  /\ (App.hasApiKey view = false ->
      App.hasApiKey (App.run evs view) = false
      /\ snd (App.click (App.run evs view)) = App.NoCall).
Proof.
  revert view. induction evs as [| ev rest IH]; intros view Hne.
  - cbn. split; [exact Hne |]. intros Hk. split; [exact Hk |].
    unfold App.click, App.buttonDisabled, App.handleConnectToggle.
    rewrite Hk. destruct (App.connectionState view); reflexivity.
  - cbn [App.run fold_left].
    assert (App.connectionState (App.step view ev) <> ERROR
            /\ App.hasApiKey (App.step view ev) = App.hasApiKey view) as [A B].
    { destruct ev as [| effects]; cbn [App.step].
      - unfold App.click, App.buttonDisabled, App.handleConnectToggle.
        destruct (App.connectionState view) eqn:E, (App.hasApiKey view) eqn:K;
          cbn; rewrite ?E; split; congruence.
      - clear IH. revert view Hne.
        induction effects as [| e l IHl]; intros view Hne; [now split |].
        cbn [App.callbacks fold_left].
        destruct (IHl (App.callback view e)
                    (callback_not_error view e Hne)) as [C D].
        split; [exact C |]. unfold App.callbacks in D. rewrite D.
        destruct e; try reflexivity. }
    destruct (IH _ A) as [C D]. split; [exact C |].
    intros Hk. apply D. now rewrite B.
Qed.

(** Witness for X28: clicks and reports on a component mounted without a
    key. *)
Lemma app_never_in_error_witness :
  App.connectionState
    (App.run [App.Click; App.Service [StatusChange true]; App.Click]
       (App.mounted EmptyString))
  <> ERROR
  /\ snd (App.click
            (App.run [App.Click; App.Service [StatusChange true]; App.Click]
               (App.mounted EmptyString)))
     = App.NoCall.
Proof.
  destruct (app_never_in_error
              [App.Click; App.Service [StatusChange true]; App.Click]
              (App.mounted EmptyString)) as [A B].
  - discriminate.
  - split; [exact A |]. apply B. reflexivity.
Defined.

(** X29.  AudioWorklet service: a tool response that the transport
    refuses is given up, whatever the error says, a closing transport
    included: one console line is written, and the service stays
    connected and keeps its session and its capture node. *)
Theorem worklet_tool_send_failure (fc : FunctionCall) (result : ToolValue)
  (error : JsError) (rest : list SendOutcome) (id : nat)
  (st : Worklet.Session) :
  Worklet.isConnected st = true ->
  Worklet.currentSession st
  = Some {| sessionId := id; sendOutcomes := SendThrows error :: rest |} ->
  let st' := Worklet.sendToolResponse fc result st in
  Worklet.isConnected st' = true
  /\ Worklet.currentSession st'
     = Some {| sessionId := id; sendOutcomes := rest |}
  /\ Worklet.trace st'
     = Worklet.trace st
         ++ [Send id (Worklet.respond fc result);
             Console console_log "Failed to send tool response"]
  /\ Worklet.workletNode st' = Worklet.workletNode st.
Proof.
  intros Hc Hs. cbv zeta. unfold Worklet.sendToolResponse, Worklet.session_send.
  rewrite Hc, Hs. cbn [andb next_outcome sendOutcomes sessionId].
  destruct st as [ic oc ms wn so nst conn buf idx cs pend tr]. cbn in *.
  rewrite <- app_assoc. repeat split; auto.
Qed.

(** Witness for X29: the transport reports that it is closing. *)
Lemma worklet_tool_send_failure_witness :
  Worklet.isConnected
    (Worklet.sendToolResponse profileCall MOCK_FINANCIAL_PROFILE worklet_closing)
  = true.
Proof.
  apply (worklet_tool_send_failure profileCall MOCK_FINANCIAL_PROFILE
           (Error "WebSocket is already in CLOSING or CLOSED state.") [] 2
           worklet_closing);
    reflexivity.
Defined.
